(** * ozon-name: batch submission, retry policy, reconciliation and export

    A shallow embedding of the TypeScript sources

      - [types.ts]                       the three record types,
      - [services/geminiService.ts]      the Gemini adapter and its retry loop,
      - [services/deepseekService.ts]    the DeepSeek adapter and [makeRequest],
      - [App.tsx] (two revisions)        [parseInput], [handleProcess], [downloadCSV],

    followed by the properties of the specification, each stated over these
    definitions.

    Conventions.  A JavaScript string is the list of its UTF-16 code units
    ([jstring]); a JavaScript value that comes out of [JSON.parse] is a
    [value]; a computation that may throw is a [res]; the network, the clock
    and the React setters are made explicit as an oracle and a trace. *)

From Stdlib Require Import String Ascii DecimalString.
From Stdlib Require Import NArith ZArith List Bool Arith Lia.
From Equations Require Import Equations.
Import ListNotations.

Set Implicit Arguments.
Set Warnings "-register-all".
Open Scope N_scope.
Open Scope list_scope.

(* ===================================================================== *)
(** * JavaScript strings *)
(* ===================================================================== *)

(** A string is its sequence of UTF-16 code units. *)
Definition jstring := list N.

(** Decoding of the UTF-8 bytes of a literal of this file into code units
    (one to three byte sequences, which cover every literal of the sources). *)
Fixpoint utf8_decode (bs : list N) : jstring :=
  match bs with
  | [] => []
  | b :: r =>
      if b <? 128 then b :: utf8_decode r
      else if b <? 224 then
        match r with
        | c1 :: r' => ((b mod 32) * 64 + c1 mod 64) :: utf8_decode r'
        | [] => []
        end
      else
        match r with
        | c1 :: c2 :: r' =>
            ((b mod 16) * 4096 + (c1 mod 64) * 64 + c2 mod 64) :: utf8_decode r'
        | _ => []
        end
  end.

Definition lit (s : string) : jstring :=
  utf8_decode (map N_of_ascii (list_ascii_of_string s)).

(** Named code units. *)
Definition TAB : N := 9.
Definition LF : N := 10.
Definition SPACE : N := 32.
Definition DQUOTE : N := 34.
Definition COMMA : N := 44.
Definition LBRACKET : N := 91.
Definition RBRACKET : N := 93.
Definition BOM : N := 65279.

Fixpoint jstring_eqb (a b : jstring) : bool :=
  match a, b with
  | [], [] => true
  | x :: a', y :: b' => (x =? y) && jstring_eqb a' b'
  | _, _ => false
  end.

(** A string is truthy when it is not empty. *)
Definition nonEmpty (s : jstring) : bool :=
  match s with [] => false | _ :: _ => true end.

(** ECMAScript [WhiteSpace] and [LineTerminator] code points: what
    [String.prototype.trim] strips. *)
Definition isWhiteSpace (c : N) : bool :=
  ((9 <=? c) && (c <=? 13)) || (c =? 32) || (c =? 160) || (c =? 5760)
  || ((8192 <=? c) && (c <=? 8202)) || (c =? 8232) || (c =? 8233)
  || (c =? 8239) || (c =? 8287) || (c =? 12288) || (c =? 65279).

Fixpoint dropWhile (p : N -> bool) (s : jstring) : jstring :=
  match s with
  | [] => []
  | c :: r => if p c then dropWhile p r else c :: r
  end.

Definition trimStart (s : jstring) : jstring := dropWhile isWhiteSpace s.
Definition trimEnd (s : jstring) : jstring := rev (dropWhile isWhiteSpace (rev s)).

(** [s.trim()] *)
Definition trim (s : jstring) : jstring := trimEnd (trimStart s).

Fixpoint startsWith (pre s : jstring) : bool :=
  match pre, s with
  | [], _ => true
  | x :: pre', y :: s' => (x =? y) && startsWith pre' s'
  | _ :: _, [] => false
  end.

(** [s.includes(sub)] *)
Fixpoint includes (s sub : jstring) : bool :=
  startsWith sub s ||
  match s with
  | [] => false
  | _ :: r => includes r sub
  end.

(** [s.indexOf(c)] for a one-unit needle; [None] stands for -1. *)
Fixpoint indexOf (c : N) (s : jstring) : option nat :=
  match s with
  | [] => None
  | x :: r => if x =? c then Some O else option_map S (indexOf c r)
  end.

(** [s.lastIndexOf(c)] for a one-unit needle; [None] stands for -1. *)
Fixpoint lastIndexOf (c : N) (s : jstring) : option nat :=
  match s with
  | [] => None
  | x :: r =>
      match lastIndexOf c r with
      | Some i => Some (S i)
      | None => if x =? c then Some O else None
      end
  end.

(** [s.substring(a, b)]: the arguments are swapped when [a > b] and clamped
    to the length. *)
Definition substring (a b : nat) (s : jstring) : jstring :=
  let lo := Nat.min a b in
  let hi := Nat.max a b in
  firstn (hi - lo) (skipn lo s).

(** [consHead c fields] puts one more code unit in front of the first field. *)
Definition consHead (c : N) (fields : list jstring) : list jstring :=
  match fields with
  | [] => [[c]]
  | h :: t => (c :: h) :: t
  end.

(** [s.split('\n')]: the empty string gives one empty field. *)
Fixpoint split_nl (s : jstring) : list jstring :=
  match s with
  | [] => [[]]
  | c :: r => if c =? LF then [] :: split_nl r else consHead c (split_nl r)
  end.

Definition isSpace (c : N) : bool := c =? SPACE.

Definition startsWithSpace (s : jstring) : bool :=
  match s with
  | c :: _ => isSpace c
  | [] => false
  end.

(** [line.split(/\t| {2,}/)].  The pattern never matches the empty string,
    so the split scans left to right: a tab is a separator, two or more
    spaces are one separator (the quantifier is greedy: the whole run), a
    single space is field text.  The text after the last separator is the
    last field, and the empty line gives one empty field. *)
Equations? splitFields (s : jstring) : list jstring by wf (length s) lt :=
  splitFields [] := [[]];
  splitFields (c :: r) :=
    if c =? TAB then [] :: splitFields r
    else if isSpace c && startsWithSpace r
         then [] :: splitFields (dropWhile isSpace r)
         else consHead c (splitFields r).
Proof.
  all: simpl; try lia.
  clear. apply Nat.lt_succ_r.
  induction r as [|x r IH]; simpl; [lia|].
  destruct (isSpace x); simpl; lia.
Qed.

(** Decimal rendering of an integer, as in a template literal. *)
Definition decimal (z : Z) : jstring :=
  lit (NilZero.string_of_int (Z.to_int z)).

(** [xs.join(sep)] on strings. *)
Fixpoint join (sep : jstring) (xs : list jstring) : jstring :=
  match xs with
  | [] => []
  | [x] => x
  | x :: rest => x ++ sep ++ join sep rest
  end.

(* ===================================================================== *)
(** * types.ts *)
(* ===================================================================== *)

Record ProductInput := {
  sku : jstring;
  chineseName : jstring
}.

(** The field names [sku] and [chineseName] are taken by [ProductInput];
    the result record prefixes them. *)
Record ProductResult := {
  res_sku : jstring;
  res_chineseName : jstring;
  russianName : jstring;
  russianDescription : jstring;
  backTranslation : jstring
}.

Record ProcessingStatus := {
  total : nat;
  completed : nat;
  isProcessing : bool;
  error : option jstring
}.

(* ===================================================================== *)
(** * JavaScript values, errors and computations that may throw *)
(* ===================================================================== *)

(** The values [JSON.parse] and [response.json()] deliver, and [undefined].
    An object lists each own property once, in insertion order.  Numbers
    are the integers: the adapters only test them for truthiness, compare
    them with strings and print them. *)
Inductive value : Type :=
| VUndefined
| VNull
| VBool (b : bool)
| VNum (n : Z)
| VStr (s : jstring)
| VArr (items : list value)
| VObj (props : list (jstring * value)).

(** A thrown error, by the two properties the sources read: [error.message]
    and [error.status], either of which may be [undefined].  The record
    fields carry a prefix, [status] being a state variable of [App.tsx]. *)
Record JsError := {
  err_message : option jstring;
  err_status : option Z
}.

(** [new Error(msg)] *)
Definition new_Error (msg : jstring) : JsError :=
  {| err_message := Some msg; err_status := None |}.

Inductive res (A : Type) : Type :=
| Ret (a : A)
| Throw (e : JsError).
Arguments Ret {A} a.
Arguments Throw {A} e.

Definition res_bind {A B : Type} (m : res A) (k : A -> res B) : res B :=
  match m with
  | Ret a => k a
  | Throw e => Throw e
  end.

Notation "x <- m ;; k" := (res_bind m (fun x => k))
  (at level 61, m at next level, right associativity).

Fixpoint lookup (name : jstring) (props : list (jstring * value)) : option value :=
  match props with
  | [] => None
  | (k, v) :: rest => if jstring_eqb k name then Some v else lookup name rest
  end.

(** Truthiness, as [||] and [&&] see it. *)
Definition truthy (v : value) : bool :=
  match v with
  | VUndefined | VNull => false
  | VBool b => b
  | VNum n => negb (n =? 0)%Z
  | VStr s => nonEmpty s
  | VArr _ | VObj _ => true
  end.

(** [Array.isArray(v)] *)
Definition Array_isArray (v : value) : bool :=
  match v with
  | VArr _ => true
  | _ => false
  end.

(** [`${m}`] for an [error.message] that may be [undefined]. *)
Definition template_message (m : option jstring) : jstring :=
  match m with
  | Some s => s
  | None => lit "undefined"
  end.

Section Engine.

(** The [TypeError] the engine throws when property [name] of [v] cannot be
    read or called; its text is the engine's. *)
Variable engineError : value -> jstring -> JsError.

(** [v.name], for the property names of the sources ([sku], [products],
    [error], [message], [choices], [content], ...): none of them is a
    property of a string, a number, a boolean or an array. *)
Definition getProp (v : value) (name : jstring) : res value :=
  match v with
  | VUndefined | VNull => Throw (engineError v name)
  | VObj props =>
      match lookup name props with
      | Some x => Ret x
      | None => Ret VUndefined
      end
  | _ => Ret VUndefined
  end.

(** [v[0]] *)
Definition getIndex0 (v : value) : res value :=
  match v with
  | VUndefined | VNull => Throw (engineError v (lit "0"))
  | VArr items =>
      match items with
      | x :: _ => Ret x
      | [] => Ret VUndefined
      end
  | VStr s =>
      match s with
      | c :: _ => Ret (VStr [c])
      | [] => Ret VUndefined
      end
  | VObj props =>
      match lookup (lit "0") props with
      | Some x => Ret x
      | None => Ret VUndefined
      end
  | _ => Ret VUndefined
  end.

(** [v?.name] *)
Definition getPropOpt (v : value) (name : jstring) : res value :=
  match v with
  | VUndefined | VNull => Ret VUndefined
  | _ => getProp v name
  end.

(** [String(v)], as [new Error(v)] applies it.  An array is joined
    with commas, [null] and [undefined] items printing as nothing; an
    object prints as [[object Object]] unless its own [toString] property,
    which is never callable in parsed JSON, hides the inherited one. *)
Fixpoint toString (v : value) : res jstring :=
  match v with
  | VUndefined => Ret (lit "undefined")
  | VNull => Ret (lit "null")
  | VBool true => Ret (lit "true")
  | VBool false => Ret (lit "false")
  | VNum n => Ret (decimal n)
  | VStr s => Ret s
  | VArr items =>
      (fix joinItems (l : list value) : res jstring :=
         match l with
         | [] => Ret []
         | x :: rest =>
             s <- match x with
                  | VUndefined | VNull => Ret []
                  | _ => toString x
                  end ;;
             match rest with
             | [] => Ret s
             | _ :: _ => t <- joinItems rest ;; Ret (s ++ [COMMA] ++ t)
             end
         end) items
  | VObj props =>
      match lookup (lit "toString") props with
      | Some _ => Throw (engineError v (lit "toString"))
      | None => Ret (lit "[object Object]")
      end
  end.

(** [items.map(f)] where [f] may throw: the first throw aborts the map. *)
Fixpoint mapM (f : value -> res value) (items : list value) : res (list value) :=
  match items with
  | [] => Ret []
  | x :: rest => y <- f x ;; ys <- mapM f rest ;; Ret (y :: ys)
  end.

(** [v.map(f)]: only an array has [map]. *)
Definition callMap (v : value) (f : value -> res value) : res (list value) :=
  match v with
  | VArr items => mapM f items
  | _ => Throw (engineError v (lit "map"))
  end.

(** [products.find(p => p.sku === x)]: strict equality holds only for a
    string with the same code units. *)
Definition findBySku (products : list ProductInput) (x : value) : option ProductInput :=
  find (fun p => match x with
                 | VStr s => jstring_eqb (sku p) s
                 | _ => false
                 end) products.

(** [products.find(p => p.sku === res.sku)] inside the callback of
    [results.map]: [res.sku] is read once for every input the search visits,
    hence not at all for an empty batch. *)
Definition findOriginal (products : list ProductInput) (entry : value)
  : res (option ProductInput) :=
  match products with
  | [] => Ret None
  | _ :: _ =>
      entrySku <- getProp entry (lit "sku") ;;
      Ret (findBySku products entrySku)
  end.

(** The sentinel for an entry that matches no input. *)
Definition UNKNOWN : jstring := lit "未知".

(** [original?.chineseName || "未知"] *)
Definition sourceName (original : option ProductInput) : jstring :=
  match original with
  | Some p => if nonEmpty (chineseName p) then chineseName p else UNKNOWN
  | None => UNKNOWN
  end.

End Engine.

(** One effect of an adapter call: a request of the given attempt, or a
    [delay(ms)]. *)
Inductive Event :=
| Request (attempt : nat)
| Delay (ms : N).

Definition requests (evs : list Event) : list nat :=
  flat_map (fun ev => match ev with Request a => [a] | Delay _ => [] end) evs.

Definition delays (evs : list Event) : list N :=
  flat_map (fun ev => match ev with Delay ms => [ms] | Request _ => [] end) evs.

(** [Math.pow(2, attempt + 1) * 1000] *)
Definition backoff (attempt : nat) : N := 2 ^ N.of_nat (attempt + 1) * 1000.

(* ===================================================================== *)
(** * services/geminiService.ts *)
(* ===================================================================== *)

(** What one [ai.models.generateContent] call does: it rejects, or it
    resolves to a response whose [text] may be [undefined]. *)
Inductive GenOutcome :=
| GenRejects (e : JsError)
| GenResponse (text : option jstring).

Module Gemini.
Section Adapter.

Variable engineError : value -> jstring -> JsError.
Variable JSON_parse : jstring -> res value.

(** The outcome of the SDK call issued at a given attempt of one
    [generateWithRetry] call. *)
Variable generateContent : nat -> GenOutcome.

(** The body of the [try]: the call, then [JSON.parse(response.text.trim())]. *)
Definition tryBlock (attempt : nat) : res value :=
  match generateContent attempt with
  | GenRejects e => Throw e
  | GenResponse None => Throw (engineError VUndefined (lit "trim"))
  | GenResponse (Some text) => JSON_parse (trim text)
  end.

(** [error.message?.includes('429') || error.status === 429] *)
Definition isRateLimit (error : JsError) : bool :=
  match err_message error with
  | Some m => includes m (lit "429")
  | None => false
  end
  || match err_status error with
     | Some st => (st =? 429)%Z
     | None => false
     end.

(** [let lastError: any] before the first assignment: a thrown
    [undefined], which has neither property. *)
Definition undefinedError : JsError := {| err_message := None; err_status := None |}.

(** The [for] loop of [generateWithRetry], entered with the loop variable
    at [attempt]. *)
Equations? retryLoop (maxRetries attempt : nat) (lastError : JsError)
  : res value * list Event by wf (maxRetries - attempt)%nat lt :=
  retryLoop maxRetries attempt lastError :=
    match lt_dec attempt maxRetries with
    | left _ =>
        match tryBlock attempt with
        | Ret v => (Ret v, [Request attempt])
        | Throw error =>
            if isRateLimit error && (attempt <? maxRetries - 1)%nat
            then
              let waitTime := backoff attempt in
              let '(r, evs) := retryLoop maxRetries (attempt + 1) error in
              (r, Request attempt :: Delay waitTime :: evs)
            else (Throw error, [Request attempt])
        end
    | right _ => (Throw lastError, [])
    end.
Proof. lia. Qed.

Definition generateWithRetry (maxRetries : nat) : res value * list Event :=
  retryLoop maxRetries 0 undefinedError.

(** [{...res}]: the own enumerable properties of [res]. *)
Fixpoint indexed (i : nat) (items : list value) : list (jstring * value) :=
  match items with
  | [] => []
  | x :: rest => (decimal (Z.of_nat i), x) :: indexed (S i) rest
  end.

Definition spread (v : value) : list (jstring * value) :=
  match v with
  | VObj props => props
  | VArr items => indexed 0 items
  | VStr s => indexed 0 (map (fun c => VStr [c]) s)
  | _ => []
  end.

(** Writing a property in an object literal after a spread: an existing
    key keeps its place, a new one goes last. *)
Fixpoint setProp (name : jstring) (x : value) (props : list (jstring * value))
  : list (jstring * value) :=
  match props with
  | [] => [(name, x)]
  | (k, v) :: rest =>
      if jstring_eqb k name then (k, x) :: rest
      else (k, v) :: setProp name x rest
  end.

(** The callback of [results.map]. *)
Definition reconcile (products : list ProductInput) (entry : value) : res value :=
  original <- findOriginal engineError products entry ;;
  Ret (VObj (setProp (lit "chineseName") (VStr (sourceName original)) (spread entry))).

Definition FAILURE : jstring :=
  lit "API 额度可能不足或连接超时。建议减小单次处理量或稍后再试。".

Definition processProductsBatch (products : list ProductInput)
  : res (list value) * list Event :=
  let '(r, evs) := generateWithRetry 3 in
  match (results <- r ;; callMap engineError results (reconcile products)) with
  | Ret out => (Ret out, evs)
  | Throw _ => (Throw (new_Error FAILURE), evs)
  end.

End Adapter.
End Gemini.

(* ===================================================================== *)
(** * services/deepseekService.ts *)
(* ===================================================================== *)

(** What one [fetch] does: it rejects, or it resolves to a response with a
    [status] and a body that [response.json()] parses or rejects. *)
Inductive FetchOutcome :=
| FetchRejects (e : JsError)
| FetchResponse (http_status : Z) (json : res value).

(** [response.ok] *)
Definition response_ok (http_status : Z) : bool :=
  ((200 <=? http_status) && (http_status <=? 299))%Z.

Module DeepSeek.

(** How the [try] block of [makeRequest] ends.  [return makeRequest(...)]
    hands the promise of the next attempt to the caller without awaiting
    it, so a rejection of that promise does not reach the [catch] of this
    attempt: it is a way out of the block of its own, and it is only taken
    under the guard [attempt < 3]. *)
Inductive TryOutcome (attempt : nat) :=
| Returns (v : value)
| ReturnsNext (guard : (attempt < 3)%nat) (waitTime : N)
| Throws (e : JsError).
Arguments Returns {attempt} v.
Arguments ReturnsNext {attempt} guard waitTime.
Arguments Throws {attempt} e.

Section Adapter.

Variable engineError : value -> jstring -> JsError.
Variable JSON_parse : jstring -> res value.

(** The outcome of the [fetch] issued at a given attempt of one
    [processProductsWithDeepSeek] call; the request carries the key and
    the prompt built from the batch. *)
Variable fetch : nat -> FetchOutcome.

(** [errorData.error?.message || `HTTP error! status: ${response.status}`],
    as [new Error] turns it into a message. *)
Definition errorMessage (errorData : value) (http_status : Z) : res jstring :=
  err <- getProp engineError errorData (lit "error") ;;
  m <- getPropOpt engineError err (lit "message") ;;
  if truthy m then toString engineError m
  else Ret (lit "HTTP error! status: " ++ decimal http_status).

(** [data.choices[0].message.content.trim()] *)
Definition contentOf (data : value) : res jstring :=
  choices <- getProp engineError data (lit "choices") ;;
  first <- getIndex0 engineError choices ;;
  msg <- getProp engineError first (lit "message") ;;
  content <- getProp engineError msg (lit "content") ;;
  match content with
  | VStr s => Ret (trim s)
  | _ => Throw (engineError content (lit "trim"))
  end.

(** The array heuristic: from the first [[] to the last []]. *)
Definition extractArray (content : jstring) : jstring :=
  match indexOf LBRACKET content, lastIndexOf RBRACKET content with
  | Some i, Some j => substring i (j + 1) content
  | _, _ => content
  end.

Definition tryBlock (attempt : nat) : TryOutcome attempt :=
  match fetch attempt with
  | FetchRejects e => Throws e
  | FetchResponse http_status body =>
      if negb (response_ok http_status) then
        match body with
        | Throw e => Throws e
        | Ret errorData =>
            match Z.eq_dec http_status 429, lt_dec attempt 3 with
            | left _, left guard => ReturnsNext guard (backoff attempt)
            | _, _ =>
                match errorMessage errorData http_status with
                | Ret msg => Throws (new_Error msg)
                | Throw e => Throws e
                end
            end
        end
      else
        match body with
        | Throw e => Throws e
        | Ret data =>
            match (content <- contentOf data ;; JSON_parse (extractArray content)) with
            | Ret v => Returns v
            | Throw e => Throws e
            end
        end
  end.

Equations? makeRequest (attempt : nat) : res value * list Event
  by wf (4 - attempt)%nat lt :=
  makeRequest attempt :=
    match tryBlock attempt with
    | Returns v => (Ret v, [Request attempt])
    | ReturnsNext guard waitTime =>
        let '(r, evs) := makeRequest (attempt + 1) in
        (r, Request attempt :: Delay waitTime :: evs)
    | Throws error =>
        match lt_dec attempt 2 with
        | left _ =>
            let '(r, evs) := makeRequest (attempt + 1) in
            (r, Request attempt :: Delay 2000 :: evs)
        | right _ => (Throw error, [Request attempt])
        end
    end.
Proof. all: destruct attempt as [|[|[|[|?]]]]; simpl in *; lia. Qed.

(** The callback of [results.map]. *)
Definition reconcile (products : list ProductInput) (entry : value) : res value :=
  original <- findOriginal engineError products entry ;;
  entrySku <- getProp engineError entry (lit "sku") ;;
  rn <- getProp engineError entry (lit "russianName") ;;
  rd <- getProp engineError entry (lit "russianDescription") ;;
  bt <- getProp engineError entry (lit "backTranslation") ;;
  Ret (VObj [ (lit "sku", entrySku);
              (lit "chineseName", VStr (sourceName original));
              (lit "russianName", rn);
              (lit "russianDescription", rd);
              (lit "backTranslation", bt) ]).

(** [Array.isArray(rawResults) ? rawResults : (rawResults.products || [])] *)
Definition resultList (rawResults : value) : res value :=
  if Array_isArray rawResults then Ret rawResults
  else
    products <- getProp engineError rawResults (lit "products") ;;
    Ret (if truthy products then products else VArr []).

Definition FAILURE_PREFIX : jstring := lit "DeepSeek 处理失败: ".

Definition processProductsWithDeepSeek (products : list ProductInput) (apiKey : jstring)
  : res (list value) * list Event :=
  let '(r, evs) := makeRequest 0 in
  match (rawResults <- r ;;
         results <- resultList rawResults ;;
         callMap engineError results (reconcile products)) with
  | Ret out => (Ret out, evs)
  | Throw error =>
      (Throw (new_Error (FAILURE_PREFIX ++ template_message (err_message error))), evs)
  end.

End Adapter.
End DeepSeek.

(* ===================================================================== *)
(** * App.tsx: the input parser *)
(* ===================================================================== *)

(** [parts[i]?.trim() || ''] *)
Definition fieldAt (parts : list jstring) (i : nat) : jstring :=
  match nth_error parts i with
  | Some s => trim s
  | None => []
  end.

(** The callback of [map] in [parseInput]. *)
Definition parseLine (line : jstring) : ProductInput :=
  let parts := splitFields line in
  {| sku := fieldAt parts 0; chineseName := fieldAt parts 1 |}.

(** [p.sku && p.chineseName] *)
Definition hasBoth (p : ProductInput) : bool :=
  nonEmpty (sku p) && nonEmpty (chineseName p).

(** [parseInput], the same text in both revisions of [App.tsx]. *)
Definition parseInput (text : jstring) : list ProductInput :=
  filter hasBoth (map parseLine (split_nl (trim text))).

(** The parser as the specification words it: split on newlines, split each
    line on a tab or a run of two or more spaces, trim the first two fields,
    drop the line when either is empty, ignore further fields. *)
Definition parseInput_spec (text : jstring) : list ProductInput :=
  filter hasBoth (map parseLine (split_nl text)).

(* ===================================================================== *)
(** * App.tsx: the batch scheduler *)
(* ===================================================================== *)

(** The three pieces of React state a run writes. *)
Record RunState := {
  results : list ProductResult;
  isWaitingForNextBatch : bool;
  status : ProcessingStatus
}.

(** [setResults(f)], [setIsWaitingForNextBatch(b)], [setStatus(f)] *)
Definition setResults (f : list ProductResult -> list ProductResult) (s : RunState) : RunState :=
  {| results := f (results s);
     isWaitingForNextBatch := isWaitingForNextBatch s;
     status := status s |}.

Definition setIsWaitingForNextBatch (b : bool) (s : RunState) : RunState :=
  {| results := results s;
     isWaitingForNextBatch := b;
     status := status s |}.

Definition setStatus (f : ProcessingStatus -> ProcessingStatus) (s : RunState) : RunState :=
  {| results := results s;
     isWaitingForNextBatch := isWaitingForNextBatch s;
     status := f (status s) |}.

(** What [handleProcess] does, in order: an [alert], a write of
    [showSettings], a write of the run state (with the state after it), the
    pacing timeout, the [k]-th adapter call of the run with its batch. *)
Inductive Step :=
| Alert (msg : jstring)
| SetShowSettings (b : bool)
| Update (s : RunState)
| Sleep (ms : N)
| Call (k : nat) (batch : list ProductInput).

(** The successive run states of a trace, and its adapter calls. *)
Definition updates (steps : list Step) : list RunState :=
  flat_map (fun st => match st with Update s => [s] | _ => [] end) steps.

Definition calls (steps : list Step) : list (list ProductInput) :=
  flat_map (fun st => match st with Call _ b => [b] | _ => [] end) steps.

(** [xs.slice(a, b)] for [0 <= a <= b]. *)
Definition slice {A : Type} (a b : nat) (xs : list A) : list A :=
  firstn (b - a) (skipn a xs).

(** [{...prev, completed: Math.min(prev.completed + n, prev.total)}] *)
Definition advance (n : nat) (prev : ProcessingStatus) : ProcessingStatus :=
  {| total := total prev;
     completed := Nat.min (completed prev + n) (total prev);
     isProcessing := isProcessing prev;
     error := error prev |}.

(** [{...prev, error: msg}] *)
Definition withError (msg : jstring) (prev : ProcessingStatus) : ProcessingStatus :=
  {| total := total prev;
     completed := completed prev;
     isProcessing := isProcessing prev;
     error := Some msg |}.

(** [{...prev, isProcessing: false}] *)
Definition stopped (prev : ProcessingStatus) : ProcessingStatus :=
  {| total := total prev;
     completed := completed prev;
     isProcessing := false;
     error := error prev |}.

(** An adapter as the scheduler sees it: the outcome of the [k]-th call of
    the run on a batch. *)
Definition Adapter := nat -> list ProductInput -> res (list ProductResult).

Section Scheduler.

Variable inputs : list ProductInput.
Variable batchSize : nat.
Hypothesis batchSize_pos : (0 < batchSize)%nat.
Variable adapter : Adapter.

(** The pacing before every batch but the first. *)
Definition pace (i : nat) (st : RunState) : RunState * list Step :=
  if (0 <? i)%nat then
    let waiting := setIsWaitingForNextBatch true st in
    let resumed := setIsWaitingForNextBatch false waiting in
    (resumed, [Update waiting; Sleep 1500; Update resumed])
  else (st, []).

(** The [for] loop of [handleProcess], entered with the cursor at [i]
    before the [k]-th adapter call.  It ends normally or with the error
    the adapter threw. *)
Equations? batchLoop (i k : nat) (st : RunState)
  : res unit * RunState * list Step by wf (length inputs - i)%nat lt :=
  batchLoop i k st :=
    match lt_dec i (length inputs) with
    | left _ =>
        let batch := slice i (i + batchSize) inputs in
        let '(st1, paced) := pace i st in
        match adapter k batch with
        | Ret batchResults =>
            let st2 := setResults (fun prev => prev ++ batchResults) st1 in
            let st3 := setStatus (advance (length batch)) st2 in
            let '(r, st', steps) := batchLoop (i + batchSize)%nat (k + 1)%nat st3 in
            (r, st', paced ++ [Call k batch; Update st2; Update st3] ++ steps)
        | Throw err => (Throw err, st1, paced ++ [Call k batch])
        end
    | right _ => (Ret tt, st, [])
    end.
Proof. lia. Qed.

(** Everything [handleProcess] does once the request is accepted: the two
    initial writes, the loop, the [catch] and the [finally]. *)
Definition run (interrupted : jstring -> jstring) (st : RunState)
  : RunState * list Step :=
  let st0 := setStatus (fun _ => {| total := length inputs; completed := 0;
                                    isProcessing := true; error := None |}) st in
  let st1 := setResults (fun _ => []) st0 in
  let '(r, st2, steps) := batchLoop 0 0 st1 in
  let '(st3, caught) :=
    match r with
    | Ret _ => (st2, [])
    | Throw err =>
        let failed := setStatus (withError (interrupted (template_message (err_message err)))) st2 in
        (failed, [Update failed])
    end in
  let st4 := setStatus stopped st3 in
  let st5 := setIsWaitingForNextBatch false st4 in
  (st5, [Update st0; Update st1] ++ steps ++ caught ++ [Update st4; Update st5]).

End Scheduler.

Definition ALERT_NO_DATA : jstring :=
  lit "请提供有效的数据内容（至少包含 SKU 和 产品名称）。".

(** ** The revision with two backends *)

Module App.

(** [ApiProvider] is imported from [types.ts]; [handleProcess] compares it
    with ['gemini'] and ['deepseek'], its two values. *)
Inductive ApiProvider := gemini | deepseek.

Record AppState := {
  rawInput : jstring;
  provider : ApiProvider;
  deepSeekKey : jstring;
  showSettings : bool;
  runState : RunState
}.

Definition setShowSettings (b : bool) (app : AppState) : AppState :=
  {| rawInput := rawInput app; provider := provider app;
     deepSeekKey := deepSeekKey app; showSettings := b;
     runState := runState app |}.

Definition setRunState (s : RunState) (app : AppState) : AppState :=
  {| rawInput := rawInput app; provider := provider app;
     deepSeekKey := deepSeekKey app; showSettings := showSettings app;
     runState := s |}.

Definition ALERT_NO_KEY : jstring := lit "请先在设置中输入 DeepSeek API Key。".

(** [provider === 'gemini' ? 4 : 5] *)
Definition batchSizeOf (p : ApiProvider) : nat :=
  match p with
  | gemini => 4
  | deepseek => 5
  end.

Definition batchSizeOf_pos (p : ApiProvider) : (0 < batchSizeOf p)%nat :=
  match p with
  | gemini => Nat.lt_0_succ 3
  | deepseek => Nat.lt_0_succ 4
  end.

Definition interrupted (msg : jstring) : jstring :=
  lit "处理中断: " ++ msg ++ lit "。建议导出已完成的部分并检查网络/API Key。".

Section HandleProcess.

Variable processWithGemini : Adapter.
Variable processProductsWithDeepSeek : jstring -> Adapter.

(** The adapter call of the loop body. *)
Definition dispatch (app : AppState) : Adapter :=
  match provider app with
  | deepseek => processProductsWithDeepSeek (deepSeekKey app)
  | gemini => processWithGemini
  end.

Definition handleProcess (app : AppState) : AppState * list Step :=
  let inputs := parseInput (rawInput app) in
  if (length inputs =? 0)%nat then (app, [Alert ALERT_NO_DATA])
  else
    match provider app, nonEmpty (trim (deepSeekKey app)) with
    | deepseek, false =>
        (setShowSettings true app, [Alert ALERT_NO_KEY; SetShowSettings true])
    | _, _ =>
        let '(st, steps) :=
          run inputs (batchSizeOf_pos (provider app)) (dispatch app)
              interrupted (runState app) in
        (setRunState st app, steps)
    end.

End HandleProcess.
End App.

(** ** The revision with the DeepSeek backend alone *)

Module AppDeepSeek.

Record AppState := {
  rawInput : jstring;
  apiKey : jstring;
  runState : RunState
}.

Definition setRunState (s : RunState) (app : AppState) : AppState :=
  {| rawInput := rawInput app; apiKey := apiKey app; runState := s |}.

Definition ALERT_NO_KEY : jstring :=
  lit "请先输入 DeepSeek API Key 才能开始使用。".

Definition batchSize : nat := 5.

Definition batchSize_pos : (0 < batchSize)%nat := Nat.lt_0_succ 4.

Definition interrupted (msg : jstring) : jstring :=
  lit "处理中断: " ++ msg ++ lit "。请检查 API Key 余额或网络连接。".

Section HandleProcess.

Variable processProductsWithDeepSeek : jstring -> Adapter.

Definition handleProcess (app : AppState) : AppState * list Step :=
  if negb (nonEmpty (trim (apiKey app))) then (app, [Alert ALERT_NO_KEY])
  else
    let inputs := parseInput (rawInput app) in
    if (length inputs =? 0)%nat then (app, [Alert ALERT_NO_DATA])
    else
      let '(st, steps) :=
        run inputs batchSize_pos (processProductsWithDeepSeek (apiKey app))
            interrupted (runState app) in
      (setRunState st app, steps).

End HandleProcess.
End AppDeepSeek.

(* ===================================================================== *)
(** * App.tsx: the CSV export *)
(* ===================================================================== *)

(** [s.replace] with the global pattern of one double quote and the
    replacement of two. *)
Definition escapeQuotes (s : jstring) : jstring :=
  flat_map (fun c => if c =? DQUOTE then [DQUOTE; DQUOTE] else [c]) s.

(** The template literal that puts [s] between two double quotes. *)
Definition quoted (s : jstring) : jstring := [DQUOTE] ++ s ++ [DQUOTE].

Definition CSV_COLUMNS : list jstring :=
  [lit "SKU"; lit "Original CN"; lit "Russian Name";
   lit "Russian Description"; lit "CN Translation"].

(** The callback of [results.map] in [downloadCSV]: the first two fields
    are quoted as they are, the last three with their quotes doubled. *)
Definition csvRow (r : ProductResult) : jstring :=
  join [COMMA]
    [ quoted (res_sku r);
      quoted (res_chineseName r);
      quoted (escapeQuotes (russianName r));
      quoted (escapeQuotes (russianDescription r));
      quoted (escapeQuotes (backTranslation r)) ].

(** The text handed to [Blob]: the byte-order mark, the header, the rows. *)
Definition csvText (rs : list ProductResult) : jstring :=
  [BOM] ++ join [COMMA] CSV_COLUMNS ++ [LF] ++ join [LF] (map csvRow rs).

Record Download := {
  download : jstring;
  blob : jstring
}.

(** [downloadCSV]: nothing is produced for an empty result list.  [stem] is
    [ozon_export_] in one revision and [ozon_export_deepseek_] in the other;
    [now] is [new Date().toISOString()]. *)
Definition downloadCSV (stem now : jstring) (rs : list ProductResult) : option Download :=
  match rs with
  | [] => None
  | _ :: _ =>
      Some {| download := stem ++ firstn 10 now ++ lit ".csv";
              blob := csvText rs |}
  end.

(** ** The reader the export is checked against

    The repository only writes CSV.  Reading back is the RFC 4180 reading:
    a field is either bare (up to the next comma or line feed, with no quote
    in it) or quoted (up to the closing quote, a doubled quote standing for
    one quote, commas and line feeds being text); after a closing quote only
    a comma, a line feed or the end of the text may follow.  A leading
    byte-order mark is skipped. *)
Inductive CsvState :=
| FieldStart
| Bare
| Quoted
| QuoteSeen.

(** [field] and [row] are accumulated in reverse, [rows] as well. *)
Fixpoint csvRead (st : CsvState) (field : jstring) (row : list jstring)
  (rows : list (list jstring)) (s : jstring) : option (list (list jstring)) :=
  match s with
  | [] =>
      match st with
      | Quoted => None
      | _ => Some (rev (rev (rev field :: row) :: rows))
      end
  | c :: r =>
      match st with
      | FieldStart =>
          if c =? DQUOTE then csvRead Quoted [] row rows r
          else if c =? COMMA then csvRead FieldStart [] ([] :: row) rows r
          else if c =? LF then csvRead FieldStart [] [] (rev ([] :: row) :: rows) r
          else csvRead Bare [c] row rows r
      | Bare =>
          if c =? DQUOTE then None
          else if c =? COMMA then csvRead FieldStart [] (rev field :: row) rows r
          else if c =? LF then csvRead FieldStart [] [] (rev (rev field :: row) :: rows) r
          else csvRead Bare (c :: field) row rows r
      | Quoted =>
          if c =? DQUOTE then csvRead QuoteSeen field row rows r
          else csvRead Quoted (c :: field) row rows r
      | QuoteSeen =>
          if c =? DQUOTE then csvRead Quoted (DQUOTE :: field) row rows r
          else if c =? COMMA then csvRead FieldStart [] (rev field :: row) rows r
          else if c =? LF then csvRead FieldStart [] [] (rev (rev field :: row) :: rows) r
          else None
      end
  end.

Definition parseCSV (text : jstring) : option (list (list jstring)) :=
  match text with
  | c :: r => if c =? BOM then csvRead FieldStart [] [] [] r
              else csvRead FieldStart [] [] [] text
  | [] => csvRead FieldStart [] [] [] []
  end.

(** The five values of a record, in column order. *)
Definition fieldsOf (r : ProductResult) : list jstring :=
  [res_sku r; res_chineseName r; russianName r; russianDescription r; backTranslation r].

(* ===================================================================== *)
(** * Notions the properties are stated with *)
(* ===================================================================== *)

(** The slices of a list into consecutive batches of [K] items, the last
    one holding what is left. *)
Fixpoint batchesFuel {A : Type} (fuel K : nat) (xs : list A) : list (list A) :=
  match fuel with
  | O => []
  | S fuel' =>
      match xs with
      | [] => []
      | _ :: _ => firstn K xs :: batchesFuel fuel' K (skipn K xs)
      end
  end.

Definition batches {A : Type} (K : nat) (xs : list A) : list (list A) :=
  batchesFuel (length xs) K xs.

(** [ceil(N / K)] *)
Definition ceilDiv (N K : nat) : nat := ((N + K - 1) / K)%nat.

Section Unrolled.

Variable batchSize : nat.
Variable adapter : Adapter.

(** The loop of [handleProcess] unrolled over a given list of batches:
    what [batchLoop] does when the batches that remain are [bs]. *)
Fixpoint unrolled (bs : list (list ProductInput)) (i k : nat) (st : RunState)
  : res unit * RunState * list Step :=
  match bs with
  | [] => (Ret tt, st, [])
  | batch :: rest =>
      let '(st1, paced) := pace i st in
      match adapter k batch with
      | Ret batchResults =>
          let st2 := setResults (fun prev => prev ++ batchResults) st1 in
          let st3 := setStatus (advance (length batch)) st2 in
          let '(r, st', steps) := unrolled rest (i + batchSize) (k + 1) st3 in
          (r, st', paced ++ [Call k batch; Update st2; Update st3] ++ steps)
      | Throw err => (Throw err, st1, paced ++ [Call k batch])
      end
  end.

End Unrolled.

(** Non-decreasing sequences of numbers. *)
Fixpoint nondecreasing (xs : list nat) : Prop :=
  match xs with
  | [] => True
  | x :: rest =>
      match rest with
      | [] => True
      | y :: _ => (x <= y)%nat /\ nondecreasing rest
      end
  end.

(** A string holds no separator of the line pattern: no tab and no two
    spaces in a row. *)
Fixpoint separatorFree (s : jstring) : bool :=
  match s with
  | [] => true
  | c :: r =>
      negb (c =? TAB) && negb (isSpace c && startsWithSpace r) && separatorFree r
  end.

Fixpoint endsWithSpace (s : jstring) : bool :=
  match s with
  | [] => false
  | c :: r =>
      match r with
      | [] => isSpace c
      | _ :: _ => endsWithSpace r
      end
  end.

(** A string holds no double quote. *)
Definition quoteFree (s : jstring) : Prop := ~ In DQUOTE s.

(** [climbs c xs]: starting from [c], the sequence [xs] never goes down. *)
Fixpoint climbs (c : nat) (xs : list nat) : Prop :=
  match xs with
  | [] => True
  | x :: rest => (c <= x)%nat /\ climbs x rest
  end.

(** The adapter answers the batches [bs], from its [k]-th call on, with
    the result lists [outs]. *)
Fixpoint answered (adapter : Adapter) (k : nat) (bs : list (list ProductInput))
  (outs : list (list ProductResult)) : Prop :=
  match bs, outs with
  | [], [] => True
  | b :: bs', o :: outs' => adapter k b = Ret o /\ answered adapter (k + 1) bs' outs'
  | _, _ => False
  end.

Definition completedOf (s : RunState) : nat := completed (status s).

(* ===================================================================== *)
(** * Sample data for the closed examples *)
(* ===================================================================== *)

(** The sample input of the specification: [A<tab>foo], [B<2 spaces>bar],
    a blank line, [C]. *)
Definition sampleInput : jstring :=
  lit "A" ++ [TAB] ++ lit "foo" ++ [LF] ++ lit "B  bar" ++ [LF; LF] ++ lit "C".

(** An idle run state. *)
Definition idleRun : RunState :=
  {| results := []; isWaitingForNextBatch := false;
     status := {| total := 0; completed := 0; isProcessing := false; error := None |} |}.

(** Concrete surroundings for the closed examples: an engine whose
    [TypeError]s read [TypeError], a [JSON.parse] that knows the texts
    [[]] and [null], servers that always answer 429 or always 500, and an
    SDK that always rejects with a 429 error. *)
Definition sampleEngineError (v : value) (name : jstring) : JsError :=
  new_Error (lit "TypeError").

Definition sampleParse (s : jstring) : res value :=
  if jstring_eqb s (lit "[]") then Ret (VArr [])
  else if jstring_eqb s (lit "null") then Ret VNull
  else Throw (new_Error (lit "SyntaxError")).

Definition always429 (attempt : nat) : FetchOutcome :=
  FetchResponse 429 (Ret (VObj [])).

Definition always500 (attempt : nat) : FetchOutcome :=
  FetchResponse 500 (Ret (VObj [])).

Definition sdk429 (attempt : nat) : GenOutcome :=
  GenRejects {| err_message := Some (lit "429 Too Many Requests"); err_status := Some 429%Z |}.

(** An SDK that always rejects with a 500 error, one that is rate limited
    twice and then answers [[]], and a server that answers 429 three times
    and then completes with [[]]. *)
Definition sdk500 (attempt : nat) : GenOutcome :=
  GenRejects {| err_message := Some (lit "Internal error"); err_status := Some 500%Z |}.

Definition sdkThird (attempt : nat) : GenOutcome :=
  if (attempt <? 2)%nat then sdk429 attempt else GenResponse (Some (lit "[]")).

Definition fetchFourth (attempt : nat) : FetchOutcome :=
  if (attempt <? 3)%nat then always429 attempt
  else FetchResponse 200
         (Ret (VObj [(lit "choices",
                      VArr [VObj [(lit "message",
                                   VObj [(lit "content", VStr (lit "[]"))])]])])).

(** A server whose completion is the text [null]. *)
Definition answersNull (attempt : nat) : FetchOutcome :=
  FetchResponse 200
    (Ret (VObj [(lit "choices",
                 VArr [VObj [(lit "message",
                              VObj [(lit "content", VStr (lit "null"))])]])])).

(** A server whose completion is the text [7], and a [JSON.parse] that
    knows it. *)
Definition answersSeven (attempt : nat) : FetchOutcome :=
  FetchResponse 200
    (Ret (VObj [(lit "choices",
                 VArr [VObj [(lit "message",
                              VObj [(lit "content", VStr (lit "7"))])]])])).

Definition parseSeven (s : jstring) : res value :=
  if jstring_eqb s (lit "7") then Ret (VNum 7) else sampleParse s.

(** Twelve input lines [a<tab>x] ... [l<tab>x], an idle application on
    them, an adapter that echoes the keys, and one that fails on its second
    call. *)
Definition twelveLines : jstring :=
  flat_map (fun c => [c; TAB; 120; LF])
           [97; 98; 99; 100; 101; 102; 103; 104; 105; 106; 107; 108].

Definition echo (p : ProductInput) : ProductResult :=
  {| res_sku := sku p; res_chineseName := chineseName p;
     russianName := sku p; russianDescription := sku p; backTranslation := sku p |}.

Definition echoes : Adapter := fun _ batch => Ret (map echo batch).

Definition failsSecond : Adapter :=
  fun k batch => if (k =? 1)%nat then Throw (new_Error (lit "boom")) else Ret (map echo batch).

Definition sampleApp : App.AppState :=
  {| App.rawInput := twelveLines; App.provider := App.gemini;
     App.deepSeekKey := []; App.showSettings := false; App.runState := idleRun |}.

Definition sampleAppDeepSeek : AppDeepSeek.AppState :=
  {| AppDeepSeek.rawInput := twelveLines; AppDeepSeek.apiKey := lit "sk-1";
     AppDeepSeek.runState := idleRun |}.

(** Requests to be rejected: DeepSeek selected with a blank key, and a text
    without a single complete line. *)
Definition blankKeyApp : App.AppState :=
  {| App.rawInput := lit "A" ++ [TAB] ++ lit "foo"; App.provider := App.deepseek;
     App.deepSeekKey := lit "  "; App.showSettings := false;
     App.runState := idleRun |}.

Definition noInputApp : AppDeepSeek.AppState :=
  {| AppDeepSeek.rawInput := lit "only-a-key"; AppDeepSeek.apiKey := lit "sk-1";
     AppDeepSeek.runState := idleRun |}.

(** A record whose source name holds a double quote (a 19-inch monitor),
    and one whose three translated fields hold quotes, commas and a line
    feed. *)
Definition inchRecord : ProductResult :=
  {| res_sku := lit "A1";
     res_chineseName := lit "19" ++ [DQUOTE] ++ lit " 显示器";
     russianName := lit "Монитор";
     russianDescription := lit "d";
     backTranslation := lit "显示器" |}.

(** A record whose source name holds the three characters quote, comma,
    quote between [a] and [b]. *)
Definition splitRecord : ProductResult :=
  {| res_sku := lit "A3";
     res_chineseName := lit "a" ++ [DQUOTE; COMMA; DQUOTE] ++ lit "b";
     russianName := lit "x";
     russianDescription := lit "d";
     backTranslation := lit "t" |}.

Definition trickyRecord : ProductResult :=
  {| res_sku := lit "A2";
     res_chineseName := lit "杯子, 蓝色";
     russianName := lit "x" ++ [DQUOTE] ++ lit ",y" ++ [DQUOTE];
     russianDescription := lit "d" ++ [LF] ++ lit "e";
     backTranslation := [DQUOTE; DQUOTE] |}.

(* ===================================================================== *)
(** * App.tsx: the clipboard export, the reset and the start button *)
(* ===================================================================== *)

Definition COPY_COLUMNS : list jstring :=
  [lit "SKU"; lit "原版中文名"; lit "俄语名称"; lit "俄语简介"; lit "俄语名称翻译"].

(** The callback of [results.map] in [copyToExcel]: the five values joined
    with tabs, as they are. *)
Definition copyRow (r : ProductResult) : jstring :=
  join [TAB]
    [res_sku r; res_chineseName r; russianName r; russianDescription r; backTranslation r].

(** [fullText]: the header line, a line feed, the rows joined with line
    feeds. *)
Definition copyText (rs : list ProductResult) : jstring :=
  join [TAB] COPY_COLUMNS ++ [LF] ++ join [LF] (map copyRow rs).

Definition COPIED : jstring := lit "已成功复制到剪贴板，可直接粘贴至 Excel。".

(** What a handler outside a run does to the outside world. *)
Inductive UiEffect :=
| WriteClipboard (text : jstring)
| ShowAlert (msg : jstring).

(** [copyToExcel], the same text in both revisions: nothing for an empty
    result list; otherwise the text goes to the clipboard and, when that
    write resolves ([written]), the alert follows. *)
Definition copyToExcel (written : bool) (rs : list ProductResult) : list UiEffect :=
  match rs with
  | [] => []
  | _ :: _ =>
      WriteClipboard (copyText rs) :: (if written then [ShowAlert COPIED] else [])
  end.

(** [{ total: 0, completed: 0, isProcessing: false }] *)
Definition clearedStatus : ProcessingStatus :=
  {| total := 0; completed := 0; isProcessing := false; error := None |}.

(** The three writes of [clearAll] that concern the run state:
    [setResults([])] and [setStatus(...)]; the waiting flag is not written. *)
Definition clearRun (s : RunState) : RunState :=
  setStatus (fun _ => clearedStatus) (setResults (fun _ => []) s).

Module AppUI.

(** [clearAll]: [confirmed] is the answer of [window.confirm]. *)
Definition clearAll (confirmed : bool) (app : App.AppState) : App.AppState :=
  if confirmed then
    {| App.rawInput := [];
       App.provider := App.provider app;
       App.deepSeekKey := App.deepSeekKey app;
       App.showSettings := App.showSettings app;
       App.runState := clearRun (App.runState app) |}
  else app.

(** [disabled={status.isProcessing || !rawInput.trim()}] of the start button. *)
Definition startDisabled (app : App.AppState) : bool :=
  isProcessing (status (App.runState app)) || negb (nonEmpty (trim (App.rawInput app))).

(** [results.length > 0]: the condition under which the table and the two
    export buttons are rendered. *)
Definition exportShown (app : App.AppState) : bool :=
  (0 <? length (results (App.runState app)))%nat.

(** [(results.length > 0 || rawInput.length > 0)]: the reset button. *)
Definition resetShown (app : App.AppState) : bool :=
  (0 <? length (results (App.runState app)))%nat || (0 <? length (App.rawInput app))%nat.

End AppUI.

Module AppDeepSeekUI.

Definition clearAll (confirmed : bool) (app : AppDeepSeek.AppState) : AppDeepSeek.AppState :=
  if confirmed then
    {| AppDeepSeek.rawInput := [];
       AppDeepSeek.apiKey := AppDeepSeek.apiKey app;
       AppDeepSeek.runState := clearRun (AppDeepSeek.runState app) |}
  else app.

(** [disabled={status.isProcessing || !rawInput.trim() || !apiKey.trim()}] *)
Definition startDisabled (app : AppDeepSeek.AppState) : bool :=
  isProcessing (status (AppDeepSeek.runState app))
  || negb (nonEmpty (trim (AppDeepSeek.rawInput app)))
  || negb (nonEmpty (trim (AppDeepSeek.apiKey app))).

Definition exportShown (app : AppDeepSeek.AppState) : bool :=
  (0 <? length (results (AppDeepSeek.runState app)))%nat.

Definition resetShown (app : AppDeepSeek.AppState) : bool :=
  (0 <? length (results (AppDeepSeek.runState app)))%nat
  || (0 <? length (AppDeepSeek.rawInput app))%nat.

End AppDeepSeekUI.

(* ===================================================================== *)
(** * The data block of the prompt *)
(* ===================================================================== *)

(** The template of the callback of [products.map] in both services. *)
Definition productLine (p : ProductInput) : jstring :=
  lit "SKU: " ++ sku p ++ lit ", 中文名: " ++ chineseName p.

(** The interpolated expression at the end of the prompt of both services:
    one line per product, joined with line feeds. *)
Definition productLines (products : list ProductInput) : jstring :=
  join [LF] (map productLine products).

(* ===================================================================== *)
(** * Further notions *)
(* ===================================================================== *)

(** Splitting on one code unit, as a spreadsheet does with the tabs and
    line feeds of pasted text; [split_nl] is the case of the line feed. *)
Fixpoint splitOn (sep : N) (s : jstring) : list jstring :=
  match s with
  | [] => [[]]
  | c :: r => if c =? sep then [] :: splitOn sep r else consHead c (splitOn sep r)
  end.

(** The number of occurrences of a code unit. *)
Definition countOf (c : N) (s : jstring) : nat :=
  length (filter (N.eqb c) s).

Fixpoint sumN (xs : list N) : N :=
  match xs with
  | [] => 0
  | x :: rest => x + sumN rest
  end.



(** The alerts of a trace. *)
Definition alerts (steps : list Step) : list jstring :=
  flat_map (fun st => match st with Alert msg => [msg] | _ => [] end) steps.

(** [growing a xs]: starting from [a], every list of [xs] is the one before
    it with something appended. *)
Fixpoint growing {A : Type} (a : list A) (xs : list (list A)) : Prop :=
  match xs with
  | [] => True
  | b :: rest => (exists added, b = a ++ added) /\ growing b rest
  end.

(** One input line for a record, as a spreadsheet copies it: the two values
    with a tab between them. *)
Definition tabLine (p : ProductInput) : jstring := sku p ++ TAB :: chineseName p.

(** An application in the middle of nothing, with results on screen. *)
Definition usedApp : App.AppState :=
  {| App.rawInput := twelveLines; App.provider := App.deepseek;
     App.deepSeekKey := lit "sk-1"; App.showSettings := true;
     App.runState :=
       {| results := [trickyRecord]; isWaitingForNextBatch := false;
          status := {| total := 12; completed := 4; isProcessing := false;
                       error := Some (lit "x") |} |} |}.

(** An adapter that fails on its first call. *)
Definition failsFirst : Adapter := fun _ _ => Throw (new_Error (lit "boom")).

(** A server that wraps the array in an object, and a [JSON.parse] that
    knows the bare array. *)
Definition wrappedContent : jstring :=
  lit "Here you go: {" ++ [DQUOTE] ++ lit "products" ++ [DQUOTE]
  ++ lit ": [1]} done".

(** A one-entry completion with a property the prompt does not ask for, a
    [JSON.parse] that knows its text, and a server and an SDK that answer
    with it. *)
Definition quotedLit (s : string) : jstring := [DQUOTE] ++ lit s ++ [DQUOTE].

Definition entryText : jstring :=
  lit "[{" ++ quotedLit "sku" ++ lit ":" ++ quotedLit "a"
  ++ lit "," ++ quotedLit "note" ++ lit ":" ++ quotedLit "n" ++ lit "}]".

Definition sampleEntry : value :=
  VObj [(lit "sku", VStr (lit "a")); (lit "note", VStr (lit "n"))].

Definition parseEntry (s : jstring) : res value :=
  if jstring_eqb s entryText then Ret (VArr [sampleEntry]) else sampleParse s.

Definition answersEntry (attempt : nat) : FetchOutcome :=
  FetchResponse 200
    (Ret (VObj [(lit "choices",
                 VArr [VObj [(lit "message",
                              VObj [(lit "content", VStr entryText)])]])])).

Definition sdkEntry (attempt : nat) : GenOutcome := GenResponse (Some entryText).

Definition sampleBatch : list ProductInput :=
  [{| sku := lit "a"; chineseName := lit "杯子" |};
   {| sku := lit "b"; chineseName := lit "盘子" |}].

(** A [JSON.parse] that knows the bare array [[1]], a server that answers
    with [wrappedContent], and a completion whose only brackets come in the
    wrong order. *)
Definition parseBare (s : jstring) : res value :=
  if jstring_eqb s (lit "[1]") then Ret (VArr [VNum 1]) else sampleParse s.

Definition answersWrapped (attempt : nat) : FetchOutcome :=
  FetchResponse 200
    (Ret (VObj [(lit "choices",
                 VArr [VObj [(lit "message",
                              VObj [(lit "content", VStr wrappedContent)])]])])).

Definition reversedContent : jstring := lit "a] null [b".

(** A completion that is an object whose [products] is an object, a
    [JSON.parse] that knows it, and a server that answers with it. *)
Definition nestedText : jstring :=
  lit "{" ++ quotedLit "products" ++ lit ":{" ++ quotedLit "a" ++ lit ":1}}".

Definition parseNested (s : jstring) : res value :=
  if jstring_eqb s nestedText
  then Ret (VObj [(lit "products", VObj [(lit "a", VNum 1)])])
  else sampleParse s.

Definition answersNested (attempt : nat) : FetchOutcome :=
  FetchResponse 200
    (Ret (VObj [(lit "choices",
                 VArr [VObj [(lit "message",
                              VObj [(lit "content", VStr nestedText)])]])])).






(** What every [JSON.parse] guarantees about brackets: a text that runs from
    an opening bracket to a closing bracket parses to an array or not at
    all, and an object with an array under [products] only comes out of a
    text that holds both brackets. *)
Definition bracketFaithful (JSON_parse : jstring -> res value) : Prop :=
  (forall mid v,
      JSON_parse (LBRACKET :: mid ++ [RBRACKET]) = Ret v -> Array_isArray v = true)
  /\ (forall s props items,
         JSON_parse s = Ret (VObj props) ->
         lookup (lit "products") props = Some (VArr items) ->
         In LBRACKET s /\ In RBRACKET s).

(* ===================================================================== *)
(** * App.tsx: the CSV export on results as the adapters return them *)
(* ===================================================================== *)

(** [ProductResult] is a compile-time type: at run time a result is the
    object the adapter built, and a property the completion left out is
    [undefined] in it. *)
Module Untyped.
Section CsvExport.

Variable engineError : value -> jstring -> JsError.

(** [v.replace] with the global pattern of one double quote and the
    replacement of two: only a string has [replace]. *)
Definition callReplace (v : value) : res jstring :=
  match v with
  | VStr s => Ret (escapeQuotes s)
  | _ => Throw (engineError v (lit "replace"))
  end.

(** The callback of [results.map] in [downloadCSV]: the five array elements
    are evaluated from left to right, the first two by a template literal
    alone, the last three through [replace]. *)
Definition csvRow (r : value) : res jstring :=
  skuValue <- getProp engineError r (lit "sku") ;;
  skuText <- toString engineError skuValue ;;
  nameValue <- getProp engineError r (lit "chineseName") ;;
  nameText <- toString engineError nameValue ;;
  rn <- getProp engineError r (lit "russianName") ;;
  rnText <- callReplace rn ;;
  rd <- getProp engineError r (lit "russianDescription") ;;
  rdText <- callReplace rd ;;
  bt <- getProp engineError r (lit "backTranslation") ;;
  btText <- callReplace bt ;;
  Ret (join [COMMA]
         [quoted skuText; quoted nameText; quoted rnText; quoted rdText; quoted btText]).

Fixpoint csvRows (rs : list value) : res (list jstring) :=
  match rs with
  | [] => Ret []
  | r :: rest => row <- csvRow r ;; rows <- csvRows rest ;; Ret (row :: rows)
  end.

(** [downloadCSV]: nothing for an empty list; a throw of the callback leaves
    the handler before the [Blob] is built. *)
Definition downloadCSV (stem now : jstring) (rs : list value) : res (option Download) :=
  match rs with
  | [] => Ret None
  | _ :: _ =>
      rows <- csvRows rs ;;
      Ret (Some {| download := stem ++ firstn 10 now ++ lit ".csv";
                   blob := [BOM] ++ join [COMMA] CSV_COLUMNS ++ [LF] ++ join [LF] rows |})
  end.

End CsvExport.
End Untyped.

(** The object whose five properties are the strings of a record. *)
Definition resultObject (r : ProductResult) : value :=
  VObj [ (lit "sku", VStr (res_sku r));
         (lit "chineseName", VStr (res_chineseName r));
         (lit "russianName", VStr (russianName r));
         (lit "russianDescription", VStr (russianDescription r));
         (lit "backTranslation", VStr (backTranslation r)) ].

(** What the DeepSeek adapter returns for an entry that holds a [sku] and
    nothing else. *)
Definition omittedResult : value :=
  VObj [ (lit "sku", VStr (lit "a"));
         (lit "chineseName", VStr (lit "杯子"));
         (lit "russianName", VUndefined);
         (lit "russianDescription", VUndefined);
         (lit "backTranslation", VUndefined) ].

(** What [makeRequest] does from attempt [a] on, for [a <= 3]: it stops at
    some attempt [n]. *)
Definition shapeFrom (engineError : value -> jstring -> JsError)
    (JSON_parse : jstring -> res value)
    (fetch : nat -> FetchOutcome) (a : nat) : Prop :=
  exists n,
    (a <= n <= 3)%nat
    /\ requests (snd (DeepSeek.makeRequest engineError JSON_parse fetch a))
       = seq a (S n - a)
    /\ length (delays (snd (DeepSeek.makeRequest engineError JSON_parse fetch a)))
       = (n - a)%nat
    /\ sumN (delays (snd (DeepSeek.makeRequest engineError JSON_parse fetch a)))
       + backoff a <= 16000
    /\ (forall v, fst (DeepSeek.makeRequest engineError JSON_parse fetch a) = Ret v
                  <-> DeepSeek.tryBlock engineError JSON_parse fetch n
                      = DeepSeek.Returns v)
    /\ (forall e, fst (DeepSeek.makeRequest engineError JSON_parse fetch a) = Throw e ->
                  DeepSeek.tryBlock engineError JSON_parse fetch n = DeepSeek.Throws e
                  /\ (2 <= n)%nat)
    /\ (forall j, (a <= j < n)%nat ->
                  forall v, DeepSeek.tryBlock engineError JSON_parse fetch j
                            <> DeepSeek.Returns v).

Unset Implicit Arguments.

(* ===================================================================== *)
(** * Properties of the input parser *)
(* ===================================================================== *)

Lemma filter_hasBoth_nonEmpty (ps : list ProductInput) (p : ProductInput) :
  In p (filter hasBoth ps) -> sku p <> [] /\ chineseName p <> [].
Proof.
  intros H. apply filter_In in H. destruct H as [_ H].
  unfold hasBoth in H. apply andb_true_iff in H. destruct H as [H1 H2].
  split; intros E; rewrite E in *; discriminate.
Qed.

Lemma parseInput_nonEmpty (text : jstring) (p : ProductInput) :
  In p (parseInput text) -> nonEmpty (chineseName p) = true.
Proof.
  unfold parseInput. intros H. apply filter_In in H. destruct H as [_ H].
  unfold hasBoth in H. apply andb_true_iff in H. tauto.
Qed.

Lemma parseInput_lines (text : jstring) (p : ProductInput) :
  In p (parseInput text) ->
  exists line, In line (split_nl (trim text)) /\ p = parseLine line.
Proof.
  unfold parseInput. intros H. apply filter_In in H. destruct H as [H _].
  apply in_map_iff in H. destruct H as [line [E Hin]].
  exists line. split; [exact Hin | symmetry; exact E].
Qed.

(** [trim] leaves no white space at either end, so trimming twice changes
    nothing. *)
Lemma dropWhile_head (p : N -> bool) (s : jstring) (c : N) (r : jstring) :
  dropWhile p s = c :: r -> p c = false.
Proof.
  induction s as [|x s IH]; simpl; [discriminate|].
  destruct (p x) eqn:E; [exact IH|].
  intros H. injection H as Hx _. subst x. exact E.
Qed.

Lemma dropWhile_fixed (p : N -> bool) (s : jstring) :
  (forall c r, s = c :: r -> p c = false) -> dropWhile p s = s.
Proof.
  destruct s as [|x s]; intros H; [reflexivity|].
  simpl. rewrite (H x s eq_refl). reflexivity.
Qed.

Lemma dropWhile_split (p : N -> bool) (s : jstring) :
  exists dropped, s = dropped ++ dropWhile p s.
Proof.
  induction s as [|x s [dropped IH]]; [exists []; reflexivity|].
  simpl. destruct (p x).
  - exists (x :: dropped). simpl. f_equal. exact IH.
  - exists []. reflexivity.
Qed.

Lemma trim_head (s : jstring) (c : N) (r : jstring) :
  trim s = c :: r -> isWhiteSpace c = false.
Proof.
  unfold trim, trimEnd. intros H.
  destruct (dropWhile_split isWhiteSpace (rev (trimStart s))) as [dropped E].
  apply (f_equal (@rev N)) in E.
  rewrite rev_involutive, rev_app_distr, H in E.
  apply (dropWhile_head isWhiteSpace s c (r ++ rev dropped)). exact E.
Qed.

Lemma trim_last (s : jstring) (c : N) (r : jstring) :
  rev (trim s) = c :: r -> isWhiteSpace c = false.
Proof.
  unfold trim, trimEnd. rewrite rev_involutive. apply dropWhile_head.
Qed.

Lemma trim_idempotent (s : jstring) : trim (trim s) = trim s.
Proof.
  unfold trim at 1. unfold trimStart, trimEnd.
  rewrite (dropWhile_fixed isWhiteSpace (trim s) (trim_head s)).
  rewrite (dropWhile_fixed isWhiteSpace (rev (trim s)) (trim_last s)).
  apply rev_involutive.
Qed.

Lemma fieldAt_trimmed (parts : list jstring) (i : nat) :
  trim (fieldAt parts i) = fieldAt parts i.
Proof.
  unfold fieldAt. destruct (nth_error parts i); [apply trim_idempotent | reflexivity].
Qed.

(** The line pattern at work: text without a separator is one field, a tab
    ends a field, and so does a run of two or more spaces, which is
    swallowed whole. *)
Lemma splitFields_single (a : jstring) :
  separatorFree a = true -> splitFields a = [a].
Proof.
  induction a as [|c a IH]; intros H; [reflexivity|].
  rewrite splitFields_equation_2. cbn [separatorFree] in H.
  apply andb_true_iff in H. destruct H as [H Ha].
  apply andb_true_iff in H. destruct H as [Ht Hs].
  apply negb_true_iff in Ht. apply negb_true_iff in Hs.
  rewrite Ht, Hs, (IH Ha). reflexivity.
Qed.

Lemma splitFields_tab (a rest : jstring) :
  separatorFree a = true ->
  splitFields (a ++ TAB :: rest) = a :: splitFields rest.
Proof.
  induction a as [|c a IH]; intros H.
  - cbn [app]. rewrite splitFields_equation_2. rewrite N.eqb_refl. reflexivity.
  - cbn [app]. rewrite splitFields_equation_2. cbn [separatorFree] in H.
    apply andb_true_iff in H. destruct H as [H Ha].
    apply andb_true_iff in H. destruct H as [Ht Hs].
    apply negb_true_iff in Ht. apply negb_true_iff in Hs.
    rewrite Ht, (IH Ha).
    assert (E : isSpace c && startsWithSpace (a ++ TAB :: rest) = false).
    { destruct a as [|d a]; [|exact Hs]. cbn. apply andb_false_r. }
    rewrite E. reflexivity.
Qed.

Lemma splitFields_spaces (a rest : jstring) :
  separatorFree a = true -> endsWithSpace a = false ->
  splitFields (a ++ SPACE :: SPACE :: rest) = a :: splitFields (dropWhile isSpace rest).
Proof.
  induction a as [|c a IH]; intros H He.
  - cbn [app]. rewrite splitFields_equation_2. reflexivity.
  - cbn [app]. rewrite splitFields_equation_2. cbn [separatorFree] in H.
    apply andb_true_iff in H. destruct H as [H Ha].
    apply andb_true_iff in H. destruct H as [Ht Hs].
    apply negb_true_iff in Ht. apply negb_true_iff in Hs.
    rewrite Ht.
    assert (E : isSpace c && startsWithSpace (a ++ SPACE :: SPACE :: rest) = false).
    { destruct a as [|d a]; [|exact Hs]. cbn [endsWithSpace] in He.
      rewrite He. reflexivity. }
    rewrite E, IH; [reflexivity | exact Ha |].
    destruct a as [|d a]; [reflexivity | exact He].
Qed.

(** Fields after the second are ignored. *)
Lemma parseLine_extra_fields (a b extra : jstring) :
  separatorFree a = true -> separatorFree b = true ->
  parseLine (a ++ TAB :: b ++ TAB :: extra) = {| sku := trim a; chineseName := trim b |}.
Proof.
  intros Ha Hb. unfold parseLine.
  rewrite (splitFields_tab a _ Ha), (splitFields_tab b _ Hb). reflexivity.
Qed.


Example parseInput_sample :
  parseInput sampleInput =
  [ {| sku := lit "A"; chineseName := lit "foo" |};
    {| sku := lit "B"; chineseName := lit "bar" |} ].
Proof. vm_compute. reflexivity. Qed.

(** C6, as stated, fails: for a text that starts with a tab the code keeps
    the first line, the parser of the specification's words drops it. *)
Lemma C6_counterexample :
  parseInput ([TAB] ++ lit "A" ++ [TAB] ++ lit "foo")
    = [ {| sku := lit "A"; chineseName := lit "foo" |} ]
  /\ parseInput_spec ([TAB] ++ lit "A" ++ [TAB] ++ lit "foo") = []
  /\ ~ (forall text, parseInput text = parseInput_spec text).
Proof.
  assert (E1 : parseInput ([TAB] ++ lit "A" ++ [TAB] ++ lit "foo")
               = [ {| sku := lit "A"; chineseName := lit "foo" |} ])
    by (vm_compute; reflexivity).
  assert (E2 : parseInput_spec ([TAB] ++ lit "A" ++ [TAB] ++ lit "foo") = [])
    by (vm_compute; reflexivity).
  repeat split; trivial.
  intros H. specialize (H ([TAB] ++ lit "A" ++ [TAB] ++ lit "foo")).
  rewrite E1, E2 in H. discriminate.
Qed.

(** C6 (amended): the parser first trims the whole text and then does what
    the specification says: it splits on newlines, splits each line on a tab
    or a run of two or more spaces, trims the first two fields and drops the
    line when either is empty, further fields being ignored; every record it
    yields comes from a line of the trimmed text and has both fields
    non-empty and free of white space at either end; the sample input yields
    the two records (A, foo), (B, bar). *)
Theorem C6_parseInput_trims_then_splits :
  (forall text, parseInput text = parseInput_spec (trim text))
  /\ (forall text p, In p (parseInput text) ->
        (exists line, In line (split_nl (trim text))
                      /\ sku p = fieldAt (splitFields line) 0
                      /\ chineseName p = fieldAt (splitFields line) 1)
        /\ sku p <> [] /\ chineseName p <> []
        /\ trim (sku p) = sku p /\ trim (chineseName p) = chineseName p)
  /\ (forall a rest, separatorFree a = true ->
        splitFields (a ++ TAB :: rest) = a :: splitFields rest)
  /\ (forall a rest, separatorFree a = true -> endsWithSpace a = false ->
        splitFields (a ++ SPACE :: SPACE :: rest)
        = a :: splitFields (dropWhile isSpace rest))
  /\ (forall a b extra, separatorFree a = true -> separatorFree b = true ->
        parseLine (a ++ TAB :: b ++ TAB :: extra)
        = {| sku := trim a; chineseName := trim b |})
  /\ parseInput sampleInput =
       [ {| sku := lit "A"; chineseName := lit "foo" |};
         {| sku := lit "B"; chineseName := lit "bar" |} ].
Proof.
  split; [reflexivity|].
  split.
  { intros text p H.
    destruct (parseInput_lines _ _ H) as [line [Hin E]].
    destruct (filter_hasBoth_nonEmpty _ _ H) as [Hs Hn].
    split; [exists line; subst p; simpl; auto|].
    split; [exact Hs|]. split; [exact Hn|].
    subst p. simpl. split; apply fieldAt_trimmed. }
  split; [exact splitFields_tab|].
  split; [exact splitFields_spaces|].
  split; [exact parseLine_extra_fields|].
  exact parseInput_sample.
Qed.

(** The theorem at the second record of the sample, and at a line with a
    third field. *)
Lemma C6_parseInput_trims_then_splits_witness :
  (sku {| sku := lit "B"; chineseName := lit "bar" |} <> []
   /\ chineseName {| sku := lit "B"; chineseName := lit "bar" |} <> [])
  /\ parseLine (lit "A" ++ TAB :: lit "foo" ++ TAB :: lit "extra")
     = {| sku := trim (lit "A"); chineseName := trim (lit "foo") |}.
Proof.
  split.
  - assert (Hin : In {| sku := lit "B"; chineseName := lit "bar" |}
                     (parseInput sampleInput))
      by (vm_compute; right; left; reflexivity).
    destruct (proj1 (proj2 C6_parseInput_trims_then_splits) sampleInput _ Hin)
      as [_ [Hs [Hn _]]].
    split; assumption.
  - apply (proj1 (proj2 (proj2 (proj2 (proj2 C6_parseInput_trims_then_splits))))
             (lit "A") (lit "foo") (lit "extra")); reflexivity.
Defined.

(* ===================================================================== *)
(** * Rejected requests *)
(* ===================================================================== *)

(** C9: a start request whose parsed input is empty, or whose DeepSeek key
    is blank when DeepSeek is the selected or the only backend, is rejected
    before any write of the run state: [status], [results] and
    [isWaitingForNextBatch] keep their values, no state with
    [isProcessing] set is ever written and no adapter is called.  (In the
    revision with two backends the missing key also opens the settings
    panel.) *)
Theorem C9_rejected_request_keeps_run_state :
  (forall gem ds (app : App.AppState),
      parseInput (App.rawInput app) = []
      \/ (App.provider app = App.deepseek /\ trim (App.deepSeekKey app) = []) ->
      App.runState (fst (App.handleProcess gem ds app)) = App.runState app
      /\ updates (snd (App.handleProcess gem ds app)) = []
      /\ calls (snd (App.handleProcess gem ds app)) = [])
  /\ (forall ds (app : AppDeepSeek.AppState),
      parseInput (AppDeepSeek.rawInput app) = []
      \/ trim (AppDeepSeek.apiKey app) = [] ->
      fst (AppDeepSeek.handleProcess ds app) = app
      /\ updates (snd (AppDeepSeek.handleProcess ds app)) = []
      /\ calls (snd (AppDeepSeek.handleProcess ds app)) = []).
Proof.
  split.
  - intros gem ds app H. unfold App.handleProcess.
    destruct (parseInput (App.rawInput app)) as [|p ps] eqn:Ein; simpl.
    + repeat split.
    + destruct H as [H | [Hp Hk]]; [discriminate|].
      rewrite Hp, Hk. simpl. repeat split.
  - intros ds app H. unfold AppDeepSeek.handleProcess.
    destruct (nonEmpty (trim (AppDeepSeek.apiKey app))) eqn:Ek; simpl.
    + destruct H as [H | H]; [| rewrite H in Ek; discriminate].
      rewrite H. simpl. repeat split.
    + repeat split.
Qed.

(** What the missing key does besides: the settings panel is opened. *)
Lemma missing_key_opens_settings gem ds (app : App.AppState) :
  parseInput (App.rawInput app) <> [] ->
  App.provider app = App.deepseek ->
  trim (App.deepSeekKey app) = [] ->
  App.handleProcess gem ds app
  = (App.setShowSettings true app, [Alert App.ALERT_NO_KEY; SetShowSettings true]).
Proof.
  intros Hin Hp Hk. unfold App.handleProcess.
  destruct (parseInput (App.rawInput app)) as [|p ps]; [congruence|].
  simpl. rewrite Hp, Hk. reflexivity.
Qed.


(** The theorem at a blank key with DeepSeek selected, and at an empty
    input in the other revision. *)
Lemma C9_rejected_request_keeps_run_state_witness :
  (App.runState (fst (App.handleProcess echoes (fun _ => echoes) blankKeyApp))
   = App.runState blankKeyApp
   /\ updates (snd (App.handleProcess echoes (fun _ => echoes) blankKeyApp)) = []
   /\ calls (snd (App.handleProcess echoes (fun _ => echoes) blankKeyApp)) = [])
  /\ (fst (AppDeepSeek.handleProcess (fun _ => echoes) noInputApp) = noInputApp
      /\ updates (snd (AppDeepSeek.handleProcess (fun _ => echoes) noInputApp)) = []
      /\ calls (snd (AppDeepSeek.handleProcess (fun _ => echoes) noInputApp)) = []).
Proof.
  split.
  - apply (proj1 C9_rejected_request_keeps_run_state echoes (fun _ => echoes) blankKeyApp).
    right. split; reflexivity.
  - apply (proj2 C9_rejected_request_keeps_run_state (fun _ => echoes) noInputApp).
    left. reflexivity.
Defined.

(* ===================================================================== *)
(** * The retry policy *)
(* ===================================================================== *)


Section RetryFacts.

Variable engineError : value -> jstring -> JsError.
Variable JSON_parse : jstring -> res value.

(** One turn of the Gemini loop on a rate-limit failure that may still be
    retried. *)
Lemma retryLoop_rate_limited gen maxRetries attempt lastError e :
  (attempt < maxRetries - 1)%nat ->
  Gemini.tryBlock engineError JSON_parse gen attempt = Throw e ->
  Gemini.isRateLimit e = true ->
  Gemini.retryLoop engineError JSON_parse gen maxRetries attempt lastError
  = (fst (Gemini.retryLoop engineError JSON_parse gen maxRetries (attempt + 1) e),
     Request attempt :: Delay (backoff attempt)
       :: snd (Gemini.retryLoop engineError JSON_parse gen maxRetries (attempt + 1) e)).
Proof.
  intros Hlt Htry Hrl. rewrite Gemini.retryLoop_equation_1.
  destruct (lt_dec attempt maxRetries) as [_|Hn]; [|lia].
  rewrite Htry, Hrl. simpl.
  destruct (Nat.ltb_spec attempt (maxRetries - 1)) as [_|Hge]; [|lia].
  destruct (Gemini.retryLoop engineError JSON_parse gen maxRetries (attempt + 1) e).
  reflexivity.
Qed.

(** The last allowed turn of the Gemini loop throws whatever failed. *)
Lemma retryLoop_last gen maxRetries attempt lastError e :
  (attempt < maxRetries)%nat -> (maxRetries - 1 <= attempt)%nat ->
  Gemini.tryBlock engineError JSON_parse gen attempt = Throw e ->
  Gemini.retryLoop engineError JSON_parse gen maxRetries attempt lastError
  = (Throw e, [Request attempt]).
Proof.
  intros Hlt Hge Htry. rewrite Gemini.retryLoop_equation_1.
  destruct (lt_dec attempt maxRetries) as [_|Hn]; [|lia].
  rewrite Htry.
  destruct (Nat.ltb_spec attempt (maxRetries - 1)) as [Hlt'|_]; [lia|].
  rewrite andb_false_r. reflexivity.
Qed.

(** A failure that is not a rate limit ends the Gemini loop at once. *)
Lemma retryLoop_other_failure gen maxRetries attempt lastError e :
  (attempt < maxRetries)%nat ->
  Gemini.tryBlock engineError JSON_parse gen attempt = Throw e ->
  Gemini.isRateLimit e = false ->
  Gemini.retryLoop engineError JSON_parse gen maxRetries attempt lastError
  = (Throw e, [Request attempt]).
Proof.
  intros Hlt Htry Hrl. rewrite Gemini.retryLoop_equation_1.
  destruct (lt_dec attempt maxRetries) as [_|Hn]; [|lia].
  rewrite Htry, Hrl. reflexivity.
Qed.

Lemma retryLoop_success gen maxRetries attempt lastError v :
  (attempt < maxRetries)%nat ->
  Gemini.tryBlock engineError JSON_parse gen attempt = Ret v ->
  Gemini.retryLoop engineError JSON_parse gen maxRetries attempt lastError
  = (Ret v, [Request attempt]).
Proof.
  intros Hlt Htry. rewrite Gemini.retryLoop_equation_1.
  destruct (lt_dec attempt maxRetries) as [_|Hn]; [|lia].
  rewrite Htry. reflexivity.
Qed.

(** The Gemini loop under a permanent rate limit, for any ceiling: every
    attempt from [attempt] to [maxRetries - 1] is made, each but the last
    followed by its backoff, and the last error is thrown. *)
Lemma retryLoop_exhausts gen maxRetries :
  (forall k, exists e, Gemini.tryBlock engineError JSON_parse gen k = Throw e
                       /\ Gemini.isRateLimit e = true) ->
  forall left attempt lastError,
    (attempt + S left = maxRetries)%nat ->
    exists e evs,
      Gemini.tryBlock engineError JSON_parse gen (maxRetries - 1) = Throw e
      /\ Gemini.retryLoop engineError JSON_parse gen maxRetries attempt lastError
         = (Throw e, evs)
      /\ requests evs = seq attempt (S left)
      /\ delays evs = map backoff (seq attempt left).
Proof.
  intros Hall left. induction left as [|left IH]; intros attempt lastError Hsum.
  - destruct (Hall attempt) as [e [Htry Hrl]].
    exists e, [Request attempt]. replace (maxRetries - 1)%nat with attempt by lia.
    repeat split; trivial.
    apply retryLoop_last; trivial; lia.
  - destruct (Hall attempt) as [e [Htry Hrl]].
    destruct (IH (attempt + 1)%nat e) as [e' [evs [Hlast [Hloop [Hreq Hdel]]]]]; [lia|].
    exists e', (Request attempt :: Delay (backoff attempt) :: evs).
    split; [exact Hlast|]. split.
    + rewrite retryLoop_rate_limited with (e := e); trivial; [|lia].
      rewrite Hloop. reflexivity.
    + simpl. rewrite Hreq, Hdel. replace (attempt + 1)%nat with (S attempt) by lia.
      split; reflexivity.
Qed.

(** The steps of [makeRequest]. *)
Lemma makeRequest_returns fetch attempt v :
  DeepSeek.tryBlock engineError JSON_parse fetch attempt = DeepSeek.Returns v ->
  DeepSeek.makeRequest engineError JSON_parse fetch attempt = (Ret v, [Request attempt]).
Proof. intros H. rewrite DeepSeek.makeRequest_equation_1, H. reflexivity. Qed.

Lemma makeRequest_backoff fetch attempt guard waitTime :
  DeepSeek.tryBlock engineError JSON_parse fetch attempt
    = DeepSeek.ReturnsNext guard waitTime ->
  DeepSeek.makeRequest engineError JSON_parse fetch attempt
  = (fst (DeepSeek.makeRequest engineError JSON_parse fetch (attempt + 1)),
     Request attempt :: Delay waitTime
       :: snd (DeepSeek.makeRequest engineError JSON_parse fetch (attempt + 1))).
Proof.
  intros H. rewrite DeepSeek.makeRequest_equation_1, H.
  destruct (DeepSeek.makeRequest engineError JSON_parse fetch (attempt + 1)).
  reflexivity.
Qed.

Lemma makeRequest_flat_retry fetch attempt e :
  DeepSeek.tryBlock engineError JSON_parse fetch attempt = DeepSeek.Throws e ->
  (attempt < 2)%nat ->
  DeepSeek.makeRequest engineError JSON_parse fetch attempt
  = (fst (DeepSeek.makeRequest engineError JSON_parse fetch (attempt + 1)),
     Request attempt :: Delay 2000
       :: snd (DeepSeek.makeRequest engineError JSON_parse fetch (attempt + 1))).
Proof.
  intros H Hlt. rewrite DeepSeek.makeRequest_equation_1, H.
  destruct (lt_dec attempt 2) as [_|Hn]; [|lia].
  destruct (DeepSeek.makeRequest engineError JSON_parse fetch (attempt + 1)).
  reflexivity.
Qed.

Lemma makeRequest_gives_up fetch attempt e :
  DeepSeek.tryBlock engineError JSON_parse fetch attempt = DeepSeek.Throws e ->
  (2 <= attempt)%nat ->
  DeepSeek.makeRequest engineError JSON_parse fetch attempt
  = (Throw e, [Request attempt]).
Proof.
  intros H Hge. rewrite DeepSeek.makeRequest_equation_1, H.
  destruct (lt_dec attempt 2) as [Hlt|_]; [lia|]. reflexivity.
Qed.

(** A 429 answer with a readable body: backoff below attempt 3, an error
    for the [catch] from attempt 3 on. *)
Lemma tryBlock_429_early fetch attempt errorData :
  fetch attempt = FetchResponse 429 (Ret errorData) ->
  (attempt < 3)%nat ->
  exists guard,
    DeepSeek.tryBlock engineError JSON_parse fetch attempt
    = DeepSeek.ReturnsNext guard (backoff attempt).
Proof.
  intros H Hlt. unfold DeepSeek.tryBlock. rewrite H. simpl.
  destruct (lt_dec attempt 3) as [g|Hn]; [|lia].
  exists g. reflexivity.
Qed.

Lemma tryBlock_429_late fetch attempt errorData :
  fetch attempt = FetchResponse 429 (Ret errorData) ->
  (3 <= attempt)%nat ->
  DeepSeek.tryBlock engineError JSON_parse fetch attempt
  = DeepSeek.Throws
      match DeepSeek.errorMessage engineError errorData 429 with
      | Ret msg => new_Error msg
      | Throw e => e
      end.
Proof.
  intros H Hge. unfold DeepSeek.tryBlock. rewrite H. simpl.
  destruct (lt_dec attempt 3) as [Hlt|_]; [lia|].
  destruct (DeepSeek.errorMessage engineError errorData 429); reflexivity.
Qed.

(** [makeRequest] under a permanent 429: four requests, three backoffs. *)
Lemma makeRequest_exhausts fetch :
  (forall k, exists d, fetch k = FetchResponse 429 (Ret d)) ->
  exists e,
    DeepSeek.makeRequest engineError JSON_parse fetch 0
    = (Throw e, [Request 0; Delay 2000; Request 1; Delay 4000;
                 Request 2; Delay 8000; Request 3]).
Proof.
  intros Hall.
  destruct (Hall 0%nat) as [d0 H0]. destruct (Hall 1%nat) as [d1 H1].
  destruct (Hall 2%nat) as [d2 H2]. destruct (Hall 3%nat) as [d3 H3].
  destruct (tryBlock_429_early fetch 0%nat d0 H0) as [g0 T0]; [lia|].
  destruct (tryBlock_429_early fetch 1%nat d1 H1) as [g1 T1]; [lia|].
  destruct (tryBlock_429_early fetch 2%nat d2 H2) as [g2 T2]; [lia|].
  pose proof (tryBlock_429_late fetch 3%nat d3 H3 (le_n 3)) as T3.
  eexists.
  rewrite (makeRequest_backoff fetch _ _ _ T0). simpl Nat.add.
  rewrite (makeRequest_backoff fetch _ _ _ T1). simpl Nat.add.
  rewrite (makeRequest_backoff fetch _ _ _ T2). simpl Nat.add.
  rewrite (makeRequest_gives_up fetch _ _ T3); [|lia].
  reflexivity.
Qed.

End RetryFacts.

(** C1, as stated, fails for the DeepSeek adapter: under a permanent 429 it
    makes four requests, not two (and not three). *)
Lemma C1_counterexample :
  requests (snd (DeepSeek.makeRequest sampleEngineError sampleParse always429 0))
    = [0; 1; 2; 3]%nat
  /\ length (requests (snd (DeepSeek.processProductsWithDeepSeek
                              sampleEngineError sampleParse always429 [] (lit "key"))))
     <> 2%nat.
Proof. split; [vm_compute; reflexivity | vm_compute; discriminate]. Qed.

(** C1 (amended): a provider call whose every attempt reports a rate limit
    is attempted exactly up to its ceiling before the error is raised: 3
    attempts in the Gemini adapter (backoffs of 2000 and 4000 between them),
    4 attempts in the DeepSeek adapter (the first and three backoff retries,
    after 2000, 4000 and 8000), where a DeepSeek rate limit is an answer of
    status 429 with a readable JSON body; the adapter then throws its own
    error.  A call that succeeds on the last allowed attempt (the third for
    Gemini, the fourth for DeepSeek) returns the parsed result.  For any
    ceiling [maxRetries] the Gemini loop makes exactly [maxRetries]
    attempts, with a backoff after each but the last. *)
Theorem C1_retry_ceiling :
  (forall engineError JSON_parse gen products,
      (forall k, exists e,
          Gemini.tryBlock engineError JSON_parse gen k = Throw e
          /\ Gemini.isRateLimit e = true) ->
      exists e,
        Gemini.tryBlock engineError JSON_parse gen 2 = Throw e
        /\ Gemini.generateWithRetry engineError JSON_parse gen 3
           = (Throw e, [Request 0; Delay 2000; Request 1; Delay 4000; Request 2])
        /\ Gemini.processProductsBatch engineError JSON_parse gen products
           = (Throw (new_Error Gemini.FAILURE),
              [Request 0; Delay 2000; Request 1; Delay 4000; Request 2]))
  /\ (forall engineError JSON_parse gen v,
      (forall k, (k < 2)%nat -> exists e,
          Gemini.tryBlock engineError JSON_parse gen k = Throw e
          /\ Gemini.isRateLimit e = true) ->
      Gemini.tryBlock engineError JSON_parse gen 2 = Ret v ->
      Gemini.generateWithRetry engineError JSON_parse gen 3
      = (Ret v, [Request 0; Delay 2000; Request 1; Delay 4000; Request 2]))
  /\ (forall engineError JSON_parse fetch products apiKey,
      (forall k, exists errorData, fetch k = FetchResponse 429 (Ret errorData)) ->
      exists e,
        DeepSeek.makeRequest engineError JSON_parse fetch 0
        = (Throw e, [Request 0; Delay 2000; Request 1; Delay 4000;
                     Request 2; Delay 8000; Request 3])
        /\ DeepSeek.processProductsWithDeepSeek engineError JSON_parse fetch products apiKey
           = (Throw (new_Error (DeepSeek.FAILURE_PREFIX
                                  ++ template_message (err_message e))),
              [Request 0; Delay 2000; Request 1; Delay 4000;
               Request 2; Delay 8000; Request 3]))
  /\ (forall engineError JSON_parse fetch v,
      (forall k, (k < 3)%nat ->
         exists errorData, fetch k = FetchResponse 429 (Ret errorData)) ->
      DeepSeek.tryBlock engineError JSON_parse fetch 3 = DeepSeek.Returns v ->
      DeepSeek.makeRequest engineError JSON_parse fetch 0
      = (Ret v, [Request 0; Delay 2000; Request 1; Delay 4000;
                 Request 2; Delay 8000; Request 3]))
  /\ (forall engineError JSON_parse gen maxRetries,
      (0 < maxRetries)%nat ->
      (forall k, exists e,
          Gemini.tryBlock engineError JSON_parse gen k = Throw e
          /\ Gemini.isRateLimit e = true) ->
      exists e evs,
        Gemini.generateWithRetry engineError JSON_parse gen maxRetries = (Throw e, evs)
        /\ requests evs = seq 0 maxRetries
        /\ delays evs = map backoff (seq 0 (maxRetries - 1))).
Proof.
  split; [|split; [|split; [|split]]].
  - intros engineError JSON_parse gen products Hall.
    destruct (Hall 0%nat) as [e0 [T0 R0]]. destruct (Hall 1%nat) as [e1 [T1 R1]].
    destruct (Hall 2%nat) as [e2 [T2 R2]].
    assert (E : Gemini.generateWithRetry engineError JSON_parse gen 3
                = (Throw e2, [Request 0; Delay 2000; Request 1; Delay 4000; Request 2])).
    { unfold Gemini.generateWithRetry.
      rewrite retryLoop_rate_limited with (e := e0); try assumption; [|simpl; lia].
      simpl Nat.add.
      rewrite retryLoop_rate_limited with (e := e1); try assumption; [|simpl; lia].
      simpl Nat.add.
      rewrite retryLoop_last with (e := e2); try assumption; try (simpl; lia).
      reflexivity. }
    exists e2. split; [exact T2|]. split; [exact E|].
    unfold Gemini.processProductsBatch. rewrite E. reflexivity.
  - intros engineError JSON_parse gen v Hbefore Hlast.
    destruct (Hbefore 0%nat) as [e0 [T0 R0]]; [lia|].
    destruct (Hbefore 1%nat) as [e1 [T1 R1]]; [lia|].
    unfold Gemini.generateWithRetry.
    rewrite retryLoop_rate_limited with (e := e0); try assumption; [|simpl; lia].
    simpl Nat.add.
    rewrite retryLoop_rate_limited with (e := e1); try assumption; [|simpl; lia].
    simpl Nat.add.
    rewrite retryLoop_success with (v := v); try assumption; try (simpl; lia).
    reflexivity.
  - intros engineError JSON_parse fetch products apiKey Hall.
    destruct (makeRequest_exhausts engineError JSON_parse fetch Hall) as [e E].
    exists e. split; [exact E|].
    unfold DeepSeek.processProductsWithDeepSeek. rewrite E. reflexivity.
  - intros engineError JSON_parse fetch v Hbefore Hlast.
    destruct (Hbefore 0%nat) as [d0 H0]; [lia|].
    destruct (Hbefore 1%nat) as [d1 H1]; [lia|].
    destruct (Hbefore 2%nat) as [d2 H2]; [lia|].
    destruct (tryBlock_429_early engineError JSON_parse _ _ _ H0) as [g0 T0]; [lia|].
    destruct (tryBlock_429_early engineError JSON_parse _ _ _ H1) as [g1 T1]; [lia|].
    destruct (tryBlock_429_early engineError JSON_parse _ _ _ H2) as [g2 T2]; [lia|].
    rewrite (makeRequest_backoff _ _ _ _ _ _ T0). simpl Nat.add.
    rewrite (makeRequest_backoff _ _ _ _ _ _ T1). simpl Nat.add.
    rewrite (makeRequest_backoff _ _ _ _ _ _ T2). simpl Nat.add.
    rewrite (makeRequest_returns _ _ _ _ _ Hlast).
    reflexivity.
  - intros engineError JSON_parse gen maxRetries Hpos Hall.
    destruct (retryLoop_exhausts engineError JSON_parse gen maxRetries Hall
                (maxRetries - 1)%nat 0%nat Gemini.undefinedError)
      as [e [evs [_ [Hloop [Hreq Hdel]]]]]; [lia|].
    exists e, evs. split; [exact Hloop|].
    replace (S (maxRetries - 1)) with maxRetries in Hreq by lia.
    split; assumption.
Qed.

(** The theorem at an SDK and a server that are always rate limited, and at
    ones that answer on the last allowed attempt. *)
Lemma C1_retry_ceiling_witness :
  (exists e,
      Gemini.tryBlock sampleEngineError sampleParse sdk429 2 = Throw e
      /\ Gemini.generateWithRetry sampleEngineError sampleParse sdk429 3
         = (Throw e, [Request 0; Delay 2000; Request 1; Delay 4000; Request 2])
      /\ Gemini.processProductsBatch sampleEngineError sampleParse sdk429 []
         = (Throw (new_Error Gemini.FAILURE),
            [Request 0; Delay 2000; Request 1; Delay 4000; Request 2]))
  /\ Gemini.generateWithRetry sampleEngineError sampleParse sdkThird 3
     = (Ret (VArr []), [Request 0; Delay 2000; Request 1; Delay 4000; Request 2])
  /\ (exists e,
      DeepSeek.makeRequest sampleEngineError sampleParse always429 0
      = (Throw e, [Request 0; Delay 2000; Request 1; Delay 4000;
                   Request 2; Delay 8000; Request 3])
      /\ DeepSeek.processProductsWithDeepSeek sampleEngineError sampleParse always429
           [] (lit "key")
         = (Throw (new_Error (DeepSeek.FAILURE_PREFIX
                                ++ template_message (err_message e))),
            [Request 0; Delay 2000; Request 1; Delay 4000;
             Request 2; Delay 8000; Request 3]))
  /\ DeepSeek.makeRequest sampleEngineError sampleParse fetchFourth 0
     = (Ret (VArr []), [Request 0; Delay 2000; Request 1; Delay 4000;
                        Request 2; Delay 8000; Request 3]).
Proof.
  split; [|split; [|split]].
  - apply (proj1 C1_retry_ceiling sampleEngineError sampleParse sdk429 []).
    intros k. eexists. split; reflexivity.
  - apply (proj1 (proj2 C1_retry_ceiling) sampleEngineError sampleParse sdkThird (VArr [])).
    + intros k Hk. destruct k as [|[|k]]; [| |lia]; eexists; split; reflexivity.
    + reflexivity.
  - apply (proj1 (proj2 (proj2 C1_retry_ceiling))
                 sampleEngineError sampleParse always429 [] (lit "key")).
    intros k. exists (VObj []). reflexivity.
  - apply (proj1 (proj2 (proj2 (proj2 C1_retry_ceiling)))
                 sampleEngineError sampleParse fetchFourth (VArr [])).
    + intros k Hk. destruct k as [|[|[|k]]]; [| | |lia]; eexists; reflexivity.
    + reflexivity.
Defined.

(** C5, as stated, fails for the DeepSeek adapter: a server that always
    answers 500 is asked three times, so the first failure is followed by
    two retries, not one. *)
Lemma C5_counterexample :
  DeepSeek.makeRequest sampleEngineError sampleParse always500 0
  = (Throw (new_Error (lit "HTTP error! status: 500")),
     [Request 0; Delay 2000; Request 1; Delay 2000; Request 2])
  /\ length (requests (snd (DeepSeek.makeRequest
                              sampleEngineError sampleParse always500 0))) <> 2%nat.
Proof. split; [vm_compute; reflexivity | vm_compute; discriminate]. Qed.

(** C5 (amended): on a failure outside the rate-limit path, the DeepSeek
    adapter retries after a flat delay of 2000 as long as the attempt index
    is below 2, so a call that keeps failing is attempted three times (two
    flat-delay retries) and the third error propagates, while a failure at
    attempt 2 or later propagates at once; the Gemini adapter propagates a
    failure that is not a rate limit at once, unchanged, with no further
    attempt. *)
Theorem C5_other_failures :
  (forall engineError JSON_parse fetch e0 e1 e2,
      DeepSeek.tryBlock engineError JSON_parse fetch 0 = DeepSeek.Throws e0 ->
      DeepSeek.tryBlock engineError JSON_parse fetch 1 = DeepSeek.Throws e1 ->
      DeepSeek.tryBlock engineError JSON_parse fetch 2 = DeepSeek.Throws e2 ->
      DeepSeek.makeRequest engineError JSON_parse fetch 0
      = (Throw e2, [Request 0; Delay 2000; Request 1; Delay 2000; Request 2]))
  /\ (forall engineError JSON_parse fetch attempt e,
      DeepSeek.tryBlock engineError JSON_parse fetch attempt = DeepSeek.Throws e ->
      (2 <= attempt)%nat ->
      DeepSeek.makeRequest engineError JSON_parse fetch attempt
      = (Throw e, [Request attempt]))
  /\ (forall engineError JSON_parse gen maxRetries attempt lastError e,
      (attempt < maxRetries)%nat ->
      Gemini.tryBlock engineError JSON_parse gen attempt = Throw e ->
      Gemini.isRateLimit e = false ->
      Gemini.retryLoop engineError JSON_parse gen maxRetries attempt lastError
      = (Throw e, [Request attempt]))
  /\ (forall engineError JSON_parse gen e,
      Gemini.tryBlock engineError JSON_parse gen 0 = Throw e ->
      Gemini.isRateLimit e = false ->
      Gemini.generateWithRetry engineError JSON_parse gen 3
      = (Throw e, [Request 0])).
Proof.
  repeat split.
  - intros engineError JSON_parse fetch e0 e1 e2 T0 T1 T2.
    rewrite (makeRequest_flat_retry _ _ _ _ _ T0); [|lia]. simpl Nat.add.
    rewrite (makeRequest_flat_retry _ _ _ _ _ T1); [|lia]. simpl Nat.add.
    rewrite (makeRequest_gives_up _ _ _ _ _ T2); [|lia].
    reflexivity.
  - intros. apply makeRequest_gives_up; assumption.
  - intros. apply retryLoop_other_failure; assumption.
  - intros engineError JSON_parse gen e T0 R0.
    unfold Gemini.generateWithRetry.
    apply retryLoop_other_failure; trivial. lia.
Qed.

(** The theorem at a server and an SDK that always answer 500. *)
Lemma C5_other_failures_witness :
  DeepSeek.makeRequest sampleEngineError sampleParse always500 0
  = (Throw (new_Error (lit "HTTP error! status: 500")),
     [Request 0; Delay 2000; Request 1; Delay 2000; Request 2])
  /\ Gemini.generateWithRetry sampleEngineError sampleParse sdk500 3
     = (Throw {| err_message := Some (lit "Internal error"); err_status := Some 500%Z |},
        [Request 0]).
Proof.
  split.
  - apply (proj1 C5_other_failures sampleEngineError sampleParse always500
                 (new_Error (lit "HTTP error! status: 500"))
                 (new_Error (lit "HTTP error! status: 500"))
                 (new_Error (lit "HTTP error! status: 500")));
      vm_compute; reflexivity.
  - apply (proj2 (proj2 (proj2 C5_other_failures)) sampleEngineError sampleParse sdk500);
      reflexivity.
Defined.

(* ===================================================================== *)
(** * Reconciliation *)
(* ===================================================================== *)


Lemma jstring_eqb_eq (a b : jstring) : jstring_eqb a b = true <-> a = b.
Proof.
  revert b. induction a as [|x a IH]; intros [|y b]; simpl; split; intros H;
    try reflexivity; try discriminate.
  - apply andb_true_iff in H. destruct H as [Hx Ha].
    apply N.eqb_eq in Hx. apply IH in Ha. congruence.
  - injection H as Hx Ha. apply andb_true_iff. split.
    + apply N.eqb_eq. exact Hx.
    + apply IH. exact Ha.
Qed.

Lemma jstring_eqb_refl (a : jstring) : jstring_eqb a a = true.
Proof. apply jstring_eqb_eq. reflexivity. Qed.

Example UNKNOWN_code_units : UNKNOWN = [26410; 30693].
Proof. reflexivity. Qed.

Lemma lookup_setProp (name : jstring) (x : value) (props : list (jstring * value)) :
  lookup name (Gemini.setProp name x props) = Some x.
Proof.
  induction props as [|[k v] rest IH]; simpl.
  - rewrite jstring_eqb_refl. reflexivity.
  - destruct (jstring_eqb k name) eqn:E; simpl; rewrite E; [reflexivity | exact IH].
Qed.



Lemma sourceName_named (p : ProductInput) :
  chineseName p <> [] -> sourceName (Some p) = chineseName p.
Proof.
  intros H. unfold sourceName. destruct (chineseName p); [congruence | reflexivity].
Qed.

Lemma findOriginal_found engineError (products : list ProductInput)
  (entry entrySku : value) :
  getProp engineError entry (lit "sku") = Ret entrySku ->
  findOriginal engineError products entry = Ret (findBySku products entrySku).
Proof.
  intros H. unfold findOriginal. destruct products as [|p ps]; [reflexivity|].
  rewrite H. reflexivity.
Qed.

(** Reading a property of anything but [null] and [undefined] succeeds. *)
Lemma getProp_total engineError (v : value) (name : jstring) :
  v <> VNull -> v <> VUndefined ->
  exists x, getProp engineError v name = Ret x.
Proof.
  intros Hn Hu. destruct v; simpl; try congruence; try (eexists; reflexivity).
  destruct (lookup name props); eexists; reflexivity.
Qed.




(** On a response none of whose entries is [null], the whole map succeeds,
    with one result per entry. *)
Lemma reconcile_every_entry engineError (products : list ProductInput) (items : list value) :
  Forall (fun entry => entry <> VNull /\ entry <> VUndefined) items ->
  exists outs,
    callMap engineError (VArr items) (DeepSeek.reconcile engineError products) = Ret outs
    /\ length outs = length items.
Proof.
  intros H. simpl. induction H as [|entry rest [Hn Hu] _ IH]; simpl.
  - exists []. split; reflexivity.
  - destruct IH as [outs [E L]].
    destruct (getProp_total engineError _ (lit "sku") Hn Hu) as [a Ha].
    destruct (getProp_total engineError _ (lit "russianName") Hn Hu) as [b Hb].
    destruct (getProp_total engineError _ (lit "russianDescription") Hn Hu) as [c Hc].
    destruct (getProp_total engineError _ (lit "backTranslation") Hn Hu) as [d Hd].
    unfold DeepSeek.reconcile at 1.
    rewrite (findOriginal_found engineError products entry a Ha), Ha, Hb, Hc, Hd.
    simpl. rewrite E. simpl.
    eexists. split; [reflexivity|]. simpl. rewrite L. reflexivity.
Qed.

(* ===================================================================== *)
(** * A DeepSeek body that is not an array *)
(* ===================================================================== *)


(** C10, as stated, fails: the body [null] is valid JSON and not an array,
    yet the adapter throws instead of returning the empty list. *)
Lemma C10_counterexample :
  DeepSeek.makeRequest sampleEngineError sampleParse answersNull 0
    = (Ret VNull, [Request 0])
  /\ DeepSeek.processProductsWithDeepSeek sampleEngineError sampleParse answersNull
       [] (lit "key")
     = (Throw (new_Error (DeepSeek.FAILURE_PREFIX ++ lit "TypeError")), [Request 0])
  /\ fst (DeepSeek.processProductsWithDeepSeek sampleEngineError sampleParse answersNull
            [] (lit "key")) <> Ret [].
Proof.
  split; [vm_compute; reflexivity|].
  split; [vm_compute; reflexivity|].
  vm_compute. discriminate.
Qed.


(* ===================================================================== *)
(** * Batch slicing *)
(* ===================================================================== *)

Section Slicing.

Context {A : Type}.

Lemma batchesFuel_enough (K : nat) :
  (0 < K)%nat ->
  forall fuel (xs : list A),
    (length xs <= fuel)%nat -> batchesFuel fuel K xs = batches K xs.
Proof.
  intros HK. unfold batches.
  assert (G : forall n fuel1 fuel2 (xs : list A),
             (length xs <= n)%nat -> (length xs <= fuel1)%nat ->
             (length xs <= fuel2)%nat ->
             batchesFuel fuel1 K xs = batchesFuel fuel2 K xs).
  { induction n as [|n IH]; intros fuel1 fuel2 xs Hn H1 H2.
    - destruct xs; [|simpl in Hn; lia]. destruct fuel1, fuel2; reflexivity.
    - destruct xs as [|x xs]; [destruct fuel1, fuel2; reflexivity|].
      destruct fuel1 as [|fuel1]; [simpl in H1; lia|].
      destruct fuel2 as [|fuel2]; [simpl in H2; lia|].
      cbn [batchesFuel]. f_equal.
      pose proof (length_skipn K (x :: xs)) as L. simpl length in *.
      apply IH; lia. }
  intros fuel xs H. apply (G (length xs)); lia.
Qed.

Lemma batches_nil (K : nat) : batches K (@nil A) = [].
Proof. reflexivity. Qed.

(** The defining equation of the slicing. *)
Lemma batches_cons (K : nat) (x : A) (xs : list A) :
  (0 < K)%nat ->
  batches K (x :: xs) = firstn K (x :: xs) :: batches K (skipn K (x :: xs)).
Proof.
  intros HK. unfold batches at 1. cbn [length batchesFuel]. f_equal.
  apply batchesFuel_enough; [exact HK|].
  pose proof (length_skipn K (x :: xs)) as L. simpl length in *. lia.
Qed.

(** Induction along the slicing. *)
Lemma batches_ind (K : nat) (HK : (0 < K)%nat) (P : list A -> Prop) :
  P [] ->
  (forall x xs, P (skipn K (x :: xs)) -> P (x :: xs)) ->
  forall xs, P xs.
Proof.
  intros Hnil Hcons.
  assert (G : forall n xs, (length xs <= n)%nat -> P xs).
  { induction n as [|n IH]; intros xs Hn.
    - destruct xs; [exact Hnil | simpl in Hn; lia].
    - destruct xs as [|x xs]; [exact Hnil|].
      apply Hcons. apply IH.
      pose proof (length_skipn K (x :: xs)) as L. simpl length in *. lia. }
  intros xs. apply (G (length xs)). lia.
Qed.

(** The batches, put end to end, are the input. *)
Lemma batches_concat (K : nat) (xs : list A) :
  (0 < K)%nat -> concat (batches K xs) = xs.
Proof.
  intros HK. induction xs as [|x xs IH] using (batches_ind K HK); [reflexivity|].
  rewrite batches_cons by exact HK. cbn [concat]. rewrite IH.
  apply firstn_skipn.
Qed.

Lemma ceilDiv_small (N K : nat) :
  (0 < N)%nat -> (N <= K)%nat -> ceilDiv N K = 1%nat.
Proof.
  intros HN HK. unfold ceilDiv.
  assert (E : (N + K - 1 = 1 * K + (N - 1))%nat) by lia.
  rewrite E, Nat.div_add_l by lia.
  rewrite Nat.div_small by lia. reflexivity.
Qed.

Lemma ceilDiv_step (N K : nat) :
  (0 < K)%nat -> (K < N)%nat -> ceilDiv N K = S (ceilDiv (N - K) K).
Proof.
  intros HK HN. unfold ceilDiv.
  assert (E : (N + K - 1 = 1 * K + (N - K + K - 1))%nat) by lia.
  rewrite E, Nat.div_add_l by lia. reflexivity.
Qed.

(** There are [ceil(N / K)] batches. *)
Lemma batches_length (K : nat) (xs : list A) :
  (0 < K)%nat -> length (batches K xs) = ceilDiv (length xs) K.
Proof.
  intros HK. induction xs as [|x xs IH] using (batches_ind K HK).
  - unfold ceilDiv. simpl. symmetry. apply Nat.div_small. lia.
  - rewrite batches_cons by exact HK. cbn [length]. rewrite IH.
    rewrite length_skipn. cbn [length].
    destruct (Nat.le_gt_cases (S (length xs)) K) as [Hle|Hgt].
    + rewrite (ceilDiv_small (S (length xs)) K) by lia.
      replace (S (length xs) - K)%nat with 0%nat by lia.
      unfold ceilDiv. simpl. rewrite Nat.div_small by lia. reflexivity.
    + rewrite (ceilDiv_step (S (length xs)) K HK Hgt). reflexivity.
Qed.

(** Every batch but the last has [K] items; the last has between 1 and [K]. *)
Lemma batches_sizes (K : nat) (xs : list A) :
  (0 < K)%nat ->
  forall init final,
    batches K xs = init ++ [final] ->
    Forall (fun b => length b = K) init
    /\ (1 <= length final <= K)%nat.
Proof.
  intros HK. induction xs as [|x xs IH] using (batches_ind K HK); intros init final E.
  - rewrite batches_nil in E. destruct init; discriminate.
  - rewrite batches_cons in E by exact HK.
    destruct init as [|b init].
    + simpl in E. injection E as E1 E2. split; [constructor|].
      subst final. rewrite length_firstn. simpl length. lia.
    + simpl in E. injection E as E1 E2.
      destruct (IH init final E2) as [Hinit Hfinal].
      split; [|exact Hfinal]. constructor; [|exact Hinit].
      subst b. rewrite length_firstn.
      assert (Hne : skipn K (x :: xs) <> []).
      { intros Hnil. rewrite Hnil, batches_nil in E2. destruct init; discriminate. }
      assert (L : (K < length (x :: xs))%nat).
      { destruct (Nat.le_gt_cases (length (x :: xs)) K) as [Hle|Hgt]; [|exact Hgt].
        exfalso. apply Hne. apply skipn_all2. exact Hle. }
      lia.
Qed.

End Slicing.

(* ===================================================================== *)
(** * The loop of the scheduler *)
(* ===================================================================== *)


Lemma climbs_nondecreasing (c : nat) (xs : list nat) :
  climbs c xs -> nondecreasing (c :: xs).
Proof.
  revert c. induction xs as [|x rest IH]; intros c H; simpl; [exact I|].
  destruct H as [H1 H2]. split; [exact H1|]. apply (IH x H2).
Qed.

Lemma last_cons_default {A : Type} (a : A) (xs : list A) (d d' : A) :
  last (a :: xs) d = last (a :: xs) d'.
Proof.
  revert a. induction xs as [|x xs IH]; intros a; [reflexivity|].
  change (last (x :: xs) d = last (x :: xs) d'). apply IH.
Qed.

Lemma climbs_app (c : nat) (xs ys : list nat) :
  climbs c xs -> climbs (last xs c) ys -> climbs c (xs ++ ys).
Proof.
  revert c. induction xs as [|x rest IH]; intros c H1 H2; [exact H2|].
  destruct H1 as [Hx Hrest]. split; [exact Hx|].
  apply IH; [exact Hrest|].
  destruct rest as [|y rest]; [exact H2|].
  rewrite (last_cons_default y rest x c).
  exact H2.
Qed.

Lemma updates_app (xs ys : list Step) : updates (xs ++ ys) = updates xs ++ updates ys.
Proof. apply flat_map_app. Qed.

Lemma calls_app (xs ys : list Step) : calls (xs ++ ys) = calls xs ++ calls ys.
Proof. apply flat_map_app. Qed.

Lemma last_app_cons {A : Type} (xs : list A) (y : A) (ys : list A) (d : A) :
  last (xs ++ y :: ys) d = last ys y.
Proof.
  induction xs as [|x xs IH]; simpl.
  - destruct ys as [|z ys]; [reflexivity|]. apply last_cons_default.
  - destruct (xs ++ y :: ys) eqn:E; [destruct xs; discriminate|]. exact IH.
Qed.

Lemma answered_exists (adapter : Adapter) (bs : list (list ProductInput)) :
  forall k,
    (forall j b, nth_error bs j = Some b ->
                 exists out, adapter (k + j)%nat b = Ret out) ->
    exists outs, answered adapter k bs outs.
Proof.
  induction bs as [|b bs IH]; intros k H.
  - exists []. exact I.
  - destruct (H 0%nat b eq_refl) as [o Ho]. rewrite Nat.add_0_r in Ho.
    destruct (IH (k + 1)%nat) as [outs Houts].
    { intros j b' Hj. replace (k + 1 + j)%nat with (k + S j)%nat by lia.
      apply H. exact Hj. }
    exists (o :: outs). split; assumption.
Qed.

Lemma last_map_default {A B : Type} (f : A -> B) (xs : list A) (d : A) :
  last (map f xs) (f d) = f (last xs d).
Proof.
  induction xs as [|x xs IH]; [reflexivity|].
  simpl. destruct xs; [reflexivity|]. exact IH.
Qed.

Lemma Forall_last {A : Type} (P : A -> Prop) (xs : list A) (d : A) :
  Forall P xs -> P d -> P (last xs d).
Proof.
  intros H Hd. induction H as [|x xs Hx Hxs IH]; [exact Hd|].
  simpl. destruct xs; [exact Hx | exact IH].
Qed.

Section SchedulerFacts.

Variable inputs : list ProductInput.
Variable batchSize : nat.
Hypothesis batchSize_pos : (0 < batchSize)%nat.
Variable adapter : Adapter.

(** The loop does what its unrolling over the remaining slices does. *)
Lemma batchLoop_unrolled :
  forall n i k st,
    (length inputs - i <= n)%nat ->
    @batchLoop inputs batchSize batchSize_pos adapter i k st
    = unrolled batchSize adapter (batches batchSize (skipn i inputs)) i k st.
Proof.
  induction n as [|n IH]; intros i k st Hn; rewrite batchLoop_equation_1;
    destruct (lt_dec i (length inputs)) as [Hlt|Hge]; try lia.
  - rewrite skipn_all2 by lia. reflexivity.
  - destruct (skipn i inputs) as [|x xs] eqn:E.
    { apply (f_equal (@length _)) in E. rewrite length_skipn in E. simpl in E. lia. }
    rewrite (batches_cons batchSize x xs batchSize_pos). cbn [unrolled].
    unfold slice. replace (i + batchSize - i)%nat with batchSize by lia. rewrite E.
    destruct (pace i st) as [st1 paced].
    destruct (adapter k (firstn batchSize (x :: xs))) as [batchResults|err];
      [|reflexivity].
    rewrite IH by lia.
    rewrite <- E, skipn_skipn, (Nat.add_comm batchSize i). reflexivity.
  - rewrite skipn_all2 by lia. reflexivity.
Qed.

(** Pacing writes the waiting flag only. *)
Lemma pace_spec (i : nat) (st : RunState) :
  status (fst (pace i st)) = status st
  /\ results (fst (pace i st)) = results st
  /\ fst (pace i st) = last (updates (snd (pace i st))) st
  /\ Forall (fun s => status s = status st) (updates (snd (pace i st)))
  /\ calls (snd (pace i st)) = [].
Proof.
  unfold pace. destruct (0 <? i)%nat; simpl; repeat split; repeat constructor.
Qed.

(** The state the loop ends in is the last one it wrote. *)
Lemma unrolled_last (bs : list (list ProductInput)) :
  forall i k st r st' steps,
    unrolled batchSize adapter bs i k st = (r, st', steps) ->
    st' = last (updates steps) st.
Proof.
  induction bs as [|batch rest IH]; intros i k st r st' steps E; simpl in E.
  - injection E as _ E2 E3. subst. reflexivity.
  - destruct (pace_spec i st) as [_ [_ [Hl _]]].
    destruct (pace i st) as [st1 paced]. simpl in Hl.
    destruct (adapter k batch) as [batchResults|err].
    + destruct (unrolled batchSize adapter rest (i + batchSize) (k + 1) _)
        as [[r0 st0] steps0] eqn:E0.
      injection E as _ E2 E3. subst.
      apply IH in E0. rewrite E0.
      rewrite updates_app. simpl updates.
      change (?a :: ?b :: updates steps0) with ([a] ++ b :: updates steps0).
      rewrite app_assoc, last_app_cons. reflexivity.
    + injection E as _ E2 E3. subst st' steps.
      rewrite updates_app. simpl. rewrite app_nil_r. exact Hl.
Qed.

(** Along the loop [total], [isProcessing] and [error] are fixed and
    [completed] climbs without passing [total]. *)
Lemma unrolled_progress (bs : list (list ProductInput)) :
  forall i k st r st' steps,
    unrolled batchSize adapter bs i k st = (r, st', steps) ->
    (completedOf st <= total (status st))%nat ->
    Forall (fun s => total (status s) = total (status st)
                     /\ isProcessing (status s) = isProcessing (status st)
                     /\ error (status s) = error (status st)
                     /\ (completedOf s <= total (status st))%nat) (updates steps)
    /\ climbs (completedOf st) (map completedOf (updates steps)).
Proof.
  induction bs as [|batch rest IH]; intros i k st r st' steps E Hinv; simpl in E.
  - injection E as _ _ E3. subst. simpl. split; constructor.
  - unfold pace in E.
    destruct (adapter k batch) as [batchResults|err].
    + destruct (0 <? i)%nat;
        match type of E with
        | context [unrolled batchSize adapter rest ?a ?b ?c] =>
            destruct (unrolled batchSize adapter rest a b c)
              as [[r0 st0] steps0] eqn:E0
        end;
        injection E as _ _ E3; subst;
        apply IH in E0; try (unfold completedOf in *; simpl; lia);
        destruct E0 as [F C]; unfold completedOf in *; simpl in *;
        (split;
         [ repeat (apply Forall_cons;
                   [simpl; repeat split; try reflexivity; lia|]);
           eapply Forall_impl; [|exact F]; simpl;
           intros s [Hs1 [Hs2 [Hs3 Hs4]]]; repeat split; assumption || lia
         | repeat (split; [lia|]); exact C ]).
    + destruct (0 <? i)%nat; injection E as _ _ E3; subst;
        unfold completedOf in *; simpl;
        (split; [repeat (apply Forall_cons;
                         [simpl; repeat split; try reflexivity; lia|]);
                 apply Forall_nil
                | repeat (split; [lia|]); exact I]).
Qed.

(** When every batch is answered the loop calls the adapter on each batch
    in turn, ends normally and has appended every result list. *)
Lemma unrolled_answered (bs : list (list ProductInput)) :
  forall outs i k st r st' steps,
    answered adapter k bs outs ->
    unrolled batchSize adapter bs i k st = (r, st', steps) ->
    r = Ret tt /\ calls steps = bs /\ results st' = results st ++ concat outs.
Proof.
  induction bs as [|batch rest IH]; intros outs i k st r st' steps Hans E;
    destruct outs as [|o outs]; simpl in Hans; try contradiction; simpl in E.
  - injection E as E1 E2 E3. subst. simpl. rewrite app_nil_r. repeat split.
  - destruct Hans as [Hb Hrest]. rewrite Hb in E.
    destruct (pace_spec i st) as [_ [Hres [_ [_ Hcalls]]]].
    destruct (pace i st) as [st1 paced]. simpl in Hres, Hcalls.
    destruct (unrolled batchSize adapter rest (i + batchSize) (k + 1) _)
      as [[r0 st0] steps0] eqn:E0.
    injection E as E1 E2 E3. subst r0 st0 steps.
    destruct (IH outs _ _ _ _ _ _ Hrest E0) as [Hr [Hc Hrs]].
    split; [exact Hr|]. split.
    + rewrite calls_app, Hcalls. simpl. rewrite Hc. reflexivity.
    + rewrite Hrs. simpl. rewrite Hres, app_assoc. reflexivity.
Qed.

(** Whatever the adapter answers, the calls of the loop are the first of the
    batches, in order. *)
Lemma unrolled_calls_prefix (bs : list (list ProductInput)) :
  forall i k st r st' steps,
    unrolled batchSize adapter bs i k st = (r, st', steps) ->
    exists rest, bs = calls steps ++ rest.
Proof.
  induction bs as [|batch rest IH]; intros i k st r st' steps E; simpl in E.
  - injection E as _ _ E3. subst. exists []. reflexivity.
  - destruct (pace_spec i st) as [_ [_ [_ [_ Hcalls]]]].
    destruct (pace i st) as [st1 paced]. simpl in Hcalls.
    destruct (adapter k batch) as [batchResults|err].
    + destruct (unrolled batchSize adapter rest (i + batchSize) (k + 1) _)
        as [[r0 st0] steps0] eqn:E0.
      injection E as _ _ E3. subst steps.
      destruct (IH _ _ _ _ _ _ E0) as [rest' Hrest].
      exists rest'. rewrite calls_app, Hcalls. simpl. rewrite <- Hrest. reflexivity.
    + injection E as _ _ E3. subst steps.
      exists rest. rewrite calls_app, Hcalls. reflexivity.
Qed.

(** When the batches [done] are answered and the next one fails, the loop
    stops there: the failing call is the last one, the results are those of
    [done], and [completed] has advanced by the sizes of [done]. *)
Lemma unrolled_failure (done : list (list ProductInput)) :
  forall failing rest outs e i k st r st' steps,
    answered adapter k done outs ->
    adapter (k + length done)%nat failing = Throw e ->
    unrolled batchSize adapter (done ++ failing :: rest) i k st = (r, st', steps) ->
    (completedOf st + list_sum (map (@length _) done) <= total (status st))%nat ->
    r = Throw e
    /\ calls steps = done ++ [failing]
    /\ results st' = results st ++ concat outs
    /\ status st' = advance (list_sum (map (@length _) done)) (status st).
Proof.
  induction done as [|batch done IH];
    intros failing rest outs e i k st r st' steps Hans Hfail E Hsum;
    destruct outs as [|o outs]; simpl in Hans; try contradiction; simpl in E.
  - rewrite Nat.add_0_r in Hfail. rewrite Hfail in E.
    destruct (pace_spec i st) as [Hst [Hres [_ [_ Hcalls]]]].
    destruct (pace i st) as [st1 paced]. simpl in Hst, Hres, Hcalls.
    injection E as E1 E2 E3. subst r st' steps.
    split; [reflexivity|]. split; [rewrite calls_app, Hcalls; reflexivity|].
    split; [simpl; rewrite app_nil_r; exact Hres|].
    rewrite Hst. unfold advance, completedOf in *. simpl in *.
    destruct (status st) as [t c p er]. simpl in *. f_equal. lia.
  - destruct Hans as [Hb Hrest]. rewrite Hb in E.
    destruct (pace_spec i st) as [Hst [Hres [_ [_ Hcalls]]]].
    destruct (pace i st) as [st1 paced]. simpl in Hst, Hres, Hcalls.
    destruct (unrolled batchSize adapter (done ++ failing :: rest)
                (i + batchSize) (k + 1) _) as [[r0 st0] steps0] eqn:E0.
    injection E as E1 E2 E3. subst r0 st0 steps.
    simpl in Hfail, Hsum.
    replace (k + S (length done))%nat with (k + 1 + length done)%nat in Hfail by lia.
    destruct (IH failing rest outs e _ _ _ _ _ _ Hrest Hfail E0) as [Hr [Hc [Hrs Hs]]].
    { unfold completedOf in *. simpl. rewrite Hst. lia. }
    split; [exact Hr|]. split.
    + rewrite calls_app, Hcalls. simpl. rewrite Hc. reflexivity.
    + split.
      * rewrite Hrs. simpl. rewrite Hres, app_assoc. reflexivity.
      * rewrite Hs. simpl. rewrite Hst.
        unfold advance, completedOf in *. simpl in *.
        destruct (status st) as [t c p er]. simpl in *. f_equal. lia.
Qed.

Variable interrupted : jstring -> jstring.

(** The whole run, with the loop unrolled. *)
Lemma run_unrolled (st : RunState) :
  @run inputs batchSize batchSize_pos adapter interrupted st
  = let st0 := setStatus (fun _ => {| total := length inputs; completed := 0;
                                      isProcessing := true; error := None |}) st in
    let st1 := setResults (fun _ => []) st0 in
    let '(r, st2, steps) :=
      unrolled batchSize adapter (batches batchSize inputs) 0 0 st1 in
    let '(st3, caught) :=
      match r with
      | Ret _ => (st2, [])
      | Throw err =>
          let failed :=
            setStatus (withError (interrupted (template_message (err_message err)))) st2 in
          (failed, [Update failed])
      end in
    let st4 := setStatus stopped st3 in
    let st5 := setIsWaitingForNextBatch false st4 in
    (st5, [Update st0; Update st1] ++ steps ++ caught ++ [Update st4; Update st5]).
Proof.
  unfold run. rewrite (batchLoop_unrolled (length inputs)) by lia. reflexivity.
Qed.

(** Throughout a run [completed] stays within [total] and never goes down. *)
Lemma run_progress (st : RunState) :
  let steps := snd (@run inputs batchSize batchSize_pos adapter interrupted st) in
  Forall (fun s => (completedOf s <= total (status s))%nat) (updates steps)
  /\ nondecreasing (map completedOf (updates steps)).
Proof.
  rewrite run_unrolled. cbv zeta.
  set (st0 := setStatus _ st). set (st1 := setResults _ st0).
  destruct (unrolled batchSize adapter (batches batchSize inputs) 0 0 st1)
    as [[r st2] steps] eqn:E.
  pose proof (unrolled_last _ _ _ _ _ _ _ E) as Hlast.
  destruct (unrolled_progress _ _ _ _ _ _ _ E) as [F C];
    [unfold completedOf; simpl; lia|].
  change (total (status st1)) with (length inputs) in F.
  change (completedOf st1) with 0%nat in C.
  assert (F' : Forall (fun s => total (status s) = length inputs
                                /\ (completedOf s <= length inputs)%nat)
                      (updates steps)).
  { eapply Forall_impl; [|exact F]. simpl. intros s [Hs1 [_ [_ Hs4]]].
    split; assumption. }
  clear F. rename F' into F.
  assert (H2 : total (status st2) = length inputs
               /\ (completedOf st2 <= length inputs)%nat).
  { rewrite Hlast.
    apply (Forall_last (fun s => total (status s) = length inputs
                                 /\ (completedOf s <= length inputs)%nat));
      [exact F | split; [reflexivity | unfold completedOf; simpl; lia]]. }
  assert (L2 : completedOf st2 = last (map completedOf (updates steps)) 0%nat).
  { rewrite Hlast. symmetry. apply (last_map_default completedOf (updates steps) st1). }
  destruct H2 as [T2 C2].
  assert (Fm : Forall (fun s => (completedOf s <= total (status s))%nat) (updates steps)).
  { eapply Forall_impl; [|exact F]. simpl. intros s [Hs1 Hs2]. lia. }
  destruct r as [u|err]; cbn [snd];
    rewrite !updates_app, !map_app; simpl updates;
    unfold completedOf in *; simpl.
  - split.
    + repeat (apply Forall_cons; [simpl; lia|]).
      apply Forall_app. split; [exact Fm|].
      repeat (apply Forall_cons; [simpl; lia|]). apply Forall_nil.
    + split; [lia|].
      apply climbs_nondecreasing. apply climbs_app; [exact C|].
      simpl. rewrite <- L2. repeat split; lia.
  - split.
    + repeat (apply Forall_cons; [simpl; lia|]).
      apply Forall_app. split; [exact Fm|].
      repeat (apply Forall_cons; [simpl; lia|]). apply Forall_nil.
    + split; [lia|].
      apply climbs_nondecreasing. apply climbs_app; [exact C|].
      simpl. rewrite <- L2. repeat split; lia.
Qed.

(** In every run the calls are the first slices of the input, in order. *)
Lemma run_calls_prefix (st : RunState) :
  exists rest,
    batches batchSize inputs
    = calls (snd (@run inputs batchSize batchSize_pos adapter interrupted st)) ++ rest.
Proof.
  rewrite run_unrolled. cbv zeta.
  set (st0 := setStatus _ st). set (st1 := setResults _ st0).
  destruct (unrolled batchSize adapter (batches batchSize inputs) 0 0 st1)
    as [[r st2] steps] eqn:E.
  destruct (unrolled_calls_prefix _ _ _ _ _ _ _ E) as [rest Hrest].
  exists rest.
  destruct r as [u|err]; cbn [snd]; rewrite !calls_app; simpl;
    rewrite app_nil_r; exact Hrest.
Qed.

(** A run whose batches are all answered calls the adapter on every slice. *)
Lemma run_answered (st : RunState) (outs : list (list ProductResult)) :
  answered adapter 0 (batches batchSize inputs) outs ->
  let out := @run inputs batchSize batchSize_pos adapter interrupted st in
  calls (snd out) = batches batchSize inputs
  /\ results (fst out) = concat outs
  /\ error (status (fst out)) = None
  /\ isProcessing (status (fst out)) = false.
Proof.
  intros Hans. rewrite run_unrolled. cbv zeta.
  set (st0 := setStatus _ st). set (st1 := setResults _ st0).
  destruct (unrolled batchSize adapter (batches batchSize inputs) 0 0 st1)
    as [[r st2] steps] eqn:E.
  destruct (unrolled_answered _ _ _ _ _ _ _ _ Hans E) as [Hr [Hc Hrs]].
  subst r. cbn [fst snd].
  rewrite !calls_app. simpl. rewrite app_nil_r.
  split; [exact Hc|]. split; [exact Hrs|].
  pose proof (unrolled_last _ _ _ _ _ _ _ E) as Hlast.
  destruct (unrolled_progress _ _ _ _ _ _ _ E) as [F _];
    [unfold completedOf; simpl; lia|].
  split; [|reflexivity].
  simpl. rewrite Hlast.
  apply (Forall_last (fun s => error (status s) = None));
    [|reflexivity].
  eapply Forall_impl; [|exact F]. simpl. intros s [_ [_ [Hs3 _]]]. exact Hs3.
Qed.

(** A run in which the batches [done] are answered and the next one fails. *)
Lemma run_failure (st : RunState) (done : list (list ProductInput))
  (failing : list ProductInput) (rest : list (list ProductInput))
  (outs : list (list ProductResult)) (e : JsError) :
  batches batchSize inputs = done ++ failing :: rest ->
  answered adapter 0 done outs ->
  adapter (length done) failing = Throw e ->
  let out := @run inputs batchSize batchSize_pos adapter interrupted st in
  calls (snd out) = done ++ [failing]
  /\ results (fst out) = concat outs
  /\ isWaitingForNextBatch (fst out) = false
  /\ status (fst out)
     = {| total := length inputs;
          completed := list_sum (map (@length _) done);
          isProcessing := false;
          error := Some (interrupted (template_message (err_message e))) |}.
Proof.
  intros Hb Hans Hfail. rewrite run_unrolled. cbv zeta.
  set (st0 := setStatus _ st). set (st1 := setResults _ st0).
  destruct (unrolled batchSize adapter (batches batchSize inputs) 0 0 st1)
    as [[r st2] steps] eqn:E.
  rewrite Hb in E.
  assert (Hsum : (list_sum (map (@length _) done) <= length inputs)%nat).
  { rewrite <- (batches_concat batchSize inputs batchSize_pos) at 1.
    rewrite Hb, length_concat, map_app, list_sum_app. lia. }
  destruct (unrolled_failure done failing rest outs e _ _ _ _ _ _ Hans Hfail E)
    as [Hr [Hc [Hrs Hs]]].
  { unfold completedOf. simpl. lia. }
  subst r. cbn [fst snd].
  rewrite !calls_app. simpl. rewrite app_nil_r.
  split; [exact Hc|]. split; [exact Hrs|]. split; [reflexivity|].
  simpl. rewrite Hs. unfold advance, withError, stopped. simpl. f_equal. lia.
Qed.

End SchedulerFacts.

(* ===================================================================== *)
(** * The scheduler of both revisions *)
(* ===================================================================== *)

(** An accepted request runs the scheduler on the parsed input. *)
Lemma App_handleProcess_accepted gem ds (app : App.AppState) :
  parseInput (App.rawInput app) <> [] ->
  (App.provider app = App.deepseek -> trim (App.deepSeekKey app) <> []) ->
  App.handleProcess gem ds app
  = (App.setRunState
       (fst (@run (parseInput (App.rawInput app)) _
               (App.batchSizeOf_pos (App.provider app))
               (App.dispatch gem ds app) App.interrupted (App.runState app))) app,
     snd (@run (parseInput (App.rawInput app)) _
            (App.batchSizeOf_pos (App.provider app))
            (App.dispatch gem ds app) App.interrupted (App.runState app))).
Proof.
  intros Hin Hkey. unfold App.handleProcess.
  destruct (parseInput (App.rawInput app)) as [|p ps] eqn:Ein; [congruence|].
  cbn [length Nat.eqb].
  destruct (App.provider app) eqn:Ep;
    destruct (nonEmpty (trim (App.deepSeekKey app))) eqn:Ek;
    try (destruct (run _ _ _ _ _); reflexivity).
  exfalso. apply Hkey; [reflexivity|].
  destruct (trim (App.deepSeekKey app)); [reflexivity | discriminate].
Qed.

Lemma AppDeepSeek_handleProcess_accepted ds (app : AppDeepSeek.AppState) :
  parseInput (AppDeepSeek.rawInput app) <> [] ->
  trim (AppDeepSeek.apiKey app) <> [] ->
  AppDeepSeek.handleProcess ds app
  = (AppDeepSeek.setRunState
       (fst (@run (parseInput (AppDeepSeek.rawInput app)) _ AppDeepSeek.batchSize_pos
               (ds (AppDeepSeek.apiKey app)) AppDeepSeek.interrupted
               (AppDeepSeek.runState app))) app,
     snd (@run (parseInput (AppDeepSeek.rawInput app)) _ AppDeepSeek.batchSize_pos
            (ds (AppDeepSeek.apiKey app)) AppDeepSeek.interrupted
            (AppDeepSeek.runState app))).
Proof.
  intros Hin Hkey. unfold AppDeepSeek.handleProcess.
  destruct (trim (AppDeepSeek.apiKey app)) as [|c key]; [congruence|].
  cbn [nonEmpty negb].
  destruct (parseInput (AppDeepSeek.rawInput app)) as [|p ps] eqn:Ein; [congruence|].
  cbn [length Nat.eqb].
  destruct (run _ _ _ _ _). reflexivity.
Qed.

(** A rejected request writes no run state and calls no adapter. *)
Lemma App_handleProcess_rejected gem ds (app : App.AppState) :
  parseInput (App.rawInput app) = []
  \/ (App.provider app = App.deepseek /\ trim (App.deepSeekKey app) = []) ->
  updates (snd (App.handleProcess gem ds app)) = []
  /\ calls (snd (App.handleProcess gem ds app)) = [].
Proof.
  intros H. unfold App.handleProcess.
  destruct (parseInput (App.rawInput app)) as [|p ps] eqn:Ein; simpl.
  - split; reflexivity.
  - destruct H as [H | [Hp Hk]]; [discriminate|].
    rewrite Hp, Hk. simpl. split; reflexivity.
Qed.

Lemma AppDeepSeek_handleProcess_rejected ds (app : AppDeepSeek.AppState) :
  parseInput (AppDeepSeek.rawInput app) = [] \/ trim (AppDeepSeek.apiKey app) = [] ->
  updates (snd (AppDeepSeek.handleProcess ds app)) = []
  /\ calls (snd (AppDeepSeek.handleProcess ds app)) = [].
Proof.
  intros H. unfold AppDeepSeek.handleProcess.
  destruct (nonEmpty (trim (AppDeepSeek.apiKey app))) eqn:Ek; simpl.
  - destruct H as [H | H]; [| rewrite H in Ek; discriminate].
    rewrite H. simpl. split; reflexivity.
  - split; reflexivity.
Qed.

Lemma jstring_nil_dec (s : jstring) : {s = []} + {s <> []}.
Proof. destruct s; [left; reflexivity | right; discriminate]. Qed.

Lemma inputs_nil_dec (ps : list ProductInput) : {ps = []} + {ps <> []}.
Proof. destruct ps; [left; reflexivity | right; discriminate]. Qed.

Lemma App_key_dec (app : App.AppState) :
  {App.provider app = App.deepseek /\ trim (App.deepSeekKey app) = []}
  + {App.provider app = App.deepseek -> trim (App.deepSeekKey app) <> []}.
Proof.
  destruct (App.provider app); [right; discriminate|].
  destruct (jstring_nil_dec (trim (App.deepSeekKey app))) as [Hk|Hk].
  - left. split; [reflexivity | exact Hk].
  - right. intros _. exact Hk.
Qed.

(** C8: when the request is accepted and no batch call fails, the scheduler
    calls the adapter exactly on the consecutive slices of the parsed input,
    in input order, with batch size 4 for Gemini and 5 for DeepSeek; in any
    run the calls made are the first of these slices, in order; the slices
    number [ceil(N / K)], each has [K] records except possibly the last,
    which has between 1 and [K], and put end to end they are the input. *)
Theorem C8_batch_slicing :
  (forall gem ds (app : App.AppState),
      (App.provider app = App.deepseek -> trim (App.deepSeekKey app) <> []) ->
      (forall j b,
          nth_error (batches (App.batchSizeOf (App.provider app))
                             (parseInput (App.rawInput app))) j = Some b ->
          exists out, App.dispatch gem ds app j b = Ret out) ->
      calls (snd (App.handleProcess gem ds app))
      = batches (App.batchSizeOf (App.provider app)) (parseInput (App.rawInput app)))
  /\ (forall ds (app : AppDeepSeek.AppState),
      trim (AppDeepSeek.apiKey app) <> [] ->
      (forall j b,
          nth_error (batches AppDeepSeek.batchSize
                             (parseInput (AppDeepSeek.rawInput app))) j = Some b ->
          exists out, ds (AppDeepSeek.apiKey app) j b = Ret out) ->
      calls (snd (AppDeepSeek.handleProcess ds app))
      = batches AppDeepSeek.batchSize (parseInput (AppDeepSeek.rawInput app)))
  /\ (forall gem ds (app : App.AppState),
      exists rest,
        batches (App.batchSizeOf (App.provider app)) (parseInput (App.rawInput app))
        = calls (snd (App.handleProcess gem ds app)) ++ rest)
  /\ (forall ds (app : AppDeepSeek.AppState),
      exists rest,
        batches AppDeepSeek.batchSize (parseInput (AppDeepSeek.rawInput app))
        = calls (snd (AppDeepSeek.handleProcess ds app)) ++ rest)
  /\ App.batchSizeOf App.gemini = 4%nat
  /\ App.batchSizeOf App.deepseek = 5%nat
  /\ AppDeepSeek.batchSize = 5%nat
  /\ (forall (K : nat) (inputs : list ProductInput),
      (0 < K)%nat ->
      length (batches K inputs) = ceilDiv (length inputs) K
      /\ concat (batches K inputs) = inputs
      /\ (forall init final,
             batches K inputs = init ++ [final] ->
             Forall (fun b => length b = K) init
             /\ (1 <= length final <= K)%nat)).
Proof.
  split; [|split; [|split; [|split; [|repeat split]]]].
  - intros gem ds app Hkey Hans.
    destruct (inputs_nil_dec (parseInput (App.rawInput app))) as [Hnil|Hin].
    + rewrite (proj2 (App_handleProcess_rejected gem ds app (or_introl Hnil))).
      rewrite Hnil. reflexivity.
    + rewrite (App_handleProcess_accepted gem ds app Hin Hkey). cbn [snd].
      destruct (answered_exists (App.dispatch gem ds app) _ 0%nat Hans) as [outs Houts].
      apply (run_answered _ _ _ _ _ _ _ Houts).
  - intros ds app Hkey Hans.
    destruct (inputs_nil_dec (parseInput (AppDeepSeek.rawInput app))) as [Hnil|Hin].
    + rewrite (proj2 (AppDeepSeek_handleProcess_rejected ds app (or_introl Hnil))).
      rewrite Hnil. reflexivity.
    + rewrite (AppDeepSeek_handleProcess_accepted ds app Hin Hkey). cbn [snd].
      destruct (answered_exists (ds (AppDeepSeek.apiKey app)) _ 0%nat Hans)
        as [outs Houts].
      apply (run_answered _ _ _ _ _ _ _ Houts).
  - intros gem ds app.
    destruct (inputs_nil_dec (parseInput (App.rawInput app))) as [Hnil|Hin].
    { rewrite (proj2 (App_handleProcess_rejected gem ds app (or_introl Hnil))).
      eexists. reflexivity. }
    destruct (App_key_dec app) as [Hk|Hk].
    { rewrite (proj2 (App_handleProcess_rejected gem ds app (or_intror Hk))).
      eexists. reflexivity. }
    rewrite (App_handleProcess_accepted gem ds app Hin Hk).
    cbn [snd]. apply run_calls_prefix.
  - intros ds app.
    destruct (inputs_nil_dec (parseInput (AppDeepSeek.rawInput app))) as [Hnil|Hin].
    { rewrite (proj2 (AppDeepSeek_handleProcess_rejected ds app (or_introl Hnil))).
      eexists. reflexivity. }
    destruct (jstring_nil_dec (trim (AppDeepSeek.apiKey app))) as [Hk|Hk].
    { rewrite (proj2 (AppDeepSeek_handleProcess_rejected ds app (or_intror Hk))).
      eexists. reflexivity. }
    rewrite (AppDeepSeek_handleProcess_accepted ds app Hin Hk).
    cbn [snd]. apply run_calls_prefix.
  - apply batches_length. assumption.
  - apply batches_concat. assumption.
  - apply (batches_sizes K inputs H init final H0).
  - apply (batches_sizes K inputs H init final H0).
  - apply (batches_sizes K inputs H init final H0).
Qed.


(** The theorem on twelve inputs: three calls of 4 with Gemini, and calls
    of 5, 5 and 2 with DeepSeek alone. *)
Lemma C8_batch_slicing_witness :
  (calls (snd (App.handleProcess echoes (fun _ => echoes) sampleApp))
   = batches 4 (parseInput twelveLines)
   /\ map (@length _) (batches 4 (parseInput twelveLines)) = [4; 4; 4]%nat)
  /\ (calls (snd (AppDeepSeek.handleProcess (fun _ => echoes) sampleAppDeepSeek))
      = batches 5 (parseInput twelveLines)
      /\ map (@length _) (batches 5 (parseInput twelveLines)) = [5; 5; 2]%nat).
Proof.
  split; (split; [|vm_compute; reflexivity]).
  - apply (proj1 C8_batch_slicing echoes (fun _ => echoes) sampleApp).
    + discriminate.
    + intros j b _. eexists. reflexivity.
  - apply (proj1 (proj2 C8_batch_slicing) (fun _ => echoes) sampleAppDeepSeek).
    + discriminate.
    + intros j b _. eexists. reflexivity.
Defined.

Lemma App_interrupted_nonEmpty (msg : jstring) : App.interrupted msg <> [].
Proof.
  unfold App.interrupted. intros H. apply (f_equal (@length _)) in H.
  rewrite length_app in H.
  change (length (lit "处理中断: ")) with 6%nat in H. simpl in H. lia.
Qed.

Lemma AppDeepSeek_interrupted_nonEmpty (msg : jstring) : AppDeepSeek.interrupted msg <> [].
Proof.
  unfold AppDeepSeek.interrupted. intros H. apply (f_equal (@length _)) in H.
  rewrite length_app in H.
  change (length (lit "处理中断: ")) with 6%nat in H. simpl in H. lia.
Qed.

(** C2: in a run whose input is sliced into three batches, when the call
    for the first batch returns and the call for the second throws, the
    accumulated results are exactly the records the first call returned,
    [status.error] holds a non-empty text, the calls made are those for
    batch 1 and batch 2 and no more, and [isProcessing] ends false. *)
Theorem C2_partial_results :
  (forall gem ds (app : App.AppState) b1 b2 b3 r1 e,
      (App.provider app = App.deepseek -> trim (App.deepSeekKey app) <> []) ->
      batches (App.batchSizeOf (App.provider app)) (parseInput (App.rawInput app))
      = [b1; b2; b3] ->
      App.dispatch gem ds app 0%nat b1 = Ret r1 ->
      App.dispatch gem ds app 1%nat b2 = Throw e ->
      results (App.runState (fst (App.handleProcess gem ds app))) = r1
      /\ (exists msg,
             error (status (App.runState (fst (App.handleProcess gem ds app)))) = Some msg
             /\ msg <> [])
      /\ calls (snd (App.handleProcess gem ds app)) = [b1; b2]
      /\ isProcessing (status (App.runState (fst (App.handleProcess gem ds app)))) = false)
  /\ (forall ds (app : AppDeepSeek.AppState) b1 b2 b3 r1 e,
      trim (AppDeepSeek.apiKey app) <> [] ->
      batches AppDeepSeek.batchSize (parseInput (AppDeepSeek.rawInput app))
      = [b1; b2; b3] ->
      ds (AppDeepSeek.apiKey app) 0%nat b1 = Ret r1 ->
      ds (AppDeepSeek.apiKey app) 1%nat b2 = Throw e ->
      results (AppDeepSeek.runState (fst (AppDeepSeek.handleProcess ds app))) = r1
      /\ (exists msg,
             error (status (AppDeepSeek.runState (fst (AppDeepSeek.handleProcess ds app))))
             = Some msg
             /\ msg <> [])
      /\ calls (snd (AppDeepSeek.handleProcess ds app)) = [b1; b2]
      /\ isProcessing
           (status (AppDeepSeek.runState (fst (AppDeepSeek.handleProcess ds app)))) = false).
Proof.
  split.
  - intros gem ds app b1 b2 b3 r1 e Hkey Hb H1 H2.
    assert (Hin : parseInput (App.rawInput app) <> []).
    { intros Hnil. rewrite Hnil in Hb. discriminate. }
    rewrite (App_handleProcess_accepted gem ds app Hin Hkey). cbn [fst snd].
    destruct (run_failure (parseInput (App.rawInput app))
                (App.batchSizeOf (App.provider app))
                (App.batchSizeOf_pos (App.provider app))
                (App.dispatch gem ds app) App.interrupted (App.runState app)
                [b1] b2 [b3] [r1] e Hb (conj H1 I) H2) as [Hc [Hr [_ Hs]]].
    simpl App.runState. rewrite Hr, Hc, Hs. simpl. rewrite app_nil_r.
    repeat split. eexists. split; [reflexivity|]. apply App_interrupted_nonEmpty.
  - intros ds app b1 b2 b3 r1 e Hkey Hb H1 H2.
    assert (Hin : parseInput (AppDeepSeek.rawInput app) <> []).
    { intros Hnil. rewrite Hnil in Hb. discriminate. }
    rewrite (AppDeepSeek_handleProcess_accepted ds app Hin Hkey). cbn [fst snd].
    destruct (run_failure (parseInput (AppDeepSeek.rawInput app))
                _ AppDeepSeek.batchSize_pos
                (ds (AppDeepSeek.apiKey app)) AppDeepSeek.interrupted
                (AppDeepSeek.runState app)
                [b1] b2 [b3] [r1] e Hb (conj H1 I) H2) as [Hc [Hr [_ Hs]]].
    simpl AppDeepSeek.runState. rewrite Hr, Hc, Hs. simpl. rewrite app_nil_r.
    repeat split. eexists. split; [reflexivity|].
    apply AppDeepSeek_interrupted_nonEmpty.
Qed.

(** The theorem on twelve inputs, the second call failing, in both
    revisions. *)
Lemma C2_partial_results_witness :
  (results (App.runState (fst (App.handleProcess failsSecond (fun _ => failsSecond)
                                 sampleApp)))
   = map echo (firstn 4 (parseInput twelveLines))
   /\ (exists msg,
          error (status (App.runState
                           (fst (App.handleProcess failsSecond (fun _ => failsSecond)
                                   sampleApp)))) = Some msg
          /\ msg <> [])
   /\ calls (snd (App.handleProcess failsSecond (fun _ => failsSecond) sampleApp))
      = [firstn 4 (parseInput twelveLines); firstn 4 (skipn 4 (parseInput twelveLines))]
   /\ isProcessing (status (App.runState
                              (fst (App.handleProcess failsSecond (fun _ => failsSecond)
                                      sampleApp)))) = false)
  /\ (results (AppDeepSeek.runState
                 (fst (AppDeepSeek.handleProcess (fun _ => failsSecond) sampleAppDeepSeek)))
      = map echo (firstn 5 (parseInput twelveLines))
      /\ (exists msg,
             error (status (AppDeepSeek.runState
                              (fst (AppDeepSeek.handleProcess (fun _ => failsSecond)
                                      sampleAppDeepSeek)))) = Some msg
             /\ msg <> [])
      /\ calls (snd (AppDeepSeek.handleProcess (fun _ => failsSecond) sampleAppDeepSeek))
         = [firstn 5 (parseInput twelveLines); firstn 5 (skipn 5 (parseInput twelveLines))]
      /\ isProcessing
           (status (AppDeepSeek.runState
                      (fst (AppDeepSeek.handleProcess (fun _ => failsSecond)
                              sampleAppDeepSeek)))) = false).
Proof.
  split.
  - apply (proj1 C2_partial_results failsSecond (fun _ => failsSecond) sampleApp
             (firstn 4 (parseInput twelveLines))
             (firstn 4 (skipn 4 (parseInput twelveLines)))
             (skipn 8 (parseInput twelveLines))
             (map echo (firstn 4 (parseInput twelveLines)))
             (new_Error (lit "boom"))).
    + discriminate.
    + vm_compute. reflexivity.
    + reflexivity.
    + reflexivity.
  - apply (proj2 C2_partial_results (fun _ => failsSecond) sampleAppDeepSeek
             (firstn 5 (parseInput twelveLines))
             (firstn 5 (skipn 5 (parseInput twelveLines)))
             (skipn 10 (parseInput twelveLines))
             (map echo (firstn 5 (parseInput twelveLines)))
             (new_Error (lit "boom"))).
    + discriminate.
    + vm_compute. reflexivity.
    + reflexivity.
    + reflexivity.
Defined.

(** C3: throughout every run, over the successive states the scheduler
    writes, [completed] never exceeds [total] and never goes down; and when
    the batches [done] complete and the call for the next batch throws,
    [completed] ends as the sum of the sizes of the batches of [done]. *)
Theorem C3_progress :
  (forall gem ds (app : App.AppState),
      Forall (fun s => (0 <= completedOf s <= total (status s))%nat)
             (updates (snd (App.handleProcess gem ds app)))
      /\ nondecreasing (map completedOf (updates (snd (App.handleProcess gem ds app)))))
  /\ (forall ds (app : AppDeepSeek.AppState),
      Forall (fun s => (0 <= completedOf s <= total (status s))%nat)
             (updates (snd (AppDeepSeek.handleProcess ds app)))
      /\ nondecreasing
           (map completedOf (updates (snd (AppDeepSeek.handleProcess ds app)))))
  /\ (forall gem ds (app : App.AppState) done failing rest outs e,
      (App.provider app = App.deepseek -> trim (App.deepSeekKey app) <> []) ->
      batches (App.batchSizeOf (App.provider app)) (parseInput (App.rawInput app))
      = done ++ failing :: rest ->
      answered (App.dispatch gem ds app) 0%nat done outs ->
      App.dispatch gem ds app (length done) failing = Throw e ->
      completedOf (App.runState (fst (App.handleProcess gem ds app)))
      = list_sum (map (@length _) done))
  /\ (forall ds (app : AppDeepSeek.AppState) done failing rest outs e,
      trim (AppDeepSeek.apiKey app) <> [] ->
      batches AppDeepSeek.batchSize (parseInput (AppDeepSeek.rawInput app))
      = done ++ failing :: rest ->
      answered (ds (AppDeepSeek.apiKey app)) 0%nat done outs ->
      ds (AppDeepSeek.apiKey app) (length done) failing = Throw e ->
      completedOf (AppDeepSeek.runState (fst (AppDeepSeek.handleProcess ds app)))
      = list_sum (map (@length _) done)).
Proof.
  assert (W : forall steps,
             Forall (fun s => (completedOf s <= total (status s))%nat) (updates steps) ->
             Forall (fun s => (0 <= completedOf s <= total (status s))%nat) (updates steps)).
  { intros steps F. eapply Forall_impl; [|exact F]. simpl. intros s Hs. lia. }
  split; [|split; [|split]].
  - intros gem ds app.
    destruct (inputs_nil_dec (parseInput (App.rawInput app))) as [Hnil|Hin].
    { rewrite (proj1 (App_handleProcess_rejected gem ds app (or_introl Hnil))).
      split; [constructor | exact I]. }
    destruct (App_key_dec app) as [Hk|Hk].
    { rewrite (proj1 (App_handleProcess_rejected gem ds app (or_intror Hk))).
      split; [constructor | exact I]. }
    rewrite (App_handleProcess_accepted gem ds app Hin Hk).
    cbn [snd]. destruct (run_progress (parseInput (App.rawInput app)) _
                           (App.batchSizeOf_pos (App.provider app))
                           (App.dispatch gem ds app) App.interrupted
                           (App.runState app)) as [F M].
    split; [apply W; exact F | exact M].
  - intros ds app.
    destruct (inputs_nil_dec (parseInput (AppDeepSeek.rawInput app))) as [Hnil|Hin].
    { rewrite (proj1 (AppDeepSeek_handleProcess_rejected ds app (or_introl Hnil))).
      split; [constructor | exact I]. }
    destruct (jstring_nil_dec (trim (AppDeepSeek.apiKey app))) as [Hk|Hk].
    { rewrite (proj1 (AppDeepSeek_handleProcess_rejected ds app (or_intror Hk))).
      split; [constructor | exact I]. }
    rewrite (AppDeepSeek_handleProcess_accepted ds app Hin Hk).
    cbn [snd]. destruct (run_progress (parseInput (AppDeepSeek.rawInput app)) _
                           AppDeepSeek.batchSize_pos (ds (AppDeepSeek.apiKey app))
                           AppDeepSeek.interrupted (AppDeepSeek.runState app)) as [F M].
    split; [apply W; exact F | exact M].
  - intros gem ds app done failing rest outs e Hkey Hb Hans Hfail.
    assert (Hin : parseInput (App.rawInput app) <> []).
    { intros Hnil. rewrite Hnil in Hb. destruct done; discriminate. }
    rewrite (App_handleProcess_accepted gem ds app Hin Hkey). cbn [fst].
    destruct (run_failure (parseInput (App.rawInput app)) _
                (App.batchSizeOf_pos (App.provider app))
                (App.dispatch gem ds app) App.interrupted (App.runState app)
                done failing rest outs e Hb Hans Hfail) as [_ [_ [_ Hs]]].
    unfold completedOf. simpl App.runState. rewrite Hs. reflexivity.
  - intros ds app done failing rest outs e Hkey Hb Hans Hfail.
    assert (Hin : parseInput (AppDeepSeek.rawInput app) <> []).
    { intros Hnil. rewrite Hnil in Hb. destruct done; discriminate. }
    rewrite (AppDeepSeek_handleProcess_accepted ds app Hin Hkey). cbn [fst].
    destruct (run_failure (parseInput (AppDeepSeek.rawInput app)) _
                AppDeepSeek.batchSize_pos (ds (AppDeepSeek.apiKey app))
                AppDeepSeek.interrupted (AppDeepSeek.runState app)
                done failing rest outs e Hb Hans Hfail) as [_ [_ [_ Hs]]].
    unfold completedOf. simpl AppDeepSeek.runState. rewrite Hs. reflexivity.
Qed.

(** The theorem on twelve inputs, the second call failing: [completed] ends
    at 4 with Gemini and at 5 with DeepSeek alone. *)
Lemma C3_progress_witness :
  completedOf (App.runState
                 (fst (App.handleProcess failsSecond (fun _ => failsSecond) sampleApp)))
  = list_sum (map (@length _) [firstn 4 (parseInput twelveLines)])
  /\ completedOf (AppDeepSeek.runState
                    (fst (AppDeepSeek.handleProcess (fun _ => failsSecond)
                            sampleAppDeepSeek)))
     = list_sum (map (@length _) [firstn 5 (parseInput twelveLines)]).
Proof.
  split.
  - apply (proj1 (proj2 (proj2 C3_progress)) failsSecond (fun _ => failsSecond) sampleApp
             [firstn 4 (parseInput twelveLines)]
             (firstn 4 (skipn 4 (parseInput twelveLines)))
             [skipn 8 (parseInput twelveLines)]
             [map echo (firstn 4 (parseInput twelveLines))]
             (new_Error (lit "boom"))).
    + discriminate.
    + vm_compute. reflexivity.
    + split; [reflexivity | exact I].
    + reflexivity.
  - apply (proj2 (proj2 (proj2 C3_progress)) (fun _ => failsSecond) sampleAppDeepSeek
             [firstn 5 (parseInput twelveLines)]
             (firstn 5 (skipn 5 (parseInput twelveLines)))
             [skipn 10 (parseInput twelveLines)]
             [map echo (firstn 5 (parseInput twelveLines))]
             (new_Error (lit "boom"))).
    + discriminate.
    + vm_compute. reflexivity.
    + split; [reflexivity | exact I].
    + reflexivity.
Defined.

(* ===================================================================== *)
(** * The CSV export read back *)
(* ===================================================================== *)

Lemma escapeQuotes_quoteFree (s : jstring) : quoteFree s -> escapeQuotes s = s.
Proof.
  unfold quoteFree. induction s as [|c s IH]; intros H; [reflexivity|].
  unfold escapeQuotes in *. cbn [flat_map].
  destruct (N.eqb_spec c DQUOTE) as [E|E].
  - exfalso. apply H. left. exact E.
  - cbn [app]. f_equal. apply IH. intros Hin. apply H. right. exact Hin.
Qed.

(** Inside a quoted field: the escaped text, then the closing quote. *)
Lemma csvRead_quoted (f : jstring) :
  forall field row rows rest,
    csvRead Quoted field row rows (escapeQuotes f ++ DQUOTE :: rest)
    = csvRead QuoteSeen (rev f ++ field) row rows rest.
Proof.
  induction f as [|c f IH]; intros field row rows rest; [reflexivity|].
  unfold escapeQuotes in *. cbn [flat_map rev].
  rewrite <- (app_assoc (rev f) [c] field). cbn [app].
  destruct (N.eqb_spec c DQUOTE) as [E|E].
  - subst c. cbn [app csvRead]. rewrite N.eqb_refl. apply IH.
  - cbn [app csvRead].
    destruct (N.eqb_spec c DQUOTE) as [E'|_]; [contradiction|]. apply IH.
Qed.

(** A whole quoted field followed by a comma, a line feed, or nothing. *)
Lemma csvRead_field_comma (f : jstring) row rows rest :
  csvRead FieldStart [] row rows (DQUOTE :: escapeQuotes f ++ DQUOTE :: COMMA :: rest)
  = csvRead FieldStart [] (f :: row) rows rest.
Proof.
  cbn [csvRead]. rewrite N.eqb_refl, csvRead_quoted. cbn [csvRead].
  change (COMMA =? DQUOTE) with false. rewrite N.eqb_refl.
  rewrite app_nil_r, rev_involutive. reflexivity.
Qed.

Lemma csvRead_field_lf (f : jstring) row rows rest :
  csvRead FieldStart [] row rows (DQUOTE :: escapeQuotes f ++ DQUOTE :: LF :: rest)
  = csvRead FieldStart [] [] (rev (f :: row) :: rows) rest.
Proof.
  cbn [csvRead]. rewrite N.eqb_refl, csvRead_quoted. cbn [csvRead].
  change (LF =? DQUOTE) with false. change (LF =? COMMA) with false.
  rewrite N.eqb_refl, app_nil_r, rev_involutive. reflexivity.
Qed.

Lemma csvRead_field_end (f : jstring) row rows :
  csvRead FieldStart [] row rows (DQUOTE :: escapeQuotes f ++ [DQUOTE])
  = Some (rev (rev (f :: row) :: rows)).
Proof.
  cbn [csvRead]. rewrite N.eqb_refl, csvRead_quoted. cbn [csvRead].
  rewrite app_nil_r, rev_involutive. reflexivity.
Qed.

(** One exported row, followed by a line feed or by the end of the text. *)
Lemma csvRead_row (r : ProductResult) rows :
  quoteFree (res_sku r) -> quoteFree (res_chineseName r) ->
  (forall rest,
      csvRead FieldStart [] [] rows (csvRow r ++ LF :: rest)
      = csvRead FieldStart [] [] (fieldsOf r :: rows) rest)
  /\ csvRead FieldStart [] [] rows (csvRow r) = Some (rev (fieldsOf r :: rows)).
Proof.
  intros Hs Hn. unfold csvRow, quoted. cbn [join].
  split.
  - intros rest. repeat rewrite <- app_assoc. cbn [app].
    rewrite <- (escapeQuotes_quoteFree _ Hs) at 1.
    rewrite <- (escapeQuotes_quoteFree _ Hn) at 1.
    rewrite !csvRead_field_comma, csvRead_field_lf. reflexivity.
  - repeat rewrite <- app_assoc. cbn [app].
    rewrite <- (escapeQuotes_quoteFree _ Hs) at 1.
    rewrite <- (escapeQuotes_quoteFree _ Hn) at 1.
    rewrite !csvRead_field_comma, csvRead_field_end. reflexivity.
Qed.

(** The exported rows. *)
Lemma csvRead_rows (rs : list ProductResult) :
  rs <> [] ->
  (forall r, In r rs -> quoteFree (res_sku r) /\ quoteFree (res_chineseName r)) ->
  forall rows,
    csvRead FieldStart [] [] rows (join [LF] (map csvRow rs))
    = Some (rev rows ++ map fieldsOf rs).
Proof.
  induction rs as [|r rs IH]; intros Hne Hq rows; [congruence|].
  destruct (Hq r (or_introl eq_refl)) as [Hs Hn].
  destruct (csvRead_row r rows Hs Hn) as [Hlf Hend].
  destruct rs as [|r' rs].
  - cbn [map join]. rewrite Hend. cbn [rev map]. reflexivity.
  - change (join [LF] (map csvRow (r :: r' :: rs)))
      with (csvRow r ++ LF :: join [LF] (map csvRow (r' :: rs))).
    rewrite Hlf, IH.
    + cbn [rev map]. rewrite <- app_assoc. reflexivity.
    + discriminate.
    + intros x Hx. apply Hq. right. exact Hx.
Qed.

Lemma csvRead_header (rest : jstring) :
  csvRead FieldStart [] [] [] (join [COMMA] CSV_COLUMNS ++ LF :: rest)
  = csvRead FieldStart [] [] [CSV_COLUMNS] rest.
Proof. reflexivity. Qed.

(** What does hold of the export: when no [sku] and no [chineseName] holds a
    double quote, reading the exported text back gives the header and then
    the five values of every record, whatever the other three fields hold
    (quotes, commas, line feeds). *)
Lemma csv_roundtrip (rs : list ProductResult) :
  rs <> [] ->
  (forall r, In r rs -> quoteFree (res_sku r) /\ quoteFree (res_chineseName r)) ->
  parseCSV (csvText rs) = Some (CSV_COLUMNS :: map fieldsOf rs).
Proof.
  intros Hne Hq. unfold csvText. cbn [app parseCSV]. rewrite N.eqb_refl.
  rewrite csvRead_header, csvRead_rows by assumption. reflexivity.
Qed.


Example csv_roundtrip_tricky :
  parseCSV (csvText [trickyRecord]) = Some [CSV_COLUMNS; fieldsOf trickyRecord].
Proof. vm_compute. reflexivity. Qed.

(** C4: the round trip of the export fails on the code.  The export
    doubles the quotes of the three translated fields but writes [sku] and
    [chineseName] between quotes as they are.  For a record whose source
    name holds a double quote the exported text is not well-formed CSV, and
    for one whose source name holds quote, comma, quote the text reads back
    as six values instead of five: in both cases reading back does not give
    the record's values. *)
Theorem C4_export_breaks_on_quoted_name :
  downloadCSV (lit "ozon_export_") (lit "2026-01-01T00:00:00.000Z") [inchRecord]
  = Some {| download := lit "ozon_export_2026-01-01.csv";
            blob := csvText [inchRecord] |}
  /\ parseCSV (csvText [inchRecord]) = None
  /\ parseCSV (csvText [inchRecord]) <> Some [CSV_COLUMNS; fieldsOf inchRecord]
  /\ parseCSV (csvText [splitRecord])
     = Some [CSV_COLUMNS; [lit "A3"; lit "a"; lit "b"; lit "x"; lit "d"; lit "t"]]
  /\ parseCSV (csvText [splitRecord]) <> Some [CSV_COLUMNS; fieldsOf splitRecord].
Proof.
  split; [vm_compute; reflexivity|].
  assert (E : parseCSV (csvText [inchRecord]) = None) by (vm_compute; reflexivity).
  split; [exact E|]. split; [rewrite E; discriminate|].
  assert (E' : parseCSV (csvText [splitRecord])
               = Some [CSV_COLUMNS; [lit "A3"; lit "a"; lit "b"; lit "x"; lit "d"; lit "t"]])
    by (vm_compute; reflexivity).
  split; [exact E'|]. rewrite E'. vm_compute. discriminate.
Qed.

(* ===================================================================== *)
(** * Further properties: the retry policy under any network behaviour *)
(* ===================================================================== *)

Lemma backoff_double (a : nat) : backoff (a + 1) = 2 * backoff a.
Proof.
  unfold backoff.
  replace (N.of_nat (a + 1 + 1)) with (N.succ (N.of_nat (a + 1))) by lia.
  rewrite N.pow_succ_r'. lia.
Qed.

Lemma backoff_least (a : nat) : 2000 <= backoff a.
Proof.
  induction a as [|a IH]; [vm_compute; discriminate|].
  replace (S a) with (a + 1)%nat by lia. rewrite backoff_double. lia.
Qed.

Lemma backoff_most (a : nat) : (a <= 3)%nat -> backoff a <= 16000.
Proof.
  intros H. destruct a as [|[|[|[|a]]]]; try lia; vm_compute; discriminate.
Qed.

Section RetryShape.

Variable engineError : value -> jstring -> JsError.
Variable JSON_parse : jstring -> res value.

(** The wait that goes with the 429 way out of the [try] block is the
    exponential one. *)
Lemma tryBlock_wait fetch attempt guard waitTime :
  DeepSeek.tryBlock engineError JSON_parse fetch attempt
    = DeepSeek.ReturnsNext guard waitTime ->
  waitTime = backoff attempt.
Proof.
  unfold DeepSeek.tryBlock.
  destruct (fetch attempt) as [e|st body]; [discriminate|].
  destruct body as [body|e]; destruct (negb (response_ok st)); try discriminate.
  - destruct (Z.eq_dec st 429); destruct (lt_dec attempt 3);
      try (destruct (DeepSeek.errorMessage engineError body st); discriminate).
    intros H. injection H as H. symmetry. exact H.
  - destruct (res_bind _ _); discriminate.
Qed.

Lemma requests_retry (a : nat) (w : N) (evs : list Event) :
  requests (Request a :: Delay w :: evs) = a :: requests evs.
Proof. reflexivity. Qed.

Lemma delays_retry (a : nat) (w : N) (evs : list Event) :
  delays (Request a :: Delay w :: evs) = w :: delays evs.
Proof. reflexivity. Qed.

Lemma shapeFrom_step fetch a :
  (a <= 3)%nat ->
  ((a < 3)%nat -> shapeFrom engineError JSON_parse fetch (a + 1)) ->
  shapeFrom engineError JSON_parse fetch a.
Proof.
  intros Ha Hnext. unfold shapeFrom.
  rewrite DeepSeek.makeRequest_equation_1.
  pose proof (backoff_least a) as Hb. pose proof (backoff_most a Ha) as Hm.
  assert (Stop : forall r,
             (forall v, r = Ret v
                        <-> DeepSeek.tryBlock engineError JSON_parse fetch a
                            = DeepSeek.Returns v) ->
             (forall e, r = Throw e ->
                        DeepSeek.tryBlock engineError JSON_parse fetch a
                        = DeepSeek.Throws e /\ (2 <= a)%nat) ->
             exists n,
               (a <= n <= 3)%nat
               /\ requests (snd (r, [Request a])) = seq a (S n - a)
               /\ length (delays (snd (r, [Request a]))) = (n - a)%nat
               /\ sumN (delays (snd (r, [Request a]))) + backoff a <= 16000
               /\ (forall v, fst (r, [Request a]) = Ret v
                             <-> DeepSeek.tryBlock engineError JSON_parse fetch n
                                 = DeepSeek.Returns v)
               /\ (forall e, fst (r, [Request a]) = Throw e ->
                             DeepSeek.tryBlock engineError JSON_parse fetch n
                             = DeepSeek.Throws e /\ (2 <= n)%nat)
               /\ (forall j, (a <= j < n)%nat ->
                             forall v, DeepSeek.tryBlock engineError JSON_parse fetch j
                                       <> DeepSeek.Returns v)).
  { intros r Hret Hthr. exists a.
    replace (S a - a)%nat with 1%nat by lia. replace (a - a)%nat with 0%nat by lia.
    cbn [fst snd].
    split; [lia|]. split; [reflexivity|]. split; [reflexivity|].
    split; [exact Hm|]. split; [exact Hret|]. split; [exact Hthr|].
    intros j Hj. lia. }
  assert (Go : forall w,
             w <= backoff a -> (a < 3)%nat ->
             (forall v, DeepSeek.tryBlock engineError JSON_parse fetch a
                        <> DeepSeek.Returns v) ->
             exists n,
               (a <= n <= 3)%nat
               /\ requests
                    (snd (let '(r, evs) :=
                            DeepSeek.makeRequest engineError JSON_parse fetch (a + 1) in
                          (r, Request a :: Delay w :: evs)))
                  = seq a (S n - a)
               /\ length
                    (delays
                       (snd (let '(r, evs) :=
                               DeepSeek.makeRequest engineError JSON_parse fetch (a + 1) in
                             (r, Request a :: Delay w :: evs))))
                  = (n - a)%nat
               /\ sumN
                    (delays
                       (snd (let '(r, evs) :=
                               DeepSeek.makeRequest engineError JSON_parse fetch (a + 1) in
                             (r, Request a :: Delay w :: evs))))
                  + backoff a <= 16000
               /\ (forall v,
                      fst (let '(r, evs) :=
                             DeepSeek.makeRequest engineError JSON_parse fetch (a + 1) in
                           (r, Request a :: Delay w :: evs)) = Ret v
                      <-> DeepSeek.tryBlock engineError JSON_parse fetch n
                          = DeepSeek.Returns v)
               /\ (forall e,
                      fst (let '(r, evs) :=
                             DeepSeek.makeRequest engineError JSON_parse fetch (a + 1) in
                           (r, Request a :: Delay w :: evs)) = Throw e ->
                      DeepSeek.tryBlock engineError JSON_parse fetch n
                      = DeepSeek.Throws e /\ (2 <= n)%nat)
               /\ (forall j, (a <= j < n)%nat ->
                             forall v, DeepSeek.tryBlock engineError JSON_parse fetch j
                                       <> DeepSeek.Returns v)).
  { intros w Hw Hlt Hnot.
    destruct (Hnext Hlt) as [n [Hn [Hreq [Hlen [Hsum [Hret [Hthr Hno]]]]]]].
    exists n.
    destruct (DeepSeek.makeRequest engineError JSON_parse fetch (a + 1)) as [r evs].
    cbn [fst snd] in *.
    rewrite requests_retry, delays_retry, Hreq. cbn [length sumN]. rewrite Hlen.
    rewrite backoff_double in Hsum.
    split; [lia|].
    split; [replace (S n - a)%nat with (S (S n - (a + 1))) by lia;
            replace (a + 1)%nat with (S a) by lia; reflexivity|].
    split; [lia|]. split; [lia|]. split; [exact Hret|]. split; [exact Hthr|].
    intros j Hj v. destruct (Nat.eq_dec j a) as [E|E].
    - subst j. apply Hnot.
    - apply Hno. lia. }
  destruct (DeepSeek.tryBlock engineError JSON_parse fetch a) as [v0|g w|e0] eqn:T.
  - apply Stop.
    + intros v. split; intros H; injection H as H; subst; reflexivity.
    + intros e H. discriminate.
  - pose proof (tryBlock_wait _ _ _ _ T) as Hw. subst w.
    apply Go; [lia | exact g | intros v; discriminate].
  - destruct (lt_dec a 2) as [Hlt|Hge].
    + apply Go; [exact Hb | lia | intros v; discriminate].
    + apply Stop.
      * intros v. split; intros H; discriminate.
      * intros e H. injection H as H. subst. split; [reflexivity | lia].
Qed.

Lemma shapeFrom_start fetch : shapeFrom engineError JSON_parse fetch 0.
Proof.
  apply shapeFrom_step; [lia|]. intros _.
  apply shapeFrom_step; [lia|]. intros _.
  apply shapeFrom_step; [lia|]. intros _.
  apply shapeFrom_step; [lia|]. intros H. simpl in H. lia.
Qed.

End RetryShape.


(* ===================================================================== *)
(** * Further properties: the Gemini retry loop under any SDK behaviour *)
(* ===================================================================== *)

Section LoopShape.

Variable engineError : value -> jstring -> JsError.
Variable JSON_parse : jstring -> res value.
Variable generateContent : nat -> GenOutcome.


Lemma retryLoop_shape maxRetries :
  forall k a lastError,
    (maxRetries - a = k)%nat -> (a < maxRetries)%nat ->
    exists n,
      (a <= n < maxRetries)%nat
      /\ requests (snd (Gemini.retryLoop engineError JSON_parse generateContent
                          maxRetries a lastError))
         = seq a (S n - a)
      /\ delays (snd (Gemini.retryLoop engineError JSON_parse generateContent
                        maxRetries a lastError))
         = map backoff (seq a (n - a))
      /\ fst (Gemini.retryLoop engineError JSON_parse generateContent
                maxRetries a lastError)
         = Gemini.tryBlock engineError JSON_parse generateContent n
      /\ (forall j, (a <= j < n)%nat ->
                    exists e,
                      Gemini.tryBlock engineError JSON_parse generateContent j = Throw e
                      /\ Gemini.isRateLimit e = true)
      /\ (forall e,
             Gemini.tryBlock engineError JSON_parse generateContent n = Throw e ->
             Gemini.isRateLimit e = true -> S n = maxRetries).
Proof.
  induction k as [|k IH]; intros a lastError Hk Ha; [lia|].
  rewrite Gemini.retryLoop_equation_1.
  destruct (lt_dec a maxRetries) as [_|N]; [|lia].
  assert (Stop : forall r,
             r = Gemini.tryBlock engineError JSON_parse generateContent a ->
             (forall e, r = Throw e -> Gemini.isRateLimit e = true ->
                        S a = maxRetries) ->
             exists n,
               (a <= n < maxRetries)%nat
               /\ requests (snd (r, [Request a])) = seq a (S n - a)
               /\ delays (snd (r, [Request a])) = map backoff (seq a (n - a))
               /\ fst (r, [Request a])
                  = Gemini.tryBlock engineError JSON_parse generateContent n
               /\ (forall j, (a <= j < n)%nat ->
                             exists e,
                               Gemini.tryBlock engineError JSON_parse generateContent j
                               = Throw e
                               /\ Gemini.isRateLimit e = true)
               /\ (forall e,
                      Gemini.tryBlock engineError JSON_parse generateContent n
                      = Throw e ->
                      Gemini.isRateLimit e = true -> S n = maxRetries)).
  { intros r Hr Hlast. exists a.
    replace (S a - a)%nat with 1%nat by lia. replace (a - a)%nat with 0%nat by lia.
    cbn [fst snd].
    split; [lia|]. split; [reflexivity|]. split; [reflexivity|].
    split; [exact Hr|]. split; [intros j Hj; lia|].
    intros e He. apply Hlast. rewrite Hr. exact He. }
  destruct (Gemini.tryBlock engineError JSON_parse generateContent a)
    as [v|error] eqn:T.
  - apply Stop; [reflexivity | intros e H; discriminate].
  - destruct (Gemini.isRateLimit error) eqn:R; cbn [andb].
    + destruct (Nat.ltb_spec a (maxRetries - 1)) as [Hlt|Hge].
      * destruct (IH (a + 1)%nat error ltac:(lia) ltac:(lia))
          as [n [Hn [Hreq [Hdel [Hres [Hbefore Hlast]]]]]].
        exists n.
        destruct (Gemini.retryLoop engineError JSON_parse generateContent
                    maxRetries (a + 1) error) as [r evs].
        cbn [fst snd] in *.
        rewrite requests_retry, delays_retry, Hreq, Hdel.
        split; [lia|].
        split; [replace (S n - a)%nat with (S (S n - (a + 1))) by lia;
                replace (a + 1)%nat with (S a) by lia; reflexivity|].
        split; [replace (n - a)%nat with (S (n - (a + 1))) by lia;
                replace (a + 1)%nat with (S a) by lia; reflexivity|].
        split; [exact Hres|]. split; [|exact Hlast].
        intros j Hj. destruct (Nat.eq_dec j a) as [E|E].
        -- subst j. exists error. split; [exact T | exact R].
        -- apply Hbefore. lia.
      * apply Stop; [reflexivity|]. intros e He _. lia.
    + apply Stop; [reflexivity|].
      intros e He Re. injection He as He. subst e. congruence.
Qed.

End LoopShape.


(* ===================================================================== *)
(** * Further properties: what a successful adapter call returns *)
(* ===================================================================== *)

Lemma mapM_Forall2 (f : value -> res value) (items outs : list value) :
  mapM f items = Ret outs <-> Forall2 (fun x y => f x = Ret y) items outs.
Proof.
  revert outs. induction items as [|x rest IH]; intros outs; simpl.
  - split; intros H.
    + injection H as H. subst. constructor.
    + inversion H. reflexivity.
  - split; intros H.
    + destruct (f x) as [y|e] eqn:Fx; simpl in H; [|discriminate].
      destruct (mapM f rest) as [ys|e] eqn:M; simpl in H; [|discriminate].
      injection H as H. subst outs. constructor; [exact Fx|].
      apply IH. reflexivity.
    + inversion H as [|x' y rest' ys Fx Hrest]; subst.
      rewrite Fx. simpl. apply IH in Hrest. rewrite Hrest. reflexivity.
Qed.

Lemma callMap_inv engineError (v : value) (f : value -> res value) (outs : list value) :
  callMap engineError v f = Ret outs ->
  exists items, v = VArr items /\ Forall2 (fun x y => f x = Ret y) items outs.
Proof.
  destruct v; simpl; try discriminate.
  intros H. eexists. split; [reflexivity|]. apply mapM_Forall2. exact H.
Qed.

Lemma lookup_setProp_other (name k : jstring) (x : value)
  (props : list (jstring * value)) :
  k <> name ->
  lookup k (Gemini.setProp name x props) = lookup k props.
Proof.
  intros Hk. induction props as [|[k0 v] rest IH]; simpl.
  - destruct (jstring_eqb name k) eqn:E; [|reflexivity].
    apply jstring_eqb_eq in E. congruence.
  - destruct (jstring_eqb k0 name) eqn:E; simpl.
    + apply jstring_eqb_eq in E. subst k0.
      destruct (jstring_eqb name k) eqn:E2; [|reflexivity].
      apply jstring_eqb_eq in E2. congruence.
    + rewrite IH. reflexivity.
Qed.

Lemma DeepSeek_reconcile_inv engineError (products : list ProductInput)
  (entry out : value) :
  DeepSeek.reconcile engineError products entry = Ret out ->
  exists entrySku rn rd bt,
    getProp engineError entry (lit "sku") = Ret entrySku
    /\ getProp engineError entry (lit "russianName") = Ret rn
    /\ getProp engineError entry (lit "russianDescription") = Ret rd
    /\ getProp engineError entry (lit "backTranslation") = Ret bt
    /\ out = VObj [ (lit "sku", entrySku);
                    (lit "chineseName",
                     VStr (sourceName (findBySku products entrySku)));
                    (lit "russianName", rn);
                    (lit "russianDescription", rd);
                    (lit "backTranslation", bt) ].
Proof.
  unfold DeepSeek.reconcile.
  destruct (getProp engineError entry (lit "sku")) as [entrySku|e] eqn:Hs.
  - rewrite (findOriginal_found engineError products entry entrySku Hs). simpl.
    destruct (getProp engineError entry (lit "russianName")) as [rn|e]; simpl;
      [|discriminate].
    destruct (getProp engineError entry (lit "russianDescription")) as [rd|e]; simpl;
      [|discriminate].
    destruct (getProp engineError entry (lit "backTranslation")) as [bt|e]; simpl;
      [|discriminate].
    intros H. injection H as H. subst out.
    exists entrySku, rn, rd, bt. repeat split; reflexivity.
  - unfold findOriginal. destruct products; simpl; rewrite ?Hs; simpl; discriminate.
Qed.

Lemma findOriginal_from_batch engineError (products : list ProductInput)
  (entry : value) (p : ProductInput) :
  findOriginal engineError products entry = Ret (Some p) -> In p products.
Proof.
  intros H. destruct (getProp engineError entry (lit "sku")) as [s|e] eqn:Hs.
  - rewrite (findOriginal_found engineError products entry s Hs) in H.
    injection H as H. unfold findBySku in H.
    apply find_some in H. exact (proj1 H).
  - unfold findOriginal in H. destruct products; [discriminate|].
    rewrite Hs in H. discriminate.
Qed.

(** X3: whenever a DeepSeek call returns, it returns one object per entry
    of the list the completion holds, in the order of the completion and
    however many inputs the batch had; each object has exactly the five
    properties [sku], [chineseName], [russianName], [russianDescription],
    [backTranslation], four of them read from the entry and the name
    computed from the batch. *)
Theorem X3_deepseek_success_shape :
  forall engineError JSON_parse fetch products apiKey outs,
    fst (DeepSeek.processProductsWithDeepSeek engineError JSON_parse fetch
           products apiKey) = Ret outs ->
    exists raw items,
      fst (DeepSeek.makeRequest engineError JSON_parse fetch 0) = Ret raw
      /\ DeepSeek.resultList engineError raw = Ret (VArr items)
      /\ length outs = length items
      /\ Forall2
           (fun entry out =>
              exists entrySku rn rd bt,
                getProp engineError entry (lit "sku") = Ret entrySku
                /\ getProp engineError entry (lit "russianName") = Ret rn
                /\ getProp engineError entry (lit "russianDescription") = Ret rd
                /\ getProp engineError entry (lit "backTranslation") = Ret bt
                /\ out = VObj [ (lit "sku", entrySku);
                                (lit "chineseName",
                                 VStr (sourceName (findBySku products entrySku)));
                                (lit "russianName", rn);
                                (lit "russianDescription", rd);
                                (lit "backTranslation", bt) ])
           items outs.
Proof.
  intros engineError JSON_parse fetch products apiKey outs.
  unfold DeepSeek.processProductsWithDeepSeek.
  destruct (DeepSeek.makeRequest engineError JSON_parse fetch 0) as [r evs].
  destruct r as [raw|e]; simpl; [|discriminate].
  destruct (DeepSeek.resultList engineError raw) as [results|e] eqn:RL; simpl;
    [|discriminate].
  destruct (callMap engineError results (DeepSeek.reconcile engineError products))
    as [out|e] eqn:CM; simpl; [|discriminate].
  intros H. injection H as H. subst out.
  apply callMap_inv in CM. destruct CM as [items [E F]]. subst results.
  exists raw, items. split; [reflexivity|]. split; [exact RL|].
  split; [symmetry; exact (Forall2_length F)|].
  clear RL. induction F as [|entry out items outs Hentry _ IH]; constructor.
  - apply DeepSeek_reconcile_inv. exact Hentry.
  - exact IH.
Qed.

(** The theorem at a one-entry completion for a batch of two. *)
Lemma X3_deepseek_success_shape_witness :
  exists raw items,
    fst (DeepSeek.makeRequest sampleEngineError parseEntry answersEntry 0) = Ret raw
    /\ DeepSeek.resultList sampleEngineError raw = Ret (VArr items)
    /\ length [VObj [ (lit "sku", VStr (lit "a"));
                      (lit "chineseName", VStr (lit "杯子"));
                      (lit "russianName", VUndefined);
                      (lit "russianDescription", VUndefined);
                      (lit "backTranslation", VUndefined) ]] = length items
    /\ Forall2
         (fun entry out =>
            exists entrySku rn rd bt,
              getProp sampleEngineError entry (lit "sku") = Ret entrySku
              /\ getProp sampleEngineError entry (lit "russianName") = Ret rn
              /\ getProp sampleEngineError entry (lit "russianDescription") = Ret rd
              /\ getProp sampleEngineError entry (lit "backTranslation") = Ret bt
              /\ out = VObj [ (lit "sku", entrySku);
                              (lit "chineseName",
                               VStr (sourceName (findBySku sampleBatch entrySku)));
                              (lit "russianName", rn);
                              (lit "russianDescription", rd);
                              (lit "backTranslation", bt) ])
         items
         [VObj [ (lit "sku", VStr (lit "a"));
                 (lit "chineseName", VStr (lit "杯子"));
                 (lit "russianName", VUndefined);
                 (lit "russianDescription", VUndefined);
                 (lit "backTranslation", VUndefined) ]].
Proof.
  apply (X3_deepseek_success_shape sampleEngineError parseEntry answersEntry
           sampleBatch (lit "sk-1")).
  vm_compute. reflexivity.
Defined.

(** X4: whenever a Gemini call returns, it returns one object per entry of
    the array the model answered, in that order; each object carries a
    [chineseName] that is the sentinel or a name of the submitted batch,
    and under every other key exactly what the entry has there, asked for
    or not. *)
Theorem X4_gemini_success_shape :
  forall engineError JSON_parse generateContent products outs,
    fst (Gemini.processProductsBatch engineError JSON_parse generateContent products)
      = Ret outs ->
    exists items,
      fst (Gemini.generateWithRetry engineError JSON_parse generateContent 3)
        = Ret (VArr items)
      /\ length outs = length items
      /\ Forall2
           (fun entry out =>
              exists props name,
                out = VObj props
                /\ lookup (lit "chineseName") props = Some (VStr name)
                /\ (name = UNKNOWN \/ exists p, In p products /\ name = chineseName p)
                /\ (forall k, k <> lit "chineseName" ->
                              lookup k props = lookup k (Gemini.spread entry)))
           items outs.
Proof.
  intros engineError JSON_parse generateContent products outs.
  unfold Gemini.processProductsBatch.
  destruct (Gemini.generateWithRetry engineError JSON_parse generateContent 3)
    as [r evs].
  destruct r as [results|e]; simpl; [|discriminate].
  destruct (callMap engineError results (Gemini.reconcile engineError products))
    as [out|e] eqn:CM; simpl; [|discriminate].
  intros H. injection H as H. subst out.
  apply callMap_inv in CM. destruct CM as [items [E F]]. subst results.
  exists items. split; [reflexivity|].
  split; [symmetry; exact (Forall2_length F)|].
  induction F as [|entry out items outs Hentry _ IH]; constructor; [|exact IH].
  unfold Gemini.reconcile in Hentry.
  destruct (findOriginal engineError products entry) as [original|e] eqn:FO;
    simpl in Hentry; [|discriminate].
  injection Hentry as Hentry. subst out.
  eexists. exists (sourceName original). split; [reflexivity|].
  split; [apply lookup_setProp|].
  split; [|intros k Hk; apply lookup_setProp_other; exact Hk].
  destruct original as [p|]; [|left; reflexivity].
  unfold sourceName. destruct (nonEmpty (chineseName p)); [|left; reflexivity].
  right. exists p. split; [|reflexivity].
  exact (findOriginal_from_batch engineError products entry p FO).
Qed.

(** The theorem at a one-entry answer for a batch of two. *)
Lemma X4_gemini_success_shape_witness :
  exists items,
    fst (Gemini.generateWithRetry sampleEngineError parseEntry sdkEntry 3)
      = Ret (VArr items)
    /\ length [VObj [ (lit "sku", VStr (lit "a")); (lit "note", VStr (lit "n"));
                      (lit "chineseName", VStr (lit "杯子")) ]] = length items
    /\ Forall2
         (fun entry out =>
            exists props name,
              out = VObj props
              /\ lookup (lit "chineseName") props = Some (VStr name)
              /\ (name = UNKNOWN \/ exists p, In p sampleBatch /\ name = chineseName p)
              /\ (forall k, k <> lit "chineseName" ->
                            lookup k props = lookup k (Gemini.spread entry)))
         items
         [VObj [ (lit "sku", VStr (lit "a")); (lit "note", VStr (lit "n"));
                 (lit "chineseName", VStr (lit "杯子")) ]].
Proof.
  apply (X4_gemini_success_shape sampleEngineError parseEntry sdkEntry sampleBatch).
  vm_compute. reflexivity.
Defined.

(* ===================================================================== *)
(** * Further properties: the array heuristic of the DeepSeek adapter *)
(* ===================================================================== *)

Lemma indexOf_first (c : N) (pre rest : jstring) :
  ~ In c pre -> indexOf c (pre ++ c :: rest) = Some (length pre).
Proof.
  induction pre as [|x pre IH]; intros H; simpl.
  - rewrite N.eqb_refl. reflexivity.
  - destruct (N.eqb_spec x c) as [E|E]; [exfalso; apply H; left; exact E|].
    rewrite IH; [reflexivity|]. intros I. apply H. right. exact I.
Qed.

Lemma lastIndexOf_absent (c : N) (s : jstring) :
  ~ In c s -> lastIndexOf c s = None.
Proof.
  induction s as [|x s IH]; intros H; simpl; [reflexivity|].
  rewrite IH by (intros I; apply H; right; exact I).
  destruct (N.eqb_spec x c) as [E|E]; [exfalso; apply H; left; exact E | reflexivity].
Qed.

Lemma lastIndexOf_last (c : N) (pre post : jstring) :
  ~ In c post -> lastIndexOf c (pre ++ c :: post) = Some (length pre).
Proof.
  intros H. induction pre as [|x pre IH]; simpl.
  - rewrite (lastIndexOf_absent c post H), N.eqb_refl. reflexivity.
  - rewrite IH. reflexivity.
Qed.

(** [includes] with a one-unit needle and [indexOf] agree, so the guard of
    the source and the two matches of [extractArray] are the same test. *)
Lemma includes_indexOf (c : N) (s : jstring) :
  includes s [c] = true <-> indexOf c s <> None.
Proof.
  induction s as [|x s IH]; simpl.
  - split; [discriminate | congruence].
  - rewrite N.eqb_sym. destruct (N.eqb_spec x c) as [E|E]; simpl.
    + split; [discriminate | reflexivity].
    + rewrite IH. destruct (indexOf c s); simpl; split; congruence.
Qed.

Lemma includes_lastIndexOf (c : N) (s : jstring) :
  includes s [c] = true <-> lastIndexOf c s <> None.
Proof.
  induction s as [|x s IH]; simpl.
  - split; [discriminate | congruence].
  - rewrite N.eqb_sym. destruct (N.eqb_spec x c) as [E|E]; simpl.
    + split; [intros _; destruct (lastIndexOf c s); discriminate | reflexivity].
    + rewrite IH. destruct (lastIndexOf c s); simpl; split; congruence.
Qed.

(** The heuristic on a text whose first opening bracket comes before its
    last closing bracket. *)
Lemma extractArray_first_to_last :
  forall pre mid post : jstring,
    ~ In LBRACKET pre -> ~ In RBRACKET post ->
    DeepSeek.extractArray (pre ++ LBRACKET :: mid ++ RBRACKET :: post)
    = LBRACKET :: mid ++ [RBRACKET].
Proof.
  intros pre mid post Hpre Hpost. unfold DeepSeek.extractArray.
  rewrite (indexOf_first LBRACKET pre (mid ++ RBRACKET :: post) Hpre).
  replace (pre ++ LBRACKET :: mid ++ RBRACKET :: post)
    with ((pre ++ LBRACKET :: mid) ++ RBRACKET :: post)
    by (rewrite <- app_assoc; reflexivity).
  rewrite (lastIndexOf_last RBRACKET (pre ++ LBRACKET :: mid) post Hpost).
  unfold substring. rewrite length_app. cbn [length].
  rewrite Nat.min_l, Nat.max_r by lia.
  rewrite <- app_assoc. rewrite skipn_app, skipn_all, Nat.sub_diag. cbn [skipn app].
  replace (length pre + S (length mid) + 1 - length pre)%nat
    with (S (length (mid ++ [RBRACKET]))) by (rewrite length_app; simpl; lia).
  cbn [firstn]. f_equal.
  replace (mid ++ RBRACKET :: post) with ((mid ++ [RBRACKET]) ++ post)
    by (rewrite <- app_assoc; reflexivity).
  rewrite firstn_app, firstn_all, Nat.sub_diag. cbn [firstn]. apply app_nil_r.
Qed.

(** X5: when the completion holds an opening bracket and, after it, a
    closing bracket, the text handed to [JSON.parse] runs from the first
    opening bracket to the last closing bracket, both included, whatever
    surrounds them. *)
Theorem X5_extractArray_first_to_last :
  forall pre mid post : jstring,
    ~ In LBRACKET pre -> ~ In RBRACKET post ->
    DeepSeek.extractArray (pre ++ LBRACKET :: mid ++ RBRACKET :: post)
    = LBRACKET :: mid ++ [RBRACKET].
Proof.
  intros pre mid post Hpre Hpost.
  rewrite (extractArray_first_to_last pre mid post Hpre Hpost). reflexivity.
Qed.

(** The theorem at an array wrapped in an object and in prose: the adapter
    parses the bare array. *)
Lemma X5_extractArray_first_to_last_witness :
  DeepSeek.extractArray wrappedContent = lit "[1]"
  /\ DeepSeek.makeRequest sampleEngineError parseBare answersWrapped 0
     = (Ret (VArr [VNum 1]), [Request 0]).
Proof.
  split.
  - exact (X5_extractArray_first_to_last
             (lit "Here you go: {" ++ [DQUOTE] ++ lit "products" ++ [DQUOTE] ++ lit ": ")
             (lit "1") (lit "} done")
             ltac:(vm_compute; intuition discriminate)
             ltac:(vm_compute; intuition discriminate)).
  - vm_compute. reflexivity.
Defined.

(** The heuristic on a text whose last closing bracket comes before its
    first opening bracket. *)
Lemma extractArray_reversed :
  forall pre mid post : jstring,
    ~ In LBRACKET pre -> ~ In LBRACKET mid ->
    ~ In RBRACKET mid -> ~ In RBRACKET post ->
    DeepSeek.extractArray (pre ++ RBRACKET :: mid ++ LBRACKET :: post) = mid.
Proof.
  intros pre mid post Hpre Hmid Hmid' Hpost. unfold DeepSeek.extractArray.
  rewrite (lastIndexOf_last RBRACKET pre (mid ++ LBRACKET :: post)).
  2:{ intros I. apply in_app_or in I. destruct I as [I|[I|I]].
      - exact (Hmid' I).
      - discriminate I.
      - exact (Hpost I). }
  replace (pre ++ RBRACKET :: mid ++ LBRACKET :: post)
    with ((pre ++ RBRACKET :: mid) ++ LBRACKET :: post)
    by (rewrite <- app_assoc; reflexivity).
  rewrite (indexOf_first LBRACKET (pre ++ RBRACKET :: mid) post).
  2:{ intros I. apply in_app_or in I. destruct I as [I|[I|I]].
      - exact (Hpre I).
      - discriminate I.
      - exact (Hmid I). }
  unfold substring. rewrite length_app. cbn [length].
  rewrite Nat.min_r, Nat.max_l by lia.
  rewrite <- app_assoc.
  replace (length pre + 1)%nat with (length (pre ++ [RBRACKET]))
    by (rewrite length_app; reflexivity).
  change (pre ++ (RBRACKET :: mid) ++ LBRACKET :: post)
    with (pre ++ [RBRACKET] ++ mid ++ LBRACKET :: post).
  rewrite (app_assoc pre [RBRACKET]).
  rewrite skipn_app, skipn_all, Nat.sub_diag. cbn [skipn app].
  replace (length (pre ++ [RBRACKET])) with (length pre + 1)%nat
    by (rewrite length_app; reflexivity).
  replace (length pre + S (length mid) - (length pre + 1))%nat
    with (length mid) by lia.
  rewrite firstn_app, firstn_all, Nat.sub_diag. cbn [firstn]. apply app_nil_r.
Qed.

(** X6: when the only closing bracket of the completion comes before its
    only opening bracket, the arguments of [substring] are swapped and the
    text handed to [JSON.parse] is what stands between the two brackets,
    without either. *)
Theorem X6_extractArray_reversed_brackets :
  forall pre mid post : jstring,
    ~ In LBRACKET pre -> ~ In LBRACKET mid ->
    ~ In RBRACKET mid -> ~ In RBRACKET post ->
    DeepSeek.extractArray (pre ++ RBRACKET :: mid ++ LBRACKET :: post) = mid.
Proof.
  intros pre mid post Hpre Hmid Hmid' Hpost.
  rewrite (extractArray_reversed pre mid post Hpre Hmid Hmid' Hpost). reflexivity.
Qed.

(** The theorem at a completion with its brackets in the wrong order: the
    text between them is [null] with a blank on either side. *)
Lemma X6_extractArray_reversed_brackets_witness :
  DeepSeek.extractArray reversedContent = lit " null ".
Proof.
  exact (X6_extractArray_reversed_brackets (lit "a") (lit " null ") (lit "b")
           ltac:(vm_compute; intuition discriminate)
           ltac:(vm_compute; intuition discriminate)
           ltac:(vm_compute; intuition discriminate)
           ltac:(vm_compute; intuition discriminate)).
Defined.

(* ===================================================================== *)
(** * A DeepSeek body that is not an array: what it can hold *)
(* ===================================================================== *)

Lemma indexOf_absent (c : N) (s : jstring) : ~ In c s -> indexOf c s = None.
Proof.
  induction s as [|x s IH]; intros H; simpl; [reflexivity|].
  destruct (N.eqb_spec x c) as [E|E]; [exfalso; apply H; left; exact E|].
  rewrite IH by (intros I; apply H; right; exact I). reflexivity.
Qed.

Lemma first_occurrence (c : N) (s : jstring) :
  In c s -> exists pre rest, s = pre ++ c :: rest /\ ~ In c pre.
Proof.
  induction s as [|x s IH]; intros H; [destruct H|].
  destruct (N.eq_dec x c) as [E|E].
  - subst x. exists [], s. split; [reflexivity | intros []].
  - destruct H as [H|H]; [congruence|].
    destruct (IH H) as [pre [rest [Hs Hpre]]].
    exists (x :: pre), rest. split; [rewrite Hs; reflexivity|].
    intros [I|I]; [exact (E I) | exact (Hpre I)].
Qed.

Lemma last_occurrence (c : N) (s : jstring) :
  In c s -> exists pre post, s = pre ++ c :: post /\ ~ In c post.
Proof.
  induction s as [|x s IH]; intros H; [destruct H|].
  destruct (in_dec N.eq_dec c s) as [I|I].
  - destruct (IH I) as [pre [post [Hs Hpost]]].
    exists (x :: pre), post. split; [rewrite Hs; reflexivity | exact Hpost].
  - destruct H as [H|H]; [|contradiction].
    subst x. exists [], s. split; [reflexivity | exact I].
Qed.

Lemma extractArray_unchanged (s : jstring) :
  ~ In LBRACKET s \/ ~ In RBRACKET s -> DeepSeek.extractArray s = s.
Proof.
  intros [H|H]; unfold DeepSeek.extractArray.
  - rewrite (indexOf_absent LBRACKET s H). reflexivity.
  - rewrite (lastIndexOf_absent RBRACKET s H).
    destruct (indexOf LBRACKET s); reflexivity.
Qed.

(** A text that leaves the heuristic with both brackets in it runs from an
    opening bracket to a closing bracket. *)
Lemma extractArray_brackets (s : jstring) :
  In LBRACKET (DeepSeek.extractArray s) -> In RBRACKET (DeepSeek.extractArray s) ->
  exists mid, DeepSeek.extractArray s = LBRACKET :: mid ++ [RBRACKET].
Proof.
  intros HL HR.
  destruct (in_dec N.eq_dec LBRACKET s) as [IL|NL];
    [|rewrite (extractArray_unchanged s (or_introl NL)) in HL; contradiction].
  destruct (in_dec N.eq_dec RBRACKET s) as [IR|NR];
    [|rewrite (extractArray_unchanged s (or_intror NR)) in HR; contradiction].
  destruct (first_occurrence LBRACKET s IL) as [pre [r1 [E1 Hpre]]].
  destruct (last_occurrence RBRACKET s IR) as [p2 [post [E2 Hpost]]].
  assert (E : pre ++ LBRACKET :: r1 = p2 ++ RBRACKET :: post) by congruence.
  apply app_eq_app in E. destruct E as [l [[Ea Eb]|[Ea Eb]]].
  - destruct l as [|x l]; [discriminate Eb|].
    injection Eb as Ex Eb. subst x post pre.
    assert (Es : s = p2 ++ RBRACKET :: l ++ LBRACKET :: r1)
      by (rewrite E1, <- app_assoc; reflexivity).
    rewrite Es in HL.
    rewrite (extractArray_reversed p2 l r1) in HL.
    + exfalso. apply Hpre. apply in_or_app. right. right. exact HL.
    + intros I. apply Hpre. apply in_or_app. left. exact I.
    + intros I. apply Hpre. apply in_or_app. right. right. exact I.
    + intros I. apply Hpost. apply in_or_app. left. exact I.
    + intros I. apply Hpost. apply in_or_app. right. right. exact I.
  - destruct l as [|x l]; [discriminate Eb|].
    injection Eb as Ex Eb. subst x r1 p2.
    exists l. rewrite E1. apply extractArray_first_to_last; assumption.
Qed.

Section NonArrayBody.

Variable engineError : value -> jstring -> JsError.
Variable JSON_parse : jstring -> res value.
Variable fetch : nat -> FetchOutcome.

Lemma tryBlock_returned (attempt : nat) (v : value) :
  DeepSeek.tryBlock engineError JSON_parse fetch attempt = DeepSeek.Returns v ->
  exists content, JSON_parse (DeepSeek.extractArray content) = Ret v.
Proof.
  unfold DeepSeek.tryBlock.
  destruct (fetch attempt) as [e|st body]; [discriminate|].
  destruct body as [data|e]; destruct (negb (response_ok st)); try discriminate.
  - destruct (Z.eq_dec st 429); destruct (lt_dec attempt 3);
      destruct (DeepSeek.errorMessage engineError data st); discriminate.
  - destruct (DeepSeek.contentOf engineError data) as [content|e]; simpl;
      [|discriminate].
    destruct (JSON_parse (DeepSeek.extractArray content)) as [w|e] eqn:P;
      [|discriminate].
    intros H. injection H as H. subst w. exists content. exact P.
Qed.

Lemma makeRequest_returned (v : value) :
  fst (DeepSeek.makeRequest engineError JSON_parse fetch 0) = Ret v ->
  exists content, JSON_parse (DeepSeek.extractArray content) = Ret v.
Proof.
  intros H.
  destruct (shapeFrom_start engineError JSON_parse fetch)
    as [n [_ [_ [_ [_ [Hret _]]]]]].
  apply Hret in H. exact (tryBlock_returned n v H).
Qed.

(** With a [JSON.parse] that treats brackets as JSON does, a body that is
    not an array never holds an array under [products]. *)
Lemma products_never_a_list (rawResults field : value) :
  bracketFaithful JSON_parse ->
  fst (DeepSeek.makeRequest engineError JSON_parse fetch 0) = Ret rawResults ->
  Array_isArray rawResults = false ->
  getProp engineError rawResults (lit "products") = Ret field ->
  Array_isArray field = false.
Proof.
  intros [H1 H2] Hreq Harr Hfield.
  destruct field as [| | | | |items|]; try reflexivity. exfalso.
  destruct (makeRequest_returned rawResults Hreq) as [content P].
  destruct rawResults as [| | | | | |props]; simpl in Hfield; try discriminate.
  destruct (lookup (lit "products") props) as [x|] eqn:L; [|discriminate].
  injection Hfield as Hfield. subst x.
  destruct (H2 _ props items P L) as [IL IR].
  destruct (extractArray_brackets content IL IR) as [mid E].
  rewrite E in P. apply H1 in P. discriminate P.
Qed.

End NonArrayBody.

(** The sample [JSON.parse] that knows an object with an object under
    [products] treats brackets as JSON does. *)
Lemma parseNested_bracketFaithful : bracketFaithful parseNested.
Proof.
  split.
  - intros mid v. unfold parseNested.
    destruct (jstring_eqb (LBRACKET :: mid ++ [RBRACKET]) nestedText) eqn:E.
    { apply jstring_eqb_eq in E. vm_compute in E. discriminate E. }
    unfold sampleParse.
    destruct (jstring_eqb (LBRACKET :: mid ++ [RBRACKET]) (lit "[]")) eqn:E1.
    { intros H. injection H as H. subst v. reflexivity. }
    destruct (jstring_eqb (LBRACKET :: mid ++ [RBRACKET]) (lit "null")) eqn:E2;
      discriminate.
  - intros s props items. unfold parseNested.
    destruct (jstring_eqb s nestedText) eqn:E.
    { intros H. injection H as H. subst props. vm_compute. discriminate. }
    unfold sampleParse.
    destruct (jstring_eqb s (lit "[]")); [discriminate|].
    destruct (jstring_eqb s (lit "null")); discriminate.
Qed.

(** C10 (amended): when the parsed body is valid JSON that is neither an
    array nor [null], reading its [products] raises nothing.  When
    [products] is absent or falsy the adapter returns the empty result
    list.  When [products] is truthy and not an array, the adapter fails:
    the value has no [map], and the error leaves the adapter behind its
    prefix.  And with a [JSON.parse] that treats brackets as JSON does,
    [products] is never an array: a completion that holds an array is cut
    down to that array before it is parsed. *)
Theorem C10_non_array_body :
  forall engineError JSON_parse fetch products apiKey rawResults evs,
    DeepSeek.makeRequest engineError JSON_parse fetch 0 = (Ret rawResults, evs) ->
    Array_isArray rawResults = false ->
    rawResults <> VNull -> rawResults <> VUndefined ->
    exists field,
      getProp engineError rawResults (lit "products") = Ret field
      /\ (truthy field = false ->
          DeepSeek.processProductsWithDeepSeek engineError JSON_parse fetch products apiKey
          = (Ret [], evs))
      /\ (truthy field = true -> Array_isArray field = false ->
          DeepSeek.processProductsWithDeepSeek engineError JSON_parse fetch products apiKey
          = (Throw (new_Error
                      (DeepSeek.FAILURE_PREFIX
                       ++ template_message
                            (err_message (engineError field (lit "map"))))),
             evs))
      /\ (bracketFaithful JSON_parse -> Array_isArray field = false).
Proof.
  intros engineError JSON_parse fetch products apiKey rawResults evs Hreq Harr Hn Hu.
  destruct (getProp_total engineError _ (lit "products") Hn Hu) as [field Hfield].
  exists field. split; [exact Hfield|]. split; [|split].
  - intros Hfalsy. unfold DeepSeek.processProductsWithDeepSeek, DeepSeek.resultList.
    rewrite Hreq. simpl. rewrite Harr, Hfield. simpl. rewrite Hfalsy. reflexivity.
  - intros Htruthy Hnot.
    unfold DeepSeek.processProductsWithDeepSeek, DeepSeek.resultList.
    rewrite Hreq. simpl. rewrite Harr, Hfield. simpl. rewrite Htruthy.
    destruct field; simpl in *; try discriminate; reflexivity.
  - intros HF.
    apply (products_never_a_list engineError JSON_parse fetch rawResults field HF);
      [rewrite Hreq; reflexivity | exact Harr | exact Hfield].
Qed.

(** The theorem at a body that is the number 7, which has no [products],
    and at a body whose [products] is an object: the empty list for the
    first, a failure for the second. *)
Lemma C10_non_array_body_witness :
  DeepSeek.processProductsWithDeepSeek sampleEngineError parseSeven answersSeven
    sampleBatch (lit "sk-1")
  = (Ret [], [Request 0])
  /\ DeepSeek.processProductsWithDeepSeek sampleEngineError parseNested answersNested
       sampleBatch (lit "sk-1")
     = (Throw (new_Error (DeepSeek.FAILURE_PREFIX ++ lit "TypeError")), [Request 0])
  /\ Array_isArray (VObj [(lit "a", VNum 1)]) = false.
Proof.
  split; [|split].
  - destruct (C10_non_array_body sampleEngineError parseSeven answersSeven
                sampleBatch (lit "sk-1") (VNum 7) [Request 0]
                ltac:(vm_compute; reflexivity) eq_refl
                ltac:(discriminate) ltac:(discriminate))
      as [field [Hfield [Hfalsy _]]].
    injection Hfield as Hfield. subst field. exact (Hfalsy eq_refl).
  - destruct (C10_non_array_body sampleEngineError parseNested answersNested
                sampleBatch (lit "sk-1")
                (VObj [(lit "products", VObj [(lit "a", VNum 1)])]) [Request 0]
                ltac:(vm_compute; reflexivity) eq_refl
                ltac:(discriminate) ltac:(discriminate))
      as [field [Hfield [_ [Htruthy _]]]].
    vm_compute in Hfield. injection Hfield as Hfield. subst field.
    exact (Htruthy eq_refl eq_refl).
  - destruct (C10_non_array_body sampleEngineError parseNested answersNested
                sampleBatch (lit "sk-1")
                (VObj [(lit "products", VObj [(lit "a", VNum 1)])]) [Request 0]
                ltac:(vm_compute; reflexivity) eq_refl
                ltac:(discriminate) ltac:(discriminate))
      as [field [Hfield [_ [_ Hnever]]]].
    vm_compute in Hfield. injection Hfield as Hfield. subst field.
    exact (Hnever parseNested_bracketFaithful).
Defined.

(* ===================================================================== *)
(** * Further properties: what the scheduler sees of an adapter call *)
(* ===================================================================== *)

Lemma Gemini_events engineError JSON_parse generateContent products :
  snd (Gemini.processProductsBatch engineError JSON_parse generateContent products)
  = snd (Gemini.generateWithRetry engineError JSON_parse generateContent 3).
Proof.
  unfold Gemini.processProductsBatch.
  destruct (Gemini.generateWithRetry engineError JSON_parse generateContent 3)
    as [r evs].
  destruct (res_bind r _); reflexivity.
Qed.

Lemma DeepSeek_events engineError JSON_parse fetch products apiKey :
  snd (DeepSeek.processProductsWithDeepSeek engineError JSON_parse fetch products apiKey)
  = snd (DeepSeek.makeRequest engineError JSON_parse fetch 0).
Proof.
  unfold DeepSeek.processProductsWithDeepSeek.
  destruct (DeepSeek.makeRequest engineError JSON_parse fetch 0) as [r evs].
  destruct (res_bind r _); reflexivity.
Qed.

(** X7: whatever the provider does, a Gemini call makes one to three
    requests and a DeepSeek call one to four; an error that leaves the
    Gemini adapter is always the same fixed message, whatever the cause,
    and an error that leaves the DeepSeek adapter always carries a message
    that starts with the adapter's prefix; neither carries a status. *)
Theorem X7_adapter_calls_bounded_and_wrapped :
  forall engineError JSON_parse generateContent fetch products apiKey,
    (1 <= length (requests (snd (Gemini.processProductsBatch engineError JSON_parse
                                   generateContent products))) <= 3)%nat
    /\ (forall e,
           fst (Gemini.processProductsBatch engineError JSON_parse
                  generateContent products) = Throw e ->
           e = {| err_message := Some Gemini.FAILURE; err_status := None |})
    /\ (1 <= length (requests (snd (DeepSeek.processProductsWithDeepSeek engineError
                                      JSON_parse fetch products apiKey))) <= 4)%nat
    /\ (forall e,
           fst (DeepSeek.processProductsWithDeepSeek engineError JSON_parse
                  fetch products apiKey) = Throw e ->
           exists cause,
             e = {| err_message := Some (DeepSeek.FAILURE_PREFIX ++ cause);
                    err_status := None |}).
Proof.
  intros engineError JSON_parse generateContent fetch products apiKey.
  split; [|split; [|split]].
  - rewrite Gemini_events. unfold Gemini.generateWithRetry.
    destruct (retryLoop_shape engineError JSON_parse generateContent 3
                3%nat 0%nat Gemini.undefinedError eq_refl ltac:(lia))
      as [n [Hn [Hreq _]]].
    rewrite Hreq, length_seq. lia.
  - intros e. unfold Gemini.processProductsBatch.
    destruct (Gemini.generateWithRetry engineError JSON_parse generateContent 3)
      as [r evs].
    destruct (res_bind r _); simpl; intros H; [discriminate|].
    injection H as H. subst e. reflexivity.
  - rewrite DeepSeek_events.
    destruct (shapeFrom_start engineError JSON_parse fetch) as [n [Hn [Hreq _]]].
    rewrite Hreq, length_seq. lia.
  - intros e. unfold DeepSeek.processProductsWithDeepSeek.
    destruct (DeepSeek.makeRequest engineError JSON_parse fetch 0) as [r evs].
    destruct (res_bind r _) as [out|error]; simpl; intros H; [discriminate|].
    injection H as H. subst e.
    exists (template_message (err_message error)). reflexivity.
Qed.

(** X8: when the completion parses to a value that is not an array and
    whose [products] is truthy without being an array, the DeepSeek adapter
    neither returns that value nor an empty list: the missing [map] makes
    the call fail, with the engine's message behind the adapter's prefix
    and no further request. *)
Theorem X8_deepseek_products_not_a_list :
  forall engineError JSON_parse fetch products apiKey rawResults evs field,
    DeepSeek.makeRequest engineError JSON_parse fetch 0 = (Ret rawResults, evs) ->
    Array_isArray rawResults = false ->
    getProp engineError rawResults (lit "products") = Ret field ->
    truthy field = true ->
    Array_isArray field = false ->
    DeepSeek.processProductsWithDeepSeek engineError JSON_parse fetch products apiKey
    = (Throw (new_Error
                (DeepSeek.FAILURE_PREFIX
                 ++ template_message (err_message (engineError field (lit "map"))))),
       evs).
Proof.
  intros engineError JSON_parse fetch products apiKey rawResults evs field
         Hreq Harr Hfield Htruthy Hnot.
  unfold DeepSeek.processProductsWithDeepSeek, DeepSeek.resultList.
  rewrite Hreq. simpl. rewrite Harr, Hfield. simpl. rewrite Htruthy.
  destruct field; simpl in *; try discriminate; reflexivity.
Qed.

(** The theorem at a completion whose [products] is an object. *)
Lemma X8_deepseek_products_not_a_list_witness :
  DeepSeek.processProductsWithDeepSeek sampleEngineError parseNested answersNested
    sampleBatch (lit "sk-1")
  = (Throw (new_Error (DeepSeek.FAILURE_PREFIX ++ lit "TypeError")), [Request 0]).
Proof.
  exact (X8_deepseek_products_not_a_list sampleEngineError parseNested answersNested
           sampleBatch (lit "sk-1")
           (VObj [(lit "products", VObj [(lit "a", VNum 1)])]) [Request 0]
           (VObj [(lit "a", VNum 1)])
           ltac:(vm_compute; reflexivity) eq_refl ltac:(vm_compute; reflexivity)
           eq_refl eq_refl).
Defined.

(* ===================================================================== *)
(** * Further properties: the shape of every run *)
(* ===================================================================== *)



Lemma advance_advance (a b : nat) (s : ProcessingStatus) :
  advance a (advance b s) = advance (b + a) s.
Proof. unfold advance. simpl. f_equal. lia. Qed.

Section SchedulerShape.

Variable inputs : list ProductInput.
Variable batchSize : nat.
Hypothesis batchSize_pos : (0 < batchSize)%nat.
Variable adapter : Adapter.


(** Every state the loop writes holds the results of the state before it,
    with something appended. *)
Lemma unrolled_growing (bs : list (list ProductInput)) :
  forall i k st r st' steps tail,
    unrolled batchSize adapter bs i k st = (r, st', steps) ->
    growing (results st') tail ->
    growing (results st) (map results (updates steps) ++ tail).
Proof.
  assert (Same : forall (a : list ProductResult), exists added, a = a ++ added).
  { intros a. exists []. symmetry. apply app_nil_r. }
  induction bs as [|batch rest IH]; intros i k st r st' steps tail E G; simpl in E.
  - injection E as _ E2 E3. subst. exact G.
  - unfold pace in E.
    destruct (adapter k batch) as [batchResults|err].
    + destruct (0 <? i)%nat;
        match type of E with
        | context [unrolled batchSize adapter rest ?a ?b ?c] =>
            destruct (unrolled batchSize adapter rest a b c)
              as [[r0 st0] steps0] eqn:E0
        end;
        injection E as _ E2 E3; subst;
        pose proof (IH _ _ _ _ _ _ tail E0 G) as G0; simpl in *;
        repeat (split; [apply Same|]);
        (split; [exists batchResults; reflexivity|]);
        (split; [apply Same|]); exact G0.
    + destruct (0 <? i)%nat; injection E as _ E2 E3; subst; simpl in *;
        repeat (split; [apply Same|]); exact G.
Qed.

(** When every batch is answered, the status has advanced by the number of
    inputs in the batches. *)
Lemma unrolled_answered_status (bs : list (list ProductInput)) :
  forall outs i k st r st' steps,
    answered adapter k bs outs ->
    unrolled batchSize adapter bs i k st = (r, st', steps) ->
    (completedOf st <= total (status st))%nat ->
    status st' = advance (length (concat bs)) (status st).
Proof.
  induction bs as [|batch rest IH]; intros outs i k st r st' steps Hans E Hle;
    destruct outs as [|o outs]; simpl in Hans; try contradiction; simpl in E.
  - injection E as _ E2 _. subst st'. unfold advance, completedOf in *. simpl.
    destruct (status st) as [t c p er]. simpl in *. f_equal. lia.
  - destruct Hans as [Hb Hrest]. rewrite Hb in E.
    destruct (pace_spec i st) as [Hst _].
    destruct (pace i st) as [st1 paced]. simpl in Hst.
    destruct (unrolled batchSize adapter rest (i + batchSize) (k + 1) _)
      as [[r0 st0] steps0] eqn:E0.
    injection E as _ E2 _. subst st0.
    rewrite (IH outs _ _ _ _ _ _ Hrest E0)
      by (unfold completedOf; simpl; lia).
    cbn [concat status setStatus setResults].
    rewrite Hst, advance_advance, length_app. reflexivity.
Qed.

Variable interrupted : jstring -> jstring.


Lemma run_growing (st : RunState) :
  exists st0 st1 rest,
    updates (snd (@run inputs batchSize batchSize_pos adapter interrupted st))
    = st0 :: st1 :: rest
    /\ results st0 = results st
    /\ results st1 = []
    /\ growing (results st1) (map results rest).
Proof.
  assert (Same : forall (a : list ProductResult), exists added, a = a ++ added).
  { intros a. exists []. symmetry. apply app_nil_r. }
  rewrite run_unrolled. cbv zeta.
  set (st0 := setStatus _ st). set (st1 := setResults _ st0).
  destruct (unrolled batchSize adapter (batches batchSize inputs) 0 0 st1)
    as [[r st2] steps] eqn:E.
  exists st0, st1.
  destruct r as [u|err]; cbn [snd]; eexists;
    (split; [rewrite !updates_app; simpl; reflexivity|]);
    (split; [reflexivity|]); (split; [reflexivity|]); rewrite !map_app;
    apply (unrolled_growing _ _ _ _ _ _ _ _ E); simpl;
    repeat (split; [apply Same|]); exact I.
Qed.

Lemma run_flags (st : RunState) :
  exists body st4,
    updates (snd (@run inputs batchSize batchSize_pos adapter interrupted st))
    = body ++ [st4; fst (@run inputs batchSize batchSize_pos adapter interrupted st)]
    /\ Forall (fun s => isProcessing (status s) = true
                        /\ total (status s) = length inputs) body
    /\ isProcessing (status st4) = false
    /\ isProcessing (status (fst (@run inputs batchSize batchSize_pos adapter
                                    interrupted st))) = false
    /\ isWaitingForNextBatch (fst (@run inputs batchSize batchSize_pos adapter
                                     interrupted st)) = false
    /\ total (status (fst (@run inputs batchSize batchSize_pos adapter
                             interrupted st))) = length inputs.
Proof.
  rewrite run_unrolled. cbv zeta.
  set (st0 := setStatus _ st). set (st1 := setResults _ st0).
  destruct (unrolled batchSize adapter (batches batchSize inputs) 0 0 st1)
    as [[r st2] steps] eqn:E.
  pose proof (unrolled_last _ _ _ _ _ _ _ _ _ E) as Hlast.
  destruct (unrolled_progress batchSize batchSize_pos adapter _ _ _ _ _ _ _ E) as [F _];
    [unfold completedOf; simpl; lia|].
  assert (F' : Forall (fun s => isProcessing (status s) = true
                                /\ total (status s) = length inputs)
                      (updates steps)).
  { eapply Forall_impl; [|exact F]. simpl. intros s [Hs1 [Hs2 _]].
    split; assumption. }
  assert (H2 : isProcessing (status st2) = true
               /\ total (status st2) = length inputs).
  { rewrite Hlast.
    apply (Forall_last (fun s => isProcessing (status s) = true
                                 /\ total (status s) = length inputs));
      [exact F' | split; reflexivity]. }
  destruct H2 as [P2 T2].
  destruct r as [u|err]; cbn [fst snd].
  - exists ([st0; st1] ++ updates steps). eexists.
    split; [rewrite !updates_app; simpl; rewrite <- ?app_assoc; reflexivity|].
    split; [repeat (apply Forall_cons; [split; reflexivity|]); exact F'|].
    simpl. repeat split; try reflexivity. exact T2.
  - exists ([st0; st1] ++ updates steps
            ++ [setStatus (withError (interrupted (template_message (err_message err))))
                  st2]).
    eexists.
    split; [rewrite !updates_app; simpl; rewrite <- ?app_assoc; reflexivity|].
    split.
    + repeat (apply Forall_cons; [split; reflexivity|]).
      apply Forall_app. split; [exact F'|].
      apply Forall_cons; [|apply Forall_nil]. simpl. split; assumption.
    + simpl. repeat split; try reflexivity. exact T2.
Qed.

Lemma run_success_state (st : RunState) (outs : list (list ProductResult)) :
  answered adapter 0 (batches batchSize inputs) outs ->
  fst (@run inputs batchSize batchSize_pos adapter interrupted st)
  = {| results := concat outs;
       isWaitingForNextBatch := false;
       status := {| total := length inputs; completed := length inputs;
                    isProcessing := false; error := None |} |}.
Proof.
  intros Hans. rewrite run_unrolled. cbv zeta.
  set (st0 := setStatus _ st). set (st1 := setResults _ st0).
  destruct (unrolled batchSize adapter (batches batchSize inputs) 0 0 st1)
    as [[r st2] steps] eqn:E.
  destruct (unrolled_answered _ _ _ _ _ _ _ _ _ _ Hans E) as [Hr [_ Hrs]].
  pose proof (unrolled_answered_status _ _ _ _ _ _ _ _ Hans E
                ltac:(unfold completedOf; simpl; lia)) as Hst.
  subst r. cbn [fst].
  unfold setIsWaitingForNextBatch, setStatus. simpl. rewrite Hrs, Hst. simpl.
  rewrite (batches_concat batchSize inputs batchSize_pos).
  unfold stopped, advance. simpl. rewrite Nat.min_id. reflexivity.
Qed.

End SchedulerShape.

Lemma App_handleProcess_rejected_trace gem ds (app : App.AppState) :
  parseInput (App.rawInput app) = []
  \/ (App.provider app = App.deepseek /\ trim (App.deepSeekKey app) = []) ->
  snd (App.handleProcess gem ds app) = [Alert ALERT_NO_DATA]
  \/ snd (App.handleProcess gem ds app) = [Alert App.ALERT_NO_KEY; SetShowSettings true].
Proof.
  intros H. unfold App.handleProcess.
  destruct (parseInput (App.rawInput app)) as [|p ps] eqn:Ein; simpl.
  - left. reflexivity.
  - destruct H as [H | [Hp Hk]]; [discriminate|].
    rewrite Hp, Hk. simpl. right. reflexivity.
Qed.

Lemma AppDeepSeek_handleProcess_rejected_trace ds (app : AppDeepSeek.AppState) :
  parseInput (AppDeepSeek.rawInput app) = [] \/ trim (AppDeepSeek.apiKey app) = [] ->
  snd (AppDeepSeek.handleProcess ds app) = [Alert ALERT_NO_DATA]
  \/ snd (AppDeepSeek.handleProcess ds app) = [Alert AppDeepSeek.ALERT_NO_KEY].
Proof.
  intros H. unfold AppDeepSeek.handleProcess.
  destruct (nonEmpty (trim (AppDeepSeek.apiKey app))) eqn:Ek; simpl.
  - destruct H as [H | H]; [| rewrite H in Ek; discriminate].
    rewrite H. simpl. left. reflexivity.
  - right. reflexivity.
Qed.

(** A property of traces that holds of the two rejections and of every run
    holds of every request, in either revision. *)
Lemma App_handleProcess_trace (P : list Step -> Prop) gem ds (app : App.AppState) :
  P [Alert ALERT_NO_DATA] ->
  P [Alert App.ALERT_NO_KEY; SetShowSettings true] ->
  (forall inputs batchSize (batchSize_pos : (0 < batchSize)%nat) adapter,
      P (snd (@run inputs batchSize batchSize_pos adapter App.interrupted
                (App.runState app)))) ->
  P (snd (App.handleProcess gem ds app)).
Proof.
  intros Hdata Hkey Hrun.
  destruct (inputs_nil_dec (parseInput (App.rawInput app))) as [Hnil|Hin].
  { destruct (App_handleProcess_rejected_trace gem ds app (or_introl Hnil)) as [E|E];
      rewrite E; assumption. }
  destruct (App_key_dec app) as [Hk|Hk].
  { destruct (App_handleProcess_rejected_trace gem ds app (or_intror Hk)) as [E|E];
      rewrite E; assumption. }
  rewrite (App_handleProcess_accepted gem ds app Hin Hk). cbn [snd]. apply Hrun.
Qed.

Lemma AppDeepSeek_handleProcess_trace (P : list Step -> Prop) ds
  (app : AppDeepSeek.AppState) :
  P [Alert ALERT_NO_DATA] ->
  P [Alert AppDeepSeek.ALERT_NO_KEY] ->
  (forall inputs batchSize (batchSize_pos : (0 < batchSize)%nat) adapter,
      P (snd (@run inputs batchSize batchSize_pos adapter AppDeepSeek.interrupted
                (AppDeepSeek.runState app)))) ->
  P (snd (AppDeepSeek.handleProcess ds app)).
Proof.
  intros Hdata Hkey Hrun.
  destruct (inputs_nil_dec (parseInput (AppDeepSeek.rawInput app))) as [Hnil|Hin].
  { destruct (AppDeepSeek_handleProcess_rejected_trace ds app (or_introl Hnil))
      as [E|E]; rewrite E; assumption. }
  destruct (jstring_nil_dec (trim (AppDeepSeek.apiKey app))) as [Hk|Hk].
  { destruct (AppDeepSeek_handleProcess_rejected_trace ds app (or_intror Hk))
      as [E|E]; rewrite E; assumption. }
  rewrite (AppDeepSeek_handleProcess_accepted ds app Hin Hk). cbn [snd]. apply Hrun.
Qed.


(** X10: in either revision and whatever the adapters do, a request either
    writes no run state at all, or its last two writes are those of the
    [finally] block: every state written before them has [isProcessing] set,
    the last two have it cleared, and the last one, which is the state the
    request leaves behind, has the waiting flag cleared as well. *)
Theorem X10_processing_flag_discipline :
  (forall gem ds (app : App.AppState),
      updates (snd (App.handleProcess gem ds app)) = []
      \/ exists body st4,
           updates (snd (App.handleProcess gem ds app))
           = body ++ [st4; App.runState (fst (App.handleProcess gem ds app))]
           /\ Forall (fun s => isProcessing (status s) = true) body
           /\ isProcessing (status st4) = false
           /\ isProcessing
                (status (App.runState (fst (App.handleProcess gem ds app)))) = false
           /\ isWaitingForNextBatch
                (App.runState (fst (App.handleProcess gem ds app))) = false)
  /\ (forall ds (app : AppDeepSeek.AppState),
      updates (snd (AppDeepSeek.handleProcess ds app)) = []
      \/ exists body st4,
           updates (snd (AppDeepSeek.handleProcess ds app))
           = body ++ [st4; AppDeepSeek.runState (fst (AppDeepSeek.handleProcess ds app))]
           /\ Forall (fun s => isProcessing (status s) = true) body
           /\ isProcessing (status st4) = false
           /\ isProcessing
                (status (AppDeepSeek.runState (fst (AppDeepSeek.handleProcess ds app))))
              = false
           /\ isWaitingForNextBatch
                (AppDeepSeek.runState (fst (AppDeepSeek.handleProcess ds app))) = false).
Proof.
  split.
  - intros gem ds app.
    destruct (inputs_nil_dec (parseInput (App.rawInput app))) as [Hnil|Hin].
    { left. exact (proj1 (App_handleProcess_rejected gem ds app (or_introl Hnil))). }
    destruct (App_key_dec app) as [Hk|Hk].
    { left. exact (proj1 (App_handleProcess_rejected gem ds app (or_intror Hk))). }
    right. rewrite (App_handleProcess_accepted gem ds app Hin Hk). cbn [fst snd].
    destruct (run_flags (parseInput (App.rawInput app)) _
                (App.batchSizeOf_pos (App.provider app))
                (App.dispatch gem ds app) App.interrupted (App.runState app))
      as [body [st4 [Hu [F [H4 [H5 [H6 _]]]]]]].
    exists body, st4. split; [exact Hu|]. split.
    + eapply Forall_impl; [|exact F]. simpl. intros s [Hs _]. exact Hs.
    + repeat split; assumption.
  - intros ds app.
    destruct (inputs_nil_dec (parseInput (AppDeepSeek.rawInput app))) as [Hnil|Hin].
    { left. exact (proj1 (AppDeepSeek_handleProcess_rejected ds app (or_introl Hnil))). }
    destruct (jstring_nil_dec (trim (AppDeepSeek.apiKey app))) as [Hk|Hk].
    { left. exact (proj1 (AppDeepSeek_handleProcess_rejected ds app (or_intror Hk))). }
    right. rewrite (AppDeepSeek_handleProcess_accepted ds app Hin Hk). cbn [fst snd].
    destruct (run_flags (parseInput (AppDeepSeek.rawInput app)) _
                AppDeepSeek.batchSize_pos (ds (AppDeepSeek.apiKey app))
                AppDeepSeek.interrupted (AppDeepSeek.runState app))
      as [body [st4 [Hu [F [H4 [H5 [H6 _]]]]]]].
    exists body, st4. split; [exact Hu|]. split.
    + eapply Forall_impl; [|exact F]. simpl. intros s [Hs _]. exact Hs.
    + repeat split; assumption.
Qed.

(** X11: in either revision and whatever the adapters do, a request that
    writes the run state at all writes it at least twice: the first write
    leaves the results of the previous request in place, the second holds no
    result at all, and from there on every state written holds the results
    of the state before it with something appended: no result is removed,
    replaced or reordered, by a failure either. *)
Theorem X11_results_only_grow :
  (forall gem ds (app : App.AppState),
      updates (snd (App.handleProcess gem ds app)) = []
      \/ exists st0 st1 rest,
           updates (snd (App.handleProcess gem ds app)) = st0 :: st1 :: rest
           /\ results st0 = results (App.runState app)
           /\ results st1 = []
           /\ growing (results st1) (map results rest))
  /\ (forall ds (app : AppDeepSeek.AppState),
      updates (snd (AppDeepSeek.handleProcess ds app)) = []
      \/ exists st0 st1 rest,
           updates (snd (AppDeepSeek.handleProcess ds app)) = st0 :: st1 :: rest
           /\ results st0 = results (AppDeepSeek.runState app)
           /\ results st1 = []
           /\ growing (results st1) (map results rest)).
Proof.
  split.
  - intros gem ds app.
    apply (App_handleProcess_trace
             (fun steps =>
                updates steps = []
                \/ exists st0 st1 rest,
                     updates steps = st0 :: st1 :: rest
                     /\ results st0 = results (App.runState app)
                     /\ results st1 = []
                     /\ growing (results st1) (map results rest))).
    + left. reflexivity.
    + left. reflexivity.
    + intros inputs batchSize batchSize_pos adapter. right. apply run_growing.
  - intros ds app.
    apply (AppDeepSeek_handleProcess_trace
             (fun steps =>
                updates steps = []
                \/ exists st0 st1 rest,
                     updates steps = st0 :: st1 :: rest
                     /\ results st0 = results (AppDeepSeek.runState app)
                     /\ results st1 = []
                     /\ growing (results st1) (map results rest))).
    + left. reflexivity.
    + left. reflexivity.
    + intros inputs batchSize batchSize_pos adapter. right. apply run_growing.
Qed.

(** X12: in either revision, when a request is accepted and every batch is
    answered, the state it leaves behind is fully determined, whatever the
    state before it was: the results are the answers in batch order, the
    total and the completed count both equal the number of parsed records,
    no error is set, and both flags are cleared. *)
Theorem X12_successful_run_final_state :
  (forall gem ds (app : App.AppState) outs,
      parseInput (App.rawInput app) <> [] ->
      (App.provider app = App.deepseek -> trim (App.deepSeekKey app) <> []) ->
      answered (App.dispatch gem ds app) 0%nat
        (batches (App.batchSizeOf (App.provider app)) (parseInput (App.rawInput app)))
        outs ->
      App.runState (fst (App.handleProcess gem ds app))
      = {| results := concat outs;
           isWaitingForNextBatch := false;
           status := {| total := length (parseInput (App.rawInput app));
                        completed := length (parseInput (App.rawInput app));
                        isProcessing := false; error := None |} |})
  /\ (forall ds (app : AppDeepSeek.AppState) outs,
      parseInput (AppDeepSeek.rawInput app) <> [] ->
      trim (AppDeepSeek.apiKey app) <> [] ->
      answered (ds (AppDeepSeek.apiKey app)) 0%nat
        (batches AppDeepSeek.batchSize (parseInput (AppDeepSeek.rawInput app))) outs ->
      AppDeepSeek.runState (fst (AppDeepSeek.handleProcess ds app))
      = {| results := concat outs;
           isWaitingForNextBatch := false;
           status := {| total := length (parseInput (AppDeepSeek.rawInput app));
                        completed := length (parseInput (AppDeepSeek.rawInput app));
                        isProcessing := false; error := None |} |}).
Proof.
  split.
  - intros gem ds app outs Hin Hk Hans.
    rewrite (App_handleProcess_accepted gem ds app Hin Hk). cbn [fst].
    simpl App.runState. apply run_success_state. exact Hans.
  - intros ds app outs Hin Hk Hans.
    rewrite (AppDeepSeek_handleProcess_accepted ds app Hin Hk). cbn [fst].
    simpl AppDeepSeek.runState. apply run_success_state. exact Hans.
Qed.

(** The theorem at twelve lines and an adapter that echoes, started from a
    state that holds an older result and an older error. *)
Lemma X12_successful_run_final_state_witness :
  App.runState (fst (App.handleProcess echoes (fun _ => echoes) usedApp))
  = {| results := concat (map (map echo) (batches 5 (parseInput twelveLines)));
       isWaitingForNextBatch := false;
       status := {| total := length (parseInput twelveLines);
                    completed := length (parseInput twelveLines);
                    isProcessing := false; error := None |} |}
  /\ AppDeepSeek.runState
       (fst (AppDeepSeek.handleProcess (fun _ => echoes) sampleAppDeepSeek))
     = {| results := concat (map (map echo) (batches 5 (parseInput twelveLines)));
          isWaitingForNextBatch := false;
          status := {| total := length (parseInput twelveLines);
                       completed := length (parseInput twelveLines);
                       isProcessing := false; error := None |} |}.
Proof.
  split.
  - apply (proj1 X12_successful_run_final_state echoes (fun _ => echoes) usedApp
             (map (map echo) (batches 5 (parseInput twelveLines)))).
    + vm_compute. discriminate.
    + intros _. vm_compute. discriminate.
    + vm_compute. repeat split.
  - apply (proj2 X12_successful_run_final_state (fun _ => echoes) sampleAppDeepSeek
             (map (map echo) (batches 5 (parseInput twelveLines)))).
    + vm_compute. discriminate.
    + vm_compute. discriminate.
    + vm_compute. repeat split.
Defined.

(** X13: in either revision, when a request is accepted and the adapter
    fails on some batch after answering all the batches before it, no later
    batch is sent, and the state left behind holds the answers of the
    batches before the failing one, their number of inputs as the completed
    count, both flags cleared, and as error the revision's fixed sentence
    around the message of the error ([undefined] when it has none). *)
Theorem X13_failed_run_final_state :
  (forall gem ds (app : App.AppState) done failing rest outs e,
      (App.provider app = App.deepseek -> trim (App.deepSeekKey app) <> []) ->
      batches (App.batchSizeOf (App.provider app)) (parseInput (App.rawInput app))
      = done ++ failing :: rest ->
      answered (App.dispatch gem ds app) 0%nat done outs ->
      App.dispatch gem ds app (length done) failing = Throw e ->
      calls (snd (App.handleProcess gem ds app)) = done ++ [failing]
      /\ App.runState (fst (App.handleProcess gem ds app))
         = {| results := concat outs;
              isWaitingForNextBatch := false;
              status := {| total := length (parseInput (App.rawInput app));
                           completed := length (concat done);
                           isProcessing := false;
                           error := Some (lit "处理中断: "
                                          ++ template_message (err_message e)
                                          ++ lit "。建议导出已完成的部分并检查网络/API Key。")
                        |} |})
  /\ (forall ds (app : AppDeepSeek.AppState) done failing rest outs e,
      trim (AppDeepSeek.apiKey app) <> [] ->
      batches AppDeepSeek.batchSize (parseInput (AppDeepSeek.rawInput app))
      = done ++ failing :: rest ->
      answered (ds (AppDeepSeek.apiKey app)) 0%nat done outs ->
      ds (AppDeepSeek.apiKey app) (length done) failing = Throw e ->
      calls (snd (AppDeepSeek.handleProcess ds app)) = done ++ [failing]
      /\ AppDeepSeek.runState (fst (AppDeepSeek.handleProcess ds app))
         = {| results := concat outs;
              isWaitingForNextBatch := false;
              status := {| total := length (parseInput (AppDeepSeek.rawInput app));
                           completed := length (concat done);
                           isProcessing := false;
                           error := Some (lit "处理中断: "
                                          ++ template_message (err_message e)
                                          ++ lit "。请检查 API Key 余额或网络连接。")
                        |} |}).
Proof.
  assert (S : forall st : RunState,
             st = {| results := results st;
                     isWaitingForNextBatch := isWaitingForNextBatch st;
                     status := status st |})
    by (intros [? ? ?]; reflexivity).
  split.
  - intros gem ds app done failing rest outs e Hkey Hb Hans Hfail.
    assert (Hin : parseInput (App.rawInput app) <> []).
    { intros Hnil. rewrite Hnil in Hb. destruct done; discriminate. }
    rewrite (App_handleProcess_accepted gem ds app Hin Hkey). cbn [fst snd].
    destruct (run_failure (parseInput (App.rawInput app)) _
                (App.batchSizeOf_pos (App.provider app))
                (App.dispatch gem ds app) App.interrupted (App.runState app)
                done failing rest outs e Hb Hans Hfail) as [Hc [Hr [Hw Hs]]].
    split; [exact Hc|]. simpl App.runState.
    rewrite (S (fst (run _ _ _ _ _))), Hr, Hw, Hs, length_concat. reflexivity.
  - intros ds app done failing rest outs e Hkey Hb Hans Hfail.
    assert (Hin : parseInput (AppDeepSeek.rawInput app) <> []).
    { intros Hnil. rewrite Hnil in Hb. destruct done; discriminate. }
    rewrite (AppDeepSeek_handleProcess_accepted ds app Hin Hkey). cbn [fst snd].
    destruct (run_failure (parseInput (AppDeepSeek.rawInput app)) _
                AppDeepSeek.batchSize_pos (ds (AppDeepSeek.apiKey app))
                AppDeepSeek.interrupted (AppDeepSeek.runState app)
                done failing rest outs e Hb Hans Hfail) as [Hc [Hr [Hw Hs]]].
    split; [exact Hc|]. simpl AppDeepSeek.runState.
    rewrite (S (fst (run _ _ _ _ _))), Hr, Hw, Hs, length_concat. reflexivity.
Qed.

(** The theorem at twelve lines and an adapter that fails on its second
    call. *)
Lemma X13_failed_run_final_state_witness :
  (calls (snd (App.handleProcess failsSecond (fun _ => failsSecond) sampleApp))
   = [firstn 4 (parseInput twelveLines)] ++ [firstn 4 (skipn 4 (parseInput twelveLines))]
   /\ App.runState (fst (App.handleProcess failsSecond (fun _ => failsSecond) sampleApp))
      = {| results := concat [map echo (firstn 4 (parseInput twelveLines))];
           isWaitingForNextBatch := false;
           status := {| total := length (parseInput twelveLines);
                        completed := length (concat [firstn 4 (parseInput twelveLines)]);
                        isProcessing := false;
                        error := Some (lit "处理中断: "
                                       ++ template_message
                                            (err_message (new_Error (lit "boom")))
                                       ++ lit "。建议导出已完成的部分并检查网络/API Key。")
                     |} |})
  /\ (calls (snd (AppDeepSeek.handleProcess (fun _ => failsSecond) sampleAppDeepSeek))
      = [firstn 5 (parseInput twelveLines)] ++ [firstn 5 (skipn 5 (parseInput twelveLines))]
      /\ AppDeepSeek.runState
           (fst (AppDeepSeek.handleProcess (fun _ => failsSecond) sampleAppDeepSeek))
         = {| results := concat [map echo (firstn 5 (parseInput twelveLines))];
              isWaitingForNextBatch := false;
              status := {| total := length (parseInput twelveLines);
                           completed := length (concat [firstn 5 (parseInput twelveLines)]);
                           isProcessing := false;
                           error := Some (lit "处理中断: "
                                          ++ template_message
                                               (err_message (new_Error (lit "boom")))
                                          ++ lit "。请检查 API Key 余额或网络连接。")
                        |} |}).
Proof.
  split.
  - apply (proj1 X13_failed_run_final_state failsSecond (fun _ => failsSecond) sampleApp
             [firstn 4 (parseInput twelveLines)]
             (firstn 4 (skipn 4 (parseInput twelveLines)))
             [skipn 8 (parseInput twelveLines)]
             [map echo (firstn 4 (parseInput twelveLines))]
             (new_Error (lit "boom"))).
    + discriminate.
    + vm_compute. reflexivity.
    + split; [reflexivity | exact I].
    + reflexivity.
  - apply (proj2 X13_failed_run_final_state (fun _ => failsSecond) sampleAppDeepSeek
             [firstn 5 (parseInput twelveLines)]
             (firstn 5 (skipn 5 (parseInput twelveLines)))
             [skipn 10 (parseInput twelveLines)]
             [map echo (firstn 5 (parseInput twelveLines))]
             (new_Error (lit "boom"))).
    + vm_compute. discriminate.
    + vm_compute. reflexivity.
    + split; [reflexivity | exact I].
    + reflexivity.
Defined.

(* ===================================================================== *)
(** * Further properties: what the parser lets through *)
(* ===================================================================== *)

Lemma splitOn_LF (s : jstring) : split_nl s = splitOn LF s.
Proof. induction s as [|c r IH]; simpl; [reflexivity|]. rewrite IH. reflexivity. Qed.

Lemma splitOn_cons (sep : N) (s : jstring) :
  exists h t, splitOn sep s = h :: t.
Proof.
  induction s as [|c r [h [t IH]]]; simpl.
  - eexists. eexists. reflexivity.
  - destruct (c =? sep); [eexists; eexists; reflexivity|].
    rewrite IH. simpl. eexists. eexists. reflexivity.
Qed.

(** No field of a split holds the separator, and every code unit of a
    field is one of the text. *)
Lemma splitOn_fields (sep : N) (s f : jstring) :
  In f (splitOn sep s) -> ~ In sep f /\ (forall x, In x f -> In x s).
Proof.
  revert f. induction s as [|c r IH]; simpl; intros f H.
  - destruct H as [H|[]]. subst f. split; [intros [] | intros x []].
  - destruct (N.eqb_spec c sep) as [E|E].
    + destruct H as [H|H].
      * subst f. split; [intros [] | intros x []].
      * destruct (IH f H) as [H1 H2]. split; [exact H1|].
        intros x Hx. right. exact (H2 x Hx).
    + destruct (splitOn_cons sep r) as [h [t Ht]]. rewrite Ht in H, IH.
      simpl in H. destruct H as [H|H].
      * subst f. destruct (IH h (or_introl eq_refl)) as [H1 H2]. split.
        -- intros [I|I]; [exact (E I) | exact (H1 I)].
        -- intros x [I|I]; [left; exact I | right; exact (H2 x I)].
      * destruct (IH f (or_intror H)) as [H1 H2]. split; [exact H1|].
        intros x Hx. right. exact (H2 x Hx).
Qed.

Lemma splitOn_app (sep : N) (a r : jstring) :
  ~ In sep a -> splitOn sep (a ++ sep :: r) = a :: splitOn sep r.
Proof.
  induction a as [|c a IH]; intros H; simpl.
  - rewrite N.eqb_refl. reflexivity.
  - destruct (N.eqb_spec c sep) as [E|E]; [exfalso; apply H; left; exact E|].
    rewrite IH by (intros I; apply H; right; exact I). reflexivity.
Qed.

Lemma splitOn_single (sep : N) (a : jstring) :
  ~ In sep a -> splitOn sep a = [a].
Proof.
  induction a as [|c a IH]; intros H; simpl; [reflexivity|].
  destruct (N.eqb_spec c sep) as [E|E]; [exfalso; apply H; left; exact E|].
  rewrite IH by (intros I; apply H; right; exact I). reflexivity.
Qed.

(** Splitting undoes joining, when no piece holds the separator. *)
Lemma splitOn_join (sep : N) (xs : list jstring) :
  xs <> [] -> Forall (fun x => ~ In sep x) xs ->
  splitOn sep (join [sep] xs) = xs.
Proof.
  induction xs as [|x rest IH]; intros Hne F; [congruence|].
  inversion F as [|x' rest' Hx Frest]; subst.
  destruct rest as [|y rest].
  - simpl. apply splitOn_single. exact Hx.
  - change (join [sep] (x :: y :: rest)) with (x ++ sep :: join [sep] (y :: rest)).
    rewrite (splitOn_app sep x _ Hx), IH; [reflexivity | discriminate | exact Frest].
Qed.

Lemma separatorFree_app (a b : jstring) :
  separatorFree (a ++ b) = true -> separatorFree a = true /\ separatorFree b = true.
Proof.
  induction a as [|c a IH]; intros H; [split; [reflexivity | exact H]|].
  cbn [app separatorFree] in *.
  apply andb_true_iff in H. destruct H as [H Hab].
  apply andb_true_iff in H. destruct H as [Ht Hs].
  destruct (IH Hab) as [Ha Hb]. split; [|exact Hb].
  rewrite Ht, Ha. simpl. rewrite andb_true_r.
  destruct a as [|d a]; [simpl; rewrite andb_false_r; reflexivity | exact Hs].
Qed.

Lemma separatorFree_no_tab (s : jstring) :
  separatorFree s = true -> ~ In TAB s.
Proof.
  induction s as [|c s IH]; intros H; [intros []|].
  cbn [separatorFree] in H.
  apply andb_true_iff in H. destruct H as [H Hs].
  apply andb_true_iff in H. destruct H as [Ht _].
  apply negb_true_iff in Ht. apply N.eqb_neq in Ht.
  intros [I|I]; [exact (Ht I) | exact (IH Hs I)].
Qed.

(** [trim] keeps a stretch of its argument. *)
Lemma trim_infix (s : jstring) : exists pre post, s = pre ++ trim s ++ post.
Proof.
  unfold trim, trimEnd, trimStart.
  destruct (dropWhile_split isWhiteSpace s) as [pre Hpre].
  destruct (dropWhile_split isWhiteSpace (rev (dropWhile isWhiteSpace s)))
    as [dropped Hpost].
  exists pre, (rev dropped).
  rewrite <- rev_app_distr, <- Hpost, rev_involutive. exact Hpre.
Qed.

Lemma trim_separatorFree (s : jstring) :
  separatorFree s = true -> separatorFree (trim s) = true.
Proof.
  intros H. destruct (trim_infix s) as [pre [post E]]. rewrite E in H.
  apply separatorFree_app in H. destruct H as [_ H].
  apply separatorFree_app in H. exact (proj1 H).
Qed.

Lemma trim_In (s : jstring) (x : N) : In x (trim s) -> In x s.
Proof.
  intros H. destruct (trim_infix s) as [pre [post E]]. rewrite E.
  apply in_or_app. right. apply in_or_app. left. exact H.
Qed.

Lemma dropWhile_In (p : N -> bool) (s : jstring) (x : N) :
  In x (dropWhile p s) -> In x s.
Proof.
  intros H. destruct (dropWhile_split p s) as [d E]. rewrite E.
  apply in_or_app. right. exact H.
Qed.

Lemma splitFields_cons (s : jstring) : exists h t, splitFields s = h :: t.
Proof.
  destruct s as [|c r];
    [rewrite splitFields_equation_1; eexists; eexists; reflexivity|].
  rewrite splitFields_equation_2.
  destruct (c =? TAB); [eexists; eexists; reflexivity|].
  destruct (isSpace c && startsWithSpace r); [eexists; eexists; reflexivity|].
  destruct (splitFields r) as [|h t]; eexists; eexists; reflexivity.
Qed.

Lemma splitFields_head_space (r h : jstring) (t : list jstring) :
  splitFields r = h :: t -> startsWithSpace h = true -> startsWithSpace r = true.
Proof.
  destruct r as [|x r];
    [rewrite splitFields_equation_1; intros H; injection H as H _; subst h;
     discriminate|].
  rewrite splitFields_equation_2.
  destruct (x =? TAB); [intros H; injection H as H _; subst h; discriminate|].
  destruct (isSpace x && startsWithSpace r);
    [intros H; injection H as H _; subst h; discriminate|].
  destruct (splitFields r) as [|h0 t0]; simpl; intros H; injection H as H _;
    subst h; simpl; intros E; exact E.
Qed.

(** No field of a line holds a separator of the line pattern, and every
    code unit of a field is one of the line. *)
Lemma splitFields_fields :
  forall n (s f : jstring),
    (length s <= n)%nat ->
    In f (splitFields s) ->
    separatorFree f = true /\ (forall x, In x f -> In x s).
Proof.
  induction n as [|n IH]; intros s f Hn H.
  - destruct s; [|simpl in Hn; lia].
    rewrite splitFields_equation_1 in H.
    destruct H as [H|[]]. subst f. split; [reflexivity | intros x []].
  - destruct s as [|c r].
    { rewrite splitFields_equation_1 in H.
      destruct H as [H|[]]. subst f. split; [reflexivity | intros x []]. }
    simpl in Hn. rewrite splitFields_equation_2 in H.
    destruct (c =? TAB) eqn:Et.
    { destruct H as [H|H]; [subst f; split; [reflexivity | intros x []]|].
      destruct (IH r f ltac:(lia) H) as [H1 H2]. split; [exact H1|].
      intros x Hx. right. exact (H2 x Hx). }
    destruct (isSpace c && startsWithSpace r) eqn:Es.
    { destruct H as [H|H]; [subst f; split; [reflexivity | intros x []]|].
      assert (Hl : (length (dropWhile isSpace r) <= n)%nat).
      { destruct (dropWhile_split isSpace r) as [d E].
        apply (f_equal (@length _)) in E. rewrite length_app in E. lia. }
      destruct (IH _ f Hl H) as [H1 H2]. split; [exact H1|].
      intros x Hx. right. apply (dropWhile_In isSpace). exact (H2 x Hx). }
    destruct (splitFields_cons r) as [h [t Ht]]. rewrite Ht in H. simpl in H.
    destruct H as [H|H].
    + subst f.
      destruct (IH r h ltac:(lia) ltac:(rewrite Ht; left; reflexivity)) as [H1 H2].
      split.
      * cbn [separatorFree]. rewrite Et, H1. simpl. rewrite andb_true_r.
        apply negb_true_iff.
        destruct (isSpace c) eqn:Ec; [|reflexivity]. simpl in *.
        destruct (startsWithSpace h) eqn:Eh; [|reflexivity].
        rewrite (splitFields_head_space r h t Ht Eh) in Es. discriminate.
      * intros x [I|I]; [left; exact I | right; exact (H2 x I)].
    + destruct (IH r f ltac:(lia) ltac:(rewrite Ht; right; exact H)) as [H1 H2].
      split; [exact H1|]. intros x Hx. right. exact (H2 x Hx).
Qed.

Lemma fieldAt_clean (line : jstring) (i : nat) :
  ~ In LF line ->
  separatorFree (fieldAt (splitFields line) i) = true
  /\ ~ In LF (fieldAt (splitFields line) i).
Proof.
  intros Hlf. unfold fieldAt.
  destruct (nth_error (splitFields line) i) as [f|] eqn:E;
    [|split; [reflexivity | intros []]].
  apply nth_error_In in E.
  destruct (splitFields_fields (length line) line f (Nat.le_refl _) E) as [H1 H2].
  split; [apply trim_separatorFree; exact H1|].
  intros I. apply Hlf. apply H2. apply trim_In. exact I.
Qed.

Lemma parseInput_clean (text : jstring) (p : ProductInput) :
  In p (parseInput text) ->
  (separatorFree (sku p) = true /\ ~ In LF (sku p))
  /\ (separatorFree (chineseName p) = true /\ ~ In LF (chineseName p)).
Proof.
  intros H. destruct (parseInput_lines text p H) as [line [Hline Hp]].
  rewrite splitOn_LF in Hline. apply splitOn_fields in Hline.
  destruct Hline as [Hlf _]. subst p. unfold parseLine. simpl.
  split; apply fieldAt_clean; exact Hlf.
Qed.

(** X14: no value the parser lets through holds a tab, a line feed or two
    spaces in a row, whatever the pasted text is: the separators of the
    input format never reach a record. *)
Theorem X14_parsed_values_hold_no_separator :
  forall text p,
    In p (parseInput text) ->
    separatorFree (sku p) = true
    /\ separatorFree (chineseName p) = true
    /\ ~ In TAB (sku p) /\ ~ In TAB (chineseName p)
    /\ ~ In LF (sku p) /\ ~ In LF (chineseName p).
Proof.
  intros text p H.
  destruct (parseInput_clean text p H) as [[S1 L1] [S2 L2]].
  split; [exact S1|]. split; [exact S2|].
  split; [apply separatorFree_no_tab; exact S1|].
  split; [apply separatorFree_no_tab; exact S2|].
  split; assumption.
Qed.

(** The theorem at the second record of the sample input. *)
Lemma X14_parsed_values_hold_no_separator_witness :
  separatorFree (lit "B") = true
  /\ separatorFree (lit "bar") = true
  /\ ~ In TAB (lit "B") /\ ~ In TAB (lit "bar")
  /\ ~ In LF (lit "B") /\ ~ In LF (lit "bar").
Proof.
  apply (X14_parsed_values_hold_no_separator sampleInput
           {| sku := lit "B"; chineseName := lit "bar" |}).
  vm_compute. right. left. reflexivity.
Defined.

(* ===================================================================== *)
(** * Further properties: parsing what was parsed *)
(* ===================================================================== *)

(** A string that [trim] leaves alone, at either end of a text, keeps
    [trim] from touching the text. *)
Lemma trim_between (a m b : jstring) :
  a <> [] -> b <> [] -> trim a = a -> trim b = b ->
  trim (a ++ m ++ b) = a ++ m ++ b.
Proof.
  intros Ha Hb Ta Tb.
  destruct a as [|c a]; [congruence|].
  pose proof (trim_head (c :: a) c a Ta) as Hc.
  destruct (rev b) as [|d b'] eqn:Eb.
  { apply (f_equal (@rev _)) in Eb. rewrite rev_involutive in Eb. simpl in Eb.
    congruence. }
  assert (Hd : isWhiteSpace d = false).
  { apply (trim_last b d b'). rewrite Tb. exact Eb. }
  assert (E1 : dropWhile isWhiteSpace ((c :: a) ++ m ++ b) = (c :: a) ++ m ++ b).
  { cbn [app dropWhile]. rewrite Hc. reflexivity. }
  assert (E2 : dropWhile isWhiteSpace (rev ((c :: a) ++ m ++ b))
               = rev ((c :: a) ++ m ++ b)).
  { rewrite !rev_app_distr, Eb. cbn [app dropWhile]. rewrite Hd. reflexivity. }
  unfold trim, trimStart, trimEnd. rewrite E1, E2. apply rev_involutive.
Qed.

Lemma join_tabLines_ends (ps : list ProductInput) :
  forall p0,
    exists m,
      join [LF] (map tabLine (p0 :: ps)) = sku p0 ++ m ++ chineseName (last ps p0).
Proof.
  induction ps as [|q ps IH]; intros p0.
  - exists [TAB]. reflexivity.
  - destruct (IH q) as [m Hm].
    exists (TAB :: chineseName p0 ++ LF :: sku q ++ m).
    change (join [LF] (map tabLine (p0 :: q :: ps)))
      with (tabLine p0 ++ LF :: join [LF] (map tabLine (q :: ps))).
    assert (L : last (q :: ps) p0 = last ps q).
    { destruct ps as [|r ps']; [reflexivity|].
      exact (last_cons_default r ps' p0 q). }
    rewrite Hm, L. unfold tabLine.
    repeat (rewrite <- app_assoc; cbn [app]). reflexivity.
Qed.

(** Records as the parser produces them, written one per line with a tab
    between the two values, parse to themselves. *)
Lemma parseInput_tabLines (ps : list ProductInput) :
  Forall (fun p => sku p <> [] /\ chineseName p <> []
                   /\ trim (sku p) = sku p /\ trim (chineseName p) = chineseName p
                   /\ (separatorFree (sku p) = true /\ ~ In LF (sku p))
                   /\ (separatorFree (chineseName p) = true
                       /\ ~ In LF (chineseName p))) ps ->
  parseInput (join [LF] (map tabLine ps)) = ps.
Proof.
  intros F. destruct ps as [|p0 ps]; [vm_compute; reflexivity|].
  unfold parseInput.
  assert (T : trim (join [LF] (map tabLine (p0 :: ps)))
              = join [LF] (map tabLine (p0 :: ps))).
  { destruct (join_tabLines_ends ps p0) as [m Hm]. rewrite Hm.
    assert (Hl : In (last ps p0) (p0 :: ps)).
    { destruct ps as [|q ps]; [left; reflexivity|].
      right. rewrite (last_cons_default q ps p0 q).
      destruct (@exists_last _ (q :: ps) ltac:(discriminate)) as [init [z Hz]].
      rewrite Hz, last_last. apply in_or_app. right. left. reflexivity. }
    rewrite Forall_forall in F.
    destruct (F p0 (or_introl eq_refl)) as [H1 [_ [H3 _]]].
    destruct (F _ Hl) as [_ [H2 [_ [H4 _]]]].
    apply trim_between; assumption. }
  rewrite T, splitOn_LF, splitOn_join.
  - rewrite map_map.
    assert (M : forall qs : list ProductInput,
               Forall (fun p => sku p <> [] /\ chineseName p <> []
                                /\ trim (sku p) = sku p
                                /\ trim (chineseName p) = chineseName p
                                /\ (separatorFree (sku p) = true /\ ~ In LF (sku p))
                                /\ (separatorFree (chineseName p) = true
                                    /\ ~ In LF (chineseName p))) qs ->
               filter hasBoth (map (fun p => parseLine (tabLine p)) qs) = qs).
    { induction qs as [|q qs IH]; intros Fq; [reflexivity|].
      inversion Fq as [|q' qs' Hq Fqs]; subst.
      destruct Hq as [H1 [H2 [H3 [H4 [[H5 _] [H6 _]]]]]].
      cbn [map filter].
      assert (E : parseLine (tabLine q) = q).
      { unfold parseLine, tabLine.
        rewrite (splitFields_tab (sku q) (chineseName q) H5).
        rewrite (splitFields_single (chineseName q) H6).
        unfold fieldAt. simpl. rewrite H3, H4. destruct q; reflexivity. }
      rewrite E. unfold hasBoth at 1.
      destruct (sku q); [congruence|]. destruct (chineseName q); [congruence|].
      simpl. rewrite (IH Fqs). reflexivity. }
    apply M. exact F.
  - discriminate.
  - rewrite Forall_map. eapply Forall_impl; [|exact F]. simpl.
    intros p [_ [_ [_ [_ [[_ H5] [_ H6]]]]]]. unfold tabLine.
    intros I. apply in_app_or in I. destruct I as [I|[I|I]].
    + exact (H5 I).
    + discriminate I.
    + exact (H6 I).
Qed.

(** X15: the output of the parser is a fixed point of copying and pasting:
    writing the parsed records one per line, with a tab between the two
    values, and parsing that text gives the same records, in the same
    order, whatever the first text was. *)
Theorem X15_parse_again :
  forall text,
    parseInput (join [LF] (map tabLine (parseInput text))) = parseInput text.
Proof.
  intros text. apply parseInput_tabLines. apply Forall_forall. intros p Hp.
  pose proof (filter_hasBoth_nonEmpty _ p Hp) as [H1 H2].
  destruct (parseInput_lines text p Hp) as [line [_ E]].
  split; [exact H1|]. split; [exact H2|].
  split; [subst p; apply fieldAt_trimmed|].
  split; [subst p; apply fieldAt_trimmed|].
  apply parseInput_clean with (text := text). exact Hp.
Qed.

(* ===================================================================== *)
(** * Further properties: the two exports read back *)
(* ===================================================================== *)

Lemma Untyped_csvRow_typed engineError (r : ProductResult) :
  Untyped.csvRow engineError (resultObject r) = Ret (csvRow r).
Proof. destruct r. reflexivity. Qed.

Lemma Untyped_csvRows_typed engineError (rs : list ProductResult) :
  Untyped.csvRows engineError (map resultObject rs) = Ret (map csvRow rs).
Proof.
  induction rs as [|r rs IH]; [reflexivity|].
  cbn [map Untyped.csvRows]. rewrite Untyped_csvRow_typed, IH. reflexivity.
Qed.

(** A row is only produced when the three translated values are strings. *)
Lemma Untyped_csvRow_strings engineError (r : value) (row name : jstring) :
  Untyped.csvRow engineError r = Ret row ->
  In name [lit "russianName"; lit "russianDescription"; lit "backTranslation"] ->
  exists s, getProp engineError r name = Ret (VStr s).
Proof.
  unfold Untyped.csvRow. intros H Hname.
  destruct (getProp engineError r (lit "sku")) as [skuValue|e]; simpl in H;
    [|discriminate].
  destruct (toString engineError skuValue) as [skuText|e]; simpl in H;
    [|discriminate].
  destruct (getProp engineError r (lit "chineseName")) as [nameValue|e]; simpl in H;
    [|discriminate].
  destruct (toString engineError nameValue) as [nameText|e]; simpl in H;
    [|discriminate].
  destruct (getProp engineError r (lit "russianName")) as [rn|e] eqn:E1; simpl in H;
    [|discriminate].
  destruct rn as [| | | |s1| |]; simpl in H; try discriminate.
  destruct (getProp engineError r (lit "russianDescription")) as [rd|e] eqn:E2;
    simpl in H; [|discriminate].
  destruct rd as [| | | |s2| |]; simpl in H; try discriminate.
  destruct (getProp engineError r (lit "backTranslation")) as [bt|e] eqn:E3;
    simpl in H; [|discriminate].
  destruct bt as [| | | |s3| |]; simpl in H; try discriminate.
  destruct Hname as [N|[N|[N|[]]]]; subst name; eexists; eassumption.
Qed.

Lemma Untyped_csvRows_strings engineError (rs : list value) (rows : list jstring)
  (r : value) (name : jstring) :
  Untyped.csvRows engineError rs = Ret rows ->
  In r rs ->
  In name [lit "russianName"; lit "russianDescription"; lit "backTranslation"] ->
  exists s, getProp engineError r name = Ret (VStr s).
Proof.
  revert rows. induction rs as [|x rs IH]; intros rows H Hr Hname; [destruct Hr|].
  cbn [Untyped.csvRows] in H.
  destruct (Untyped.csvRow engineError x) as [row|e] eqn:Ex; simpl in H;
    [|discriminate].
  destruct (Untyped.csvRows engineError rs) as [rows'|e]; simpl in H;
    [|discriminate].
  destruct Hr as [Hr|Hr].
  - subst x. exact (Untyped_csvRow_strings engineError r row name Ex Hname).
  - exact (IH rows' eq_refl Hr Hname).
Qed.

(** X16: [downloadCSV] does nothing for an empty result list.  On results
    whose five properties are strings it names the file after the stem and
    the first ten characters of the time stamp, and when no [sku] and no
    [chineseName] holds a double quote the file reads back, by the RFC 4180
    reading, as the header and the five values of every record, in order,
    whatever the three translated values hold: quotes, commas and line
    feeds included.  When one result of the list has a translated value
    that is not a string, as happens when the completion left it out, the
    handler throws and no file is written. *)
Theorem X16_csv_reads_back_or_fails :
  forall engineError stem now,
    Untyped.downloadCSV engineError stem now [] = Ret None
    /\ (forall rs : list ProductResult,
           Untyped.downloadCSV engineError stem now (map resultObject rs)
           = Ret (downloadCSV stem now rs))
    /\ (forall rs : list ProductResult,
           rs <> [] ->
           (forall r, In r rs -> quoteFree (res_sku r) /\ quoteFree (res_chineseName r)) ->
           exists d,
             Untyped.downloadCSV engineError stem now (map resultObject rs)
             = Ret (Some d)
             /\ download d = stem ++ firstn 10 now ++ lit ".csv"
             /\ parseCSV (blob d) = Some (CSV_COLUMNS :: map fieldsOf rs))
    /\ (forall (rs : list value) (r : value) (name : jstring),
           In r rs ->
           In name [lit "russianName"; lit "russianDescription"; lit "backTranslation"] ->
           (forall s, getProp engineError r name <> Ret (VStr s)) ->
           exists e, Untyped.downloadCSV engineError stem now rs = Throw e).
Proof.
  intros engineError stem now.
  assert (Typed : forall rs : list ProductResult,
             Untyped.downloadCSV engineError stem now (map resultObject rs)
             = Ret (downloadCSV stem now rs)).
  { intros [|r rs]; [reflexivity|].
    unfold Untyped.downloadCSV, downloadCSV. cbn [map].
    change (resultObject r :: map resultObject rs) with (map resultObject (r :: rs)).
    rewrite Untyped_csvRows_typed. reflexivity. }
  split; [reflexivity|]. split; [exact Typed|]. split.
  - intros rs Hne Hq. rewrite Typed. destruct rs as [|r rs]; [congruence|].
    eexists. split; [reflexivity|]. split; [reflexivity|].
    apply csv_roundtrip; assumption.
  - intros rs r name Hr Hname Hnot.
    destruct rs as [|x rs]; [destruct Hr|].
    unfold Untyped.downloadCSV.
    destruct (Untyped.csvRows engineError (x :: rs)) as [rows|e] eqn:E.
    + exfalso.
      destruct (Untyped_csvRows_strings engineError (x :: rs) rows r name E Hr Hname)
        as [s Hs].
      exact (Hnot s Hs).
    + exists e. reflexivity.
Qed.

(** The theorem at a record whose translated values hold quotes, a comma
    and a line feed, which reads back, and at the result of an entry that
    holds a [sku] and nothing else, on which the export throws. *)
Lemma X16_csv_reads_back_or_fails_witness :
  (exists d,
      Untyped.downloadCSV sampleEngineError (lit "ozon_export_deepseek_")
        (lit "2026-01-01T00:00:00.000Z") (map resultObject [trickyRecord])
      = Ret (Some d)
      /\ download d = lit "ozon_export_deepseek_"
                      ++ firstn 10 (lit "2026-01-01T00:00:00.000Z") ++ lit ".csv"
      /\ parseCSV (blob d) = Some (CSV_COLUMNS :: map fieldsOf [trickyRecord]))
  /\ (exists e,
         Untyped.downloadCSV sampleEngineError (lit "ozon_export_deepseek_")
           (lit "2026-01-01T00:00:00.000Z") [resultObject trickyRecord; omittedResult]
         = Throw e)
  /\ Untyped.downloadCSV sampleEngineError (lit "ozon_export_deepseek_")
       (lit "2026-01-01T00:00:00.000Z") [resultObject trickyRecord; omittedResult]
     = Throw (new_Error (lit "TypeError")).
Proof.
  split; [|split].
  - apply (proj1 (proj2 (proj2 (X16_csv_reads_back_or_fails sampleEngineError
                                  (lit "ozon_export_deepseek_")
                                  (lit "2026-01-01T00:00:00.000Z"))))
             [trickyRecord]).
    + discriminate.
    + intros r [E|[]]. subst r. unfold quoteFree. vm_compute. intuition discriminate.
  - apply (proj2 (proj2 (proj2 (X16_csv_reads_back_or_fails sampleEngineError
                                  (lit "ozon_export_deepseek_")
                                  (lit "2026-01-01T00:00:00.000Z"))))
             [resultObject trickyRecord; omittedResult] omittedResult
             (lit "russianName")).
    + right. left. reflexivity.
    + left. reflexivity.
    + intros s. vm_compute. discriminate.
  - vm_compute. reflexivity.
Defined.

Lemma join_In (sep : jstring) (xs : list jstring) (c : N) :
  In c (join sep xs) -> In c sep \/ exists x, In x xs /\ In c x.
Proof.
  induction xs as [|x rest IH]; [intros []|].
  destruct rest as [|y rest].
  - simpl. intros H. right. exists x. split; [left; reflexivity | exact H].
  - change (join sep (x :: y :: rest)) with (x ++ sep ++ join sep (y :: rest)).
    intros H. apply in_app_or in H. destruct H as [H|H].
    + right. exists x. split; [left; reflexivity | exact H].
    + apply in_app_or in H. destruct H as [H|H]; [left; exact H|].
      destruct (IH H) as [I|[z [Hz Hc]]]; [left; exact I|].
      right. exists z. split; [right; exact Hz | exact Hc].
Qed.

Lemma copyText_join (r : ProductResult) (rs : list ProductResult) :
  copyText (r :: rs) = join [LF] (join [TAB] COPY_COLUMNS :: map copyRow (r :: rs)).
Proof. reflexivity. Qed.

(** X17: when no value of a non-empty result list holds a tab or a line
    feed, the text [copyToExcel] puts on the clipboard, cut into lines and
    each line into cells at the tabs, is the header row followed by the five
    values of every record, in order; the alert follows only when the write
    to the clipboard succeeded. *)
Theorem X17_clipboard_reads_back :
  forall (written : bool) (rs : list ProductResult),
    rs <> [] ->
    (forall r x, In r rs -> In x (fieldsOf r) -> ~ In TAB x /\ ~ In LF x) ->
    copyToExcel written rs
    = WriteClipboard (copyText rs) :: (if written then [ShowAlert COPIED] else [])
    /\ map (splitOn TAB) (split_nl (copyText rs)) = COPY_COLUMNS :: map fieldsOf rs.
Proof.
  intros written rs Hne Hclean. destruct rs as [|r0 rs]; [congruence|].
  split; [reflexivity|].
  rewrite copyText_join, splitOn_LF, splitOn_join.
  - cbn [map]. apply (f_equal2 (@cons _)); [vm_compute; reflexivity|].
    change (splitOn TAB (copyRow r0) :: map (splitOn TAB) (map copyRow rs))
      with (map (splitOn TAB) (map copyRow (r0 :: rs))).
    rewrite map_map.
    change (fieldsOf r0 :: map fieldsOf rs) with (map fieldsOf (r0 :: rs)).
    apply map_ext_in. intros r Hr.
    unfold copyRow. apply splitOn_join; [discriminate|].
    apply Forall_forall. intros x Hx. exact (proj1 (Hclean r x Hr Hx)).
  - discriminate.
  - apply Forall_cons; [vm_compute; intuition discriminate|].
    apply Forall_forall. intros line Hline.
    apply in_map_iff in Hline. destruct Hline as [r [E Hr]]. subst line.
    intros I. unfold copyRow in I. apply join_In in I.
    destruct I as [[I|[]]|[x [Hx I]]]; [discriminate I|].
    exact (proj2 (Hclean r x Hr Hx) I).
Qed.

(** The theorem at a record whose values hold commas and quotes. *)
Lemma X17_clipboard_reads_back_witness :
  copyToExcel true [splitRecord]
  = WriteClipboard (copyText [splitRecord]) :: [ShowAlert COPIED]
  /\ map (splitOn TAB) (split_nl (copyText [splitRecord]))
     = COPY_COLUMNS :: map fieldsOf [splitRecord].
Proof.
  apply (X17_clipboard_reads_back true [splitRecord]).
  - discriminate.
  - intros r x [E|[]] Hx. subst r. vm_compute in Hx.
    repeat (destruct Hx as [Hx|Hx]; [subst x; vm_compute; intuition discriminate|]).
    destruct Hx.
Defined.

Lemma splitOn_length (sep : N) (s : jstring) :
  length (splitOn sep s) = S (countOf sep s).
Proof.
  unfold countOf. induction s as [|c r IH]; [reflexivity|].
  cbn [splitOn filter]. rewrite (N.eqb_sym sep c).
  destruct (c =? sep); cbn [length]; [rewrite IH; reflexivity|].
  destruct (splitOn_cons sep r) as [h [t E]]. rewrite E in *. exact IH.
Qed.

Lemma countOf_app (c : N) (a b : jstring) :
  countOf c (a ++ b) = (countOf c a + countOf c b)%nat.
Proof. unfold countOf. rewrite filter_app, length_app. reflexivity. Qed.

Lemma countOf_cons (c x : N) (s : jstring) :
  countOf c (x :: s) = ((if (c =? x)%N then 1 else 0) + countOf c s)%nat.
Proof. unfold countOf. cbn [filter]. destruct (c =? x); reflexivity. Qed.

(** The separators of a join count once between two pieces. *)
Lemma countOf_join (c sep : N) (xs : list jstring) :
  countOf c (join [sep] xs)
  = ((if (c =? sep)%N then length xs - 1 else 0) + countOf c (concat xs))%nat.
Proof.
  induction xs as [|x rest IH]; [destruct (c =? sep); reflexivity|].
  destruct rest as [|y rest].
  - simpl. rewrite app_nil_r. destruct (c =? sep); reflexivity.
  - change (join [sep] (x :: y :: rest)) with (x ++ sep :: join [sep] (y :: rest)).
    change (concat (x :: y :: rest)) with (x ++ concat (y :: rest)).
    rewrite !countOf_app, countOf_cons, IH.
    destruct (c =? sep); cbn [length]; lia.
Qed.

(** X18: the clipboard text of a non-empty result list has one line for
    the header, one for every record, and one more for every line feed that
    stands inside a value: a value with a line feed breaks its row. *)
Theorem X18_clipboard_line_count :
  forall rs : list ProductResult,
    rs <> [] ->
    length (split_nl (copyText rs))
    = (1 + length rs
       + list_sum (map (fun r => countOf LF (concat (fieldsOf r))) rs))%nat.
Proof.
  intros rs Hne. destruct rs as [|r0 rs]; [congruence|].
  rewrite splitOn_LF, splitOn_length, copyText_join, countOf_join, N.eqb_refl.
  cbn [length concat]. rewrite countOf_app.
  replace (countOf LF (join [TAB] COPY_COLUMNS)) with 0%nat by (vm_compute; reflexivity).
  rewrite length_map.
  assert (E : forall qs : list ProductResult,
             countOf LF (concat (map copyRow qs))
             = list_sum (map (fun r => countOf LF (concat (fieldsOf r))) qs)).
  { induction qs as [|q qs IH]; [reflexivity|].
    cbn [map concat list_sum]. rewrite countOf_app, IH. f_equal.
    unfold copyRow. rewrite countOf_join.
    replace (LF =? TAB) with false by reflexivity. reflexivity. }
  rewrite (E (r0 :: rs)). cbn [length]. lia.
Qed.

(** The theorem at a record whose description holds one line feed: three
    lines for one record. *)
Lemma X18_clipboard_line_count_witness :
  length (split_nl (copyText [trickyRecord]))
  = (1 + length [trickyRecord]
     + list_sum (map (fun r => countOf LF (concat (fieldsOf r))) [trickyRecord]))%nat
  /\ (1 + length [trickyRecord]
      + list_sum (map (fun r => countOf LF (concat (fieldsOf r))) [trickyRecord]))%nat
     = 3%nat.
Proof.
  split.
  - apply (X18_clipboard_line_count [trickyRecord]). discriminate.
  - vm_compute. reflexivity.
Defined.

(* ===================================================================== *)
(** * Further properties: the prompt of every batch *)
(* ===================================================================== *)

Lemma batches_member {A : Type} (K : nat) (xs b : list A) :
  (0 < K)%nat -> In b (batches K xs) ->
  b <> [] /\ (length b <= K)%nat /\ (forall x, In x b -> In x xs).
Proof.
  intros HK Hb.
  assert (Hin : forall x, In x b -> In x xs).
  { intros x Hx. rewrite <- (batches_concat K xs HK). apply in_concat.
    exists b. split; assumption. }
  assert (Hne : batches K xs <> []) by (intros E; rewrite E in Hb; exact Hb).
  destruct (exists_last Hne) as [init [final E]].
  destruct (batches_sizes K xs HK init final E) as [Finit Hfinal].
  rewrite E in Hb. apply in_app_or in Hb. destruct Hb as [Hb|[Hb|[]]].
  - rewrite Forall_forall in Finit. pose proof (Finit b Hb) as L.
    split; [intros N; rewrite N in L; simpl in L; lia|]. split; [lia | exact Hin].
  - subst final.
    split; [intros N; rewrite N in Hfinal; simpl in Hfinal; lia|].
    split; [lia | exact Hin].
Qed.

Lemma productLine_one_line (text : jstring) (p : ProductInput) :
  In p (parseInput text) -> ~ In LF (productLine p).
Proof.
  intros Hp I. destruct (parseInput_clean text p Hp) as [[_ L1] [_ L2]].
  unfold productLine in I.
  apply in_app_or in I. destruct I as [I|I];
    [vm_compute in I; intuition discriminate|].
  apply in_app_or in I. destruct I as [I|I]; [exact (L1 I)|].
  apply in_app_or in I. destruct I as [I|I];
    [vm_compute in I; intuition discriminate | exact (L2 I)].
Qed.

Lemma productLines_lines (text : jstring) (b : list ProductInput) :
  b <> [] -> (forall p, In p b -> In p (parseInput text)) ->
  split_nl (productLines b) = map productLine b.
Proof.
  intros Hne Hin. unfold productLines. rewrite splitOn_LF. apply splitOn_join.
  - destruct b; [congruence | discriminate].
  - apply Forall_forall. intros line Hline.
    apply in_map_iff in Hline. destruct Hline as [p [E Hp]]. subst line.
    apply (productLine_one_line text). apply Hin. exact Hp.
Qed.

(** X19: in either revision and whatever the adapters do, every batch a
    request hands to an adapter is non-empty and no longer than the batch
    size, and the data block the service puts at the end of its prompt for
    that batch has exactly one line per product of the batch, in order:
    no parsed value can break a line of the prompt. *)
Theorem X19_prompt_lists_the_batch :
  (forall gem ds (app : App.AppState) b,
      In b (calls (snd (App.handleProcess gem ds app))) ->
      b <> []
      /\ (length b <= App.batchSizeOf (App.provider app))%nat
      /\ split_nl (productLines b) = map productLine b)
  /\ (forall ds (app : AppDeepSeek.AppState) b,
      In b (calls (snd (AppDeepSeek.handleProcess ds app))) ->
      b <> []
      /\ (length b <= AppDeepSeek.batchSize)%nat
      /\ split_nl (productLines b) = map productLine b).
Proof.
  split.
  - intros gem ds app b Hb.
    destruct (inputs_nil_dec (parseInput (App.rawInput app))) as [Hnil|Hin].
    { rewrite (proj2 (App_handleProcess_rejected gem ds app (or_introl Hnil))) in Hb.
      destruct Hb. }
    destruct (App_key_dec app) as [Hk|Hk].
    { rewrite (proj2 (App_handleProcess_rejected gem ds app (or_intror Hk))) in Hb.
      destruct Hb. }
    rewrite (App_handleProcess_accepted gem ds app Hin Hk) in Hb. cbn [snd] in Hb.
    destruct (run_calls_prefix (parseInput (App.rawInput app)) _
                (App.batchSizeOf_pos (App.provider app))
                (App.dispatch gem ds app) App.interrupted (App.runState app))
      as [rest E].
    assert (Hm : In b (batches (App.batchSizeOf (App.provider app))
                               (parseInput (App.rawInput app)))).
    { rewrite E. apply in_or_app. left. exact Hb. }
    destruct (batches_member _ _ b (App.batchSizeOf_pos (App.provider app)) Hm)
      as [Hne [Hlen Hsub]].
    split; [exact Hne|]. split; [exact Hlen|].
    exact (productLines_lines (App.rawInput app) b Hne Hsub).
  - intros ds app b Hb.
    destruct (inputs_nil_dec (parseInput (AppDeepSeek.rawInput app))) as [Hnil|Hin].
    { rewrite (proj2 (AppDeepSeek_handleProcess_rejected ds app (or_introl Hnil))) in Hb.
      destruct Hb. }
    destruct (jstring_nil_dec (trim (AppDeepSeek.apiKey app))) as [Hk|Hk].
    { rewrite (proj2 (AppDeepSeek_handleProcess_rejected ds app (or_intror Hk))) in Hb.
      destruct Hb. }
    rewrite (AppDeepSeek_handleProcess_accepted ds app Hin Hk) in Hb. cbn [snd] in Hb.
    destruct (run_calls_prefix (parseInput (AppDeepSeek.rawInput app)) _
                AppDeepSeek.batchSize_pos (ds (AppDeepSeek.apiKey app))
                AppDeepSeek.interrupted (AppDeepSeek.runState app))
      as [rest E].
    assert (Hm : In b (batches AppDeepSeek.batchSize
                               (parseInput (AppDeepSeek.rawInput app)))).
    { rewrite E. apply in_or_app. left. exact Hb. }
    destruct (batches_member _ _ b AppDeepSeek.batchSize_pos Hm)
      as [Hne [Hlen Hsub]].
    split; [exact Hne|]. split; [exact Hlen|].
    exact (productLines_lines (AppDeepSeek.rawInput app) b Hne Hsub).
Qed.

(** With an adapter that echoes, the DeepSeek-only revision sends every
    batch of the twelve lines. *)
Lemma echoes_calls :
  calls (snd (AppDeepSeek.handleProcess (fun _ => echoes) sampleAppDeepSeek))
  = batches AppDeepSeek.batchSize (parseInput twelveLines).
Proof.
  rewrite (AppDeepSeek_handleProcess_accepted (fun _ => echoes) sampleAppDeepSeek)
    by (vm_compute; discriminate).
  cbn [snd].
  destruct (answered_exists echoes
              (batches AppDeepSeek.batchSize (parseInput twelveLines)) 0%nat)
    as [outs Hans]; [intros j b _; eexists; reflexivity|].
  exact (proj1 (run_answered (parseInput twelveLines) _ AppDeepSeek.batchSize_pos
                  echoes AppDeepSeek.interrupted idleRun outs Hans)).
Qed.

(** The theorem at the last batch of twelve lines in the DeepSeek-only
    revision, which holds two products. *)
Lemma X19_prompt_lists_the_batch_witness :
  skipn 10 (parseInput twelveLines) <> []
  /\ (length (skipn 10 (parseInput twelveLines)) <= AppDeepSeek.batchSize)%nat
  /\ split_nl (productLines (skipn 10 (parseInput twelveLines)))
     = map productLine (skipn 10 (parseInput twelveLines)).
Proof.
  apply (proj2 X19_prompt_lists_the_batch (fun _ => echoes) sampleAppDeepSeek
           (skipn 10 (parseInput twelveLines))).
  rewrite echoes_calls. vm_compute. right. right. left. reflexivity.
Defined.

(* ===================================================================== *)
(** * Further properties: the reset and the start button *)
(* ===================================================================== *)

Lemma parseInput_blank (text : jstring) : trim text = [] -> parseInput text = [].
Proof. intros H. unfold parseInput. rewrite H. vm_compute. reflexivity. Qed.

Lemma alerts_app (xs ys : list Step) : alerts (xs ++ ys) = alerts xs ++ alerts ys.
Proof. apply flat_map_app. Qed.

Lemma unrolled_alerts batchSize adapter (bs : list (list ProductInput)) :
  forall i k st r st' steps,
    unrolled batchSize adapter bs i k st = (r, st', steps) -> alerts steps = [].
Proof.
  induction bs as [|batch rest IH]; intros i k st r st' steps E; simpl in E.
  - injection E as _ _ E3. subst. reflexivity.
  - unfold pace in E.
    destruct (adapter k batch) as [batchResults|err].
    + destruct (0 <? i)%nat;
        match type of E with
        | context [unrolled batchSize adapter rest ?a ?b ?c] =>
            destruct (unrolled batchSize adapter rest a b c)
              as [[r0 st0] steps0] eqn:E0
        end;
        injection E as _ _ E3; subst; apply IH in E0; simpl; exact E0.
    + destruct (0 <? i)%nat; injection E as _ _ E3; subst; reflexivity.
Qed.

Lemma run_alerts inputs batchSize (batchSize_pos : (0 < batchSize)%nat) adapter
  interrupted (st : RunState) :
  alerts (snd (@run inputs batchSize batchSize_pos adapter interrupted st)) = [].
Proof.
  rewrite run_unrolled. cbv zeta.
  set (st0 := setStatus _ st). set (st1 := setResults _ st0).
  destruct (unrolled batchSize adapter (batches batchSize inputs) 0 0 st1)
    as [[r st2] steps] eqn:E.
  pose proof (unrolled_alerts _ _ _ _ _ _ _ _ _ E) as Ha.
  destruct r as [u|err]; cbn [snd]; rewrite !alerts_app, Ha; reflexivity.
Qed.

(** X20: in either revision, a declined reset changes nothing; a confirmed
    one empties the input and the results and zeroes the status, and keeps
    the provider, the key, the settings panel and the waiting flag as they
    were.  After a confirmed reset the start button is disabled, the table
    with its two export buttons and the reset button itself are gone, both
    exports do nothing, and a start request is turned down without touching
    the state. *)
Theorem X20_reset :
  (forall gem ds written stem now (app : App.AppState),
      AppUI.clearAll false app = app
      /\ App.rawInput (AppUI.clearAll true app) = []
      /\ results (App.runState (AppUI.clearAll true app)) = []
      /\ status (App.runState (AppUI.clearAll true app)) = clearedStatus
      /\ isWaitingForNextBatch (App.runState (AppUI.clearAll true app))
         = isWaitingForNextBatch (App.runState app)
      /\ App.provider (AppUI.clearAll true app) = App.provider app
      /\ App.deepSeekKey (AppUI.clearAll true app) = App.deepSeekKey app
      /\ App.showSettings (AppUI.clearAll true app) = App.showSettings app
      /\ AppUI.startDisabled (AppUI.clearAll true app) = true
      /\ AppUI.exportShown (AppUI.clearAll true app) = false
      /\ AppUI.resetShown (AppUI.clearAll true app) = false
      /\ copyToExcel written (results (App.runState (AppUI.clearAll true app))) = []
      /\ downloadCSV stem now (results (App.runState (AppUI.clearAll true app))) = None
      /\ App.handleProcess gem ds (AppUI.clearAll true app)
         = (AppUI.clearAll true app, [Alert ALERT_NO_DATA]))
  /\ (forall ds written stem now (app : AppDeepSeek.AppState),
      AppDeepSeekUI.clearAll false app = app
      /\ AppDeepSeek.rawInput (AppDeepSeekUI.clearAll true app) = []
      /\ results (AppDeepSeek.runState (AppDeepSeekUI.clearAll true app)) = []
      /\ status (AppDeepSeek.runState (AppDeepSeekUI.clearAll true app)) = clearedStatus
      /\ isWaitingForNextBatch (AppDeepSeek.runState (AppDeepSeekUI.clearAll true app))
         = isWaitingForNextBatch (AppDeepSeek.runState app)
      /\ AppDeepSeek.apiKey (AppDeepSeekUI.clearAll true app) = AppDeepSeek.apiKey app
      /\ AppDeepSeekUI.startDisabled (AppDeepSeekUI.clearAll true app) = true
      /\ AppDeepSeekUI.exportShown (AppDeepSeekUI.clearAll true app) = false
      /\ AppDeepSeekUI.resetShown (AppDeepSeekUI.clearAll true app) = false
      /\ copyToExcel written
           (results (AppDeepSeek.runState (AppDeepSeekUI.clearAll true app))) = []
      /\ downloadCSV stem now
           (results (AppDeepSeek.runState (AppDeepSeekUI.clearAll true app))) = None
      /\ AppDeepSeek.handleProcess ds (AppDeepSeekUI.clearAll true app)
         = (AppDeepSeekUI.clearAll true app,
            [Alert (if nonEmpty (trim (AppDeepSeek.apiKey app))
                    then ALERT_NO_DATA else AppDeepSeek.ALERT_NO_KEY)])).
Proof.
  split.
  - intros gem ds written stem now app.
    repeat (split; [reflexivity|]). reflexivity.
  - intros ds written stem now app.
    repeat (split; [reflexivity|]).
    unfold AppDeepSeek.handleProcess. simpl.
    destruct (nonEmpty (trim (AppDeepSeek.apiKey app))); reflexivity.
Qed.

(** X21: in either revision, a disabled start button outside a run means
    that the request would have been turned down anyway, and an accepted
    request always leaves the start button enabled behind it, whether the
    run went through or was interrupted.  In the DeepSeek-only revision an
    enabled start button never leads to the alert about the missing key; in
    the revision with two backends it may. *)
Theorem X21_start_button :
  (forall gem ds (app : App.AppState),
      (AppUI.startDisabled app = true ->
       isProcessing (status (App.runState app)) = false ->
       App.handleProcess gem ds app = (app, [Alert ALERT_NO_DATA]))
      /\ (parseInput (App.rawInput app) <> [] ->
          (App.provider app = App.deepseek -> trim (App.deepSeekKey app) <> []) ->
          AppUI.startDisabled (fst (App.handleProcess gem ds app)) = false))
  /\ (forall ds (app : AppDeepSeek.AppState),
      (AppDeepSeekUI.startDisabled app = true ->
       isProcessing (status (AppDeepSeek.runState app)) = false ->
       fst (AppDeepSeek.handleProcess ds app) = app
       /\ exists msg, snd (AppDeepSeek.handleProcess ds app) = [Alert msg])
      /\ (parseInput (AppDeepSeek.rawInput app) <> [] ->
          trim (AppDeepSeek.apiKey app) <> [] ->
          AppDeepSeekUI.startDisabled (fst (AppDeepSeek.handleProcess ds app)) = false)
      /\ (AppDeepSeekUI.startDisabled app = false ->
          ~ In AppDeepSeek.ALERT_NO_KEY (alerts (snd (AppDeepSeek.handleProcess ds app)))))
  /\ AppUI.startDisabled blankKeyApp = false
  /\ (forall gem ds,
         alerts (snd (App.handleProcess gem ds blankKeyApp)) = [App.ALERT_NO_KEY]).
Proof.
  assert (NE : forall s : jstring, s <> [] -> nonEmpty s = true)
    by (intros [|c s] H; [congruence | reflexivity]).
  assert (TR : forall text, parseInput text <> [] -> trim text <> []).
  { intros text H E. apply H. apply parseInput_blank. exact E. }
  split; [|split; [|split]].
  - intros gem ds app. split.
    + intros Hd Hp. unfold AppUI.startDisabled in Hd. rewrite Hp in Hd. simpl in Hd.
      apply negb_true_iff in Hd.
      assert (E : trim (App.rawInput app) = [])
        by (destruct (trim (App.rawInput app)); [reflexivity | discriminate]).
      unfold App.handleProcess. rewrite (parseInput_blank _ E). reflexivity.
    + intros Hin Hk. rewrite (App_handleProcess_accepted gem ds app Hin Hk).
      cbn [fst]. unfold AppUI.startDisabled. simpl.
      destruct (run_flags (parseInput (App.rawInput app)) _
                  (App.batchSizeOf_pos (App.provider app))
                  (App.dispatch gem ds app) App.interrupted (App.runState app))
        as [body [st4 [_ [_ [_ [H5 _]]]]]].
      rewrite H5, (NE _ (TR _ Hin)). reflexivity.
  - intros ds app. split; [|split].
    + intros Hd Hp. unfold AppDeepSeekUI.startDisabled in Hd. rewrite Hp in Hd.
      simpl in Hd. unfold AppDeepSeek.handleProcess.
      destruct (nonEmpty (trim (AppDeepSeek.apiKey app))); simpl in *.
      * rewrite orb_false_r in Hd. apply negb_true_iff in Hd.
        assert (E : trim (AppDeepSeek.rawInput app) = [])
          by (destruct (trim (AppDeepSeek.rawInput app));
              [reflexivity | discriminate]).
        rewrite (parseInput_blank _ E). simpl.
        split; [reflexivity | eexists; reflexivity].
      * split; [reflexivity | eexists; reflexivity].
    + intros Hin Hk. rewrite (AppDeepSeek_handleProcess_accepted ds app Hin Hk).
      cbn [fst]. unfold AppDeepSeekUI.startDisabled. simpl.
      destruct (run_flags (parseInput (AppDeepSeek.rawInput app)) _
                  AppDeepSeek.batchSize_pos (ds (AppDeepSeek.apiKey app))
                  AppDeepSeek.interrupted (AppDeepSeek.runState app))
        as [body [st4 [_ [_ [_ [H5 _]]]]]].
      rewrite H5, (NE _ (TR _ Hin)), (NE _ Hk). reflexivity.
    + intros Hd. unfold AppDeepSeekUI.startDisabled in Hd.
      apply orb_false_iff in Hd. destruct Hd as [_ Hk].
      apply negb_false_iff in Hk.
      unfold AppDeepSeek.handleProcess. rewrite Hk. simpl.
      destruct (length (parseInput (AppDeepSeek.rawInput app)) =? 0)%nat.
      * simpl. intros [I|[]]. vm_compute in I. discriminate I.
      * destruct (run _ _ _ _ _) as [st steps] eqn:E. cbn [snd].
        replace steps with (snd (@run (parseInput (AppDeepSeek.rawInput app)) _
                                   AppDeepSeek.batchSize_pos
                                   (ds (AppDeepSeek.apiKey app))
                                   AppDeepSeek.interrupted
                                   (AppDeepSeek.runState app)))
          by (rewrite E; reflexivity).
        rewrite run_alerts. intros [].
  - vm_compute. reflexivity.
  - intros gem ds. reflexivity.
Qed.

(** The theorem at a text without a single complete line (the button is
    enabled, the request is turned down for want of data, not of a key) and
    at twelve lines with an adapter that fails on its second call (the
    button is enabled again after the interruption). *)
Lemma X21_start_button_witness :
  ~ In AppDeepSeek.ALERT_NO_KEY
      (alerts (snd (AppDeepSeek.handleProcess (fun _ => echoes) noInputApp)))
  /\ AppUI.startDisabled
       (fst (App.handleProcess failsSecond (fun _ => failsSecond) sampleApp)) = false.
Proof.
  split.
  - apply (proj2 (proj2 (proj1 (proj2 X21_start_button) (fun _ => echoes) noInputApp))).
    vm_compute. reflexivity.
  - apply (proj2 (proj1 X21_start_button failsSecond (fun _ => failsSecond) sampleApp)).
    + vm_compute. discriminate.
    + discriminate.
Defined.
